(** * EMA crossover bot: a shallow embedding of [mainbot.py]

    The Python module is embedded function by function.  Conventions:

    - The numbers the program computes with (balances, prices, volumes,
      profits, percentages) are Python floats: binary64 numbers ([float]),
      with the operations of the standard library's specification of
      IEEE 754 arithmetic, rounded to nearest even, infinities and NaN
      included.  What the theorems say about rounding is proved from those
      definitions (section [Rounding]).
    - The numbers inside a frame are the exact values of the closing prices,
      and the exponentially weighted mean of pandas, which is not part of
      the repository, is modelled in exact arithmetic ([Q], compared with
      [==]).  Module [B64] transcribes the same mean with every operation
      rounded to binary64, to show where rounding changes the signal.
    - A pandas [DataFrame] is a finite map from column names to columns, a
      column ([Series]) is a list of numbers in chronological order.
    - Functions that mutate their argument or talk to the trading terminal
      live in a small state-and-exception monad [M]; a Python exception is the
      [Raise] outcome, a Python [None] is Rocq's [None].
    - The MetaTrader5 module, the wall clock and [time.sleep] are an
      interface ([Terminal]) that the control loop is parametrised by. *)

From Corelib Require SpecFloat.
From Stdlib Require Import QArith Lqa ZArith Lia Ascii String List.
From stdpp Require Import base strings gmap list.

Local Open Scope Q_scope.

(** ** Exact numbers *)

(** [x < y] on exact numbers, as a boolean. *)
Definition Qltb (x y : Q) : bool := negb (Qle_bool y x).

(** ** Python floats

    A Python [float] is a binary64 number: 53 bits of precision, exponents
    below 1024.  The operations round to nearest, ties to even; comparisons
    with NaN are false. *)

Definition float : Type := SpecFloat.spec_float.

Definition fadd (x y : float) : float := SpecFloat.SFadd 53 1024 x y.
Definition fsub (x y : float) : float := SpecFloat.SFsub 53 1024 x y.
Definition fmul (x y : float) : float := SpecFloat.SFmul 53 1024 x y.
Definition fdiv (x y : float) : float := SpecFloat.SFdiv 53 1024 x y.
Definition fltb (x y : float) : bool := SpecFloat.SFltb x y.
Definition fleb (x y : float) : bool := SpecFloat.SFleb x y.
Definition feqb (x y : float) : bool := SpecFloat.SFeqb x y.

(** [float(z)] for an integer [z]. *)
Definition float_of_Z (z : Z) : float :=
  SpecFloat.binary_normalize 53 1024 z 0 false.

(** The float a decimal literal stands for: the binary64 number nearest to
    the fraction, for a numerator and a denominator that are themselves
    binary64 numbers (every literal below is of that kind). *)
Definition py_float (q : Q) : float :=
  fdiv (float_of_Z (Qnum q)) (float_of_Z (Zpos (Qden q))).

(** [-x]. *)
Definition fopp (x : float) : float := SpecFloat.SFopp x.

(** A finite float above zero.  The constructors of [float] also build
    triples that are no binary64 number (a significand of more than 53 bits,
    or one not aligned to its exponent); a Python float never is one, which
    is what [bounded] says. *)
Definition positive_finite (x : float) : bool :=
  match x with
  | SpecFloat.S754_finite false m e => SpecFloat.bounded 53 1024 m e
  | _ => false
  end.

(** The smallest positive normal float, [sys.float_info.min] = 2 ^ -1022. *)
Definition float_min : float :=
  SpecFloat.S754_finite false 4503599627370496 (-1074).

(** The gap between 1.0 and the next float, [sys.float_info.epsilon] =
    2 ^ -52. *)
Definition float_epsilon : float :=
  SpecFloat.S754_finite false 4503599627370496 (-104).

(** The float [2.0 ** j], for [-1022 <= j <= 1023]. *)
Definition pow2 (j : Z) : float :=
  SpecFloat.S754_finite false 4503599627370496 (j - 52).

(** A normal float of magnitude at least 2 ^ -1015, far below any balance,
    percentage or size, whose product with [2.0 ** j] is one too and does
    not overflow: the significand has 53 bits and the exponent stays
    between -1067 and 971 when [j] is added. *)
Definition scalable (j : Z) (x : float) : bool :=
  match x with
  | SpecFloat.S754_finite _ m e =>
      SpecFloat.bounded 53 1024 m e
      && (Zpos (SpecFloat.digits2_pos m) =? 53)%Z
      && (-1067 <=? e)%Z && (-1067 <=? e + j)%Z && (e + j <=? 971)%Z
  | _ => false
  end.

(** The exact value of a finite float (0 for infinities and NaN, which have
    none). *)
Definition exact (x : float) : Q :=
  match x with
  | SpecFloat.S754_finite s m e =>
      let v := inject_Z (Zpos m) * 2 ^ e in if s then - v else v
  | _ => 0
  end.

(** ** Exceptions and the state-and-exception monad *)

Inductive exn : Type :=
| KeyError | IndexError | ValueError | ZeroDivisionError | TypeError | AttributeError.

Inductive result (A : Type) : Type :=
| Ok (a : A)
| Raise (e : exn).
Arguments Ok {A} a.
Arguments Raise {A} e.

Definition M (S A : Type) : Type := S -> S * result A.

Definition ret {S A} (a : A) : M S A := fun s => (s, Ok a).
Definition raise {S A} (e : exn) : M S A := fun s => (s, Raise e).
Definition bind {S A B} (m : M S A) (k : A -> M S B) : M S B :=
  fun s => match m s with
           | (s', Ok a) => k a s'
           | (s', Raise e) => (s', Raise e)
           end.
Definition lift {S A} (r : result A) : M S A := fun s => (s, r).
Definition get {S} : M S S := fun s => (s, Ok s).
Definition modify {S} (f : S -> S) : M S unit := fun s => (f s, Ok tt).

Declare Scope py_scope.
Delimit Scope py_scope with py.
Notation "x <- m ;; k" := (bind m (fun x => k))
  (at level 100, m at next level, right associativity) : py_scope.
Notation "m ;;; k" := (bind m (fun _ => k))
  (at level 100, right associativity) : py_scope.

(** ** pandas: columns, frames and the exponentially weighted mean

    pandas is a dependency of the program, not part of it.  Frames and
    columns are modelled by what the program uses of them: reading and
    writing a column by name, reading a column by position, and the
    exponentially weighted mean. *)

Abbreviation Series := (list Q).
Abbreviation DataFrame := (gmap string (list Q)).

Module Pandas.

(** [df[col]]: a missing column raises [KeyError]. *)
Definition getitem (df : DataFrame) (col : string) : result Series :=
  match df !! col with
  | Some s => Ok s
  | None => Raise KeyError
  end.

(** [df[col] = s]: adds the column, or replaces it, in place. *)
Definition setitem (col : string) (s : Series) : M DataFrame unit :=
  modify (fun df => <[col := s]> df).

(** [s.iloc[i]] with Python's negative indices; out of range raises
    [IndexError]. *)
Definition iloc (s : Series) (i : Z) : result Q :=
  let n := Z.of_nat (length s) in
  let j := (if i <? 0 then n + i else i)%Z in
  if ((j <? 0) || (n <=? j))%Z then Raise IndexError
  else match s !! Z.to_nat j with
       | Some x => Ok x
       | None => Raise IndexError
       end.

(** Modelled from the spec: the window ([span]) of the exponentially
    weighted mean is turned by the library into a centre of mass,
    (span-1)/2, which makes the smoothing factor 1/(1+com) = 2/(span+1);
    the library refuses a span below 1. *)
Definition get_center_of_mass (span : Z) : result Q :=
  if (span <? 1)%Z then Raise ValueError
  else Ok ((inject_Z span - 1) / 2).

(** Modelled from the spec: the exponentially weighted mean of pandas
    ([Series.ewm(span=w, adjust=False).mean()]) is library code absent
    from the repository.  The spec describes it as the average with
    smoothing factor 2/(window+1), seeded from the first value, with no
    bias adjustment.  The definition computes that average the way the
    library's kernel does for [adjust=False] on a column without missing
    values: [alpha] is 1/(1+com), [weighted] is the running mean, [old_wt]
    restarts at 1 on every bar, the weighted sum is divided by the sum of
    the two weights, and the update is skipped when the new value equals
    the running mean. *)
Fixpoint ewm_loop (alpha : Q) (weighted old_wt : Q) (vals : list Q) : list Q :=
  match vals with
  | [] => []
  | cur :: rest =>
      let old_wt_factor := 1 - alpha in
      let new_wt := alpha in
      let old_wt' := old_wt * old_wt_factor in
      let weighted' :=
        if Qeq_bool weighted cur then weighted
        else (old_wt' * weighted + new_wt * cur) / (old_wt' + new_wt) in
      weighted' :: ewm_loop alpha weighted' 1 rest
  end.

Definition ewm (com : Q) (vals : list Q) : list Q :=
  let alpha := 1 / (1 + com) in
  match vals with
  | [] => []
  | x :: rest => x :: ewm_loop alpha x 1 rest
  end.

(** [s.ewm(span=span, adjust=False).mean()] *)
Definition ewm_mean (s : Series) (span : Z) : result Series :=
  match get_center_of_mass span with
  | Ok com => Ok (ewm com s)
  | Raise e => Raise e
  end.

End Pandas.

(** ** Signal calculator *)

(** [calculate_ema(df, window)] *)
Definition calculate_ema (df : DataFrame) (window : Z) : result Series :=
  match Pandas.getitem df "close" with
  | Ok close => Pandas.ewm_mean close window
  | Raise e => Raise e
  end.

(** [get_signals(df)]: stores both averages on the frame, then tests the last
    two bars.  [and] is short-circuit, so the bar before the last is read only
    when the test on the last bar holds. *)
Definition get_signals : M DataFrame (option string) :=
  (df <- get ;;
   e50 <- lift (calculate_ema df 50) ;;
   Pandas.setitem "ema_50" e50 ;;;
   df <- get ;;
   e200 <- lift (calculate_ema df 200) ;;
   Pandas.setitem "ema_200" e200 ;;;
   df <- get ;;
   fast <- lift (Pandas.getitem df "ema_50") ;;
   slow <- lift (Pandas.getitem df "ema_200") ;;
   f1 <- lift (Pandas.iloc fast (-1)) ;;
   s1 <- lift (Pandas.iloc slow (-1)) ;;
   let elif_sell :=
     (f1 <- lift (Pandas.iloc fast (-1)) ;;
      s1 <- lift (Pandas.iloc slow (-1)) ;;
      if Qltb f1 s1 then
        f2 <- lift (Pandas.iloc fast (-2)) ;;
        s2 <- lift (Pandas.iloc slow (-2)) ;;
        if Qle_bool s2 f2 then ret (Some "sell") else ret None
      else ret None) in
   if Qltb s1 f1 then
     f2 <- lift (Pandas.iloc fast (-2)) ;;
     s2 <- lift (Pandas.iloc slow (-2)) ;;
     if Qle_bool f2 s2 then ret (Some "buy") else elif_sell
   else elif_sell)%py.

(** A frame that has a [close] column and nothing else. *)
Definition frame_of_closes (c : list Q) : DataFrame := {["close" := c]}.

(** ** The recurrence of the specification

    [smoothing w] is the factor 2/(w+1); [ema_spec a c t] is the value e_t of
    the recurrence e_0 = c_0, e_t = a*c_t + (1-a)*e_(t-1). *)

Definition smoothing (w : Z) : Q := 2 / (inject_Z w + 1).

Fixpoint ema_spec (a : Q) (c : list Q) (t : nat) : Q :=
  match t with
  | O => nth 0 c 0
  | S t' => a * nth t c 0 + (1 - a) * ema_spec a c t'
  end.

(** The averages of the two windows at bar [t]. *)
Definition fast (c : list Q) (t : nat) : Q := ema_spec (smoothing 50) c t.
Definition slow (c : list Q) (t : nat) : Q := ema_spec (smoothing 200) c t.

(** ** Vocabulary of the properties of the calculator *)

(** The test on the last two bars: [f1], [s1] are the averages at the last
    bar, [f2], [s2] at the bar before. *)
Definition crossover (f1 s1 f2 s2 : Q) : option string :=
  if Qltb s1 f1 && Qle_bool f2 s2 then Some "buy"
  else if Qltb f1 s1 && Qle_bool s2 f2 then Some "sell"
  else None.

(** The frame after [get_signals]: both averages stored as columns. *)
Definition with_emas (df : DataFrame) (c : list Q) : DataFrame :=
  <["ema_200" := Pandas.ewm ((inject_Z 200 - 1) / 2) c]>
    (<["ema_50" := Pandas.ewm ((inject_Z 50 - 1) / 2) c]> df).


(** [signal_at c t]: the calculator evaluated on the bars up to and
    including bar [t]. *)
Definition signal_at (c : list Q) (t : nat) : result (option string) :=
  snd (get_signals (frame_of_closes (take (S t) c))).

(** ** Position sizing and risk levels *)

(** [calculate_position_size(account_balance, risk_percent)] *)
Definition calculate_position_size (account_balance risk_percent : float)
  : float :=
  fmul account_balance (fdiv risk_percent (py_float 100)).

(** [set_stop_loss_and_take_profit(entry_price, direction, stop_loss_pct,
    take_profit_pct)]; every direction other than ['buy'] takes the [else]
    branch. *)
Definition set_stop_loss_and_take_profit
    (entry_price : float) (direction : string)
    (stop_loss_pct take_profit_pct : float)
  : float * float :=
  if String.eqb direction "buy" then
    let sl := fmul entry_price (fsub (py_float 1) stop_loss_pct) in
    let tp := fmul entry_price (fadd (py_float 1) take_profit_pct) in
    (sl, tp)
  else
    let sl := fmul entry_price (fadd (py_float 1) stop_loss_pct) in
    let tp := fmul entry_price (fsub (py_float 1) take_profit_pct) in
    (sl, tp).

(** ** Time of day *)

(** [datetime.time]: compared field by field, hour first. *)
Record dt_time : Type := mk_time {
  hour : Z; minute : Z; second : Z; microsecond : Z
}.

Definition time_compare (a b : dt_time) : comparison :=
  match (hour a ?= hour b)%Z with
  | Eq => match (minute a ?= minute b)%Z with
          | Eq => match (second a ?= second b)%Z with
                  | Eq => (microsecond a ?= microsecond b)%Z
                  | o => o
                  end
          | o => o
          end
  | o => o
  end.

Definition time_le (a b : dt_time) : bool :=
  match time_compare a b with Gt => false | _ => true end.

(** A well-formed time of day and its position in the day in microseconds. *)
Definition valid_time (t : dt_time) : Prop :=
  (0 <= hour t < 24 /\ 0 <= minute t < 60 /\ 0 <= second t < 60
   /\ 0 <= microsecond t < 1000000)%Z.

Definition micros (t : dt_time) : Z :=
  (((hour t * 60 + minute t) * 60 + second t) * 1000000 + microsecond t)%Z.

(** ** Configuration, read from the environment at import time *)

Record Account : Type := { login : Z; password : string; server : string }.

Record Config : Type := {
  SYMBOL : string;
  MAX_POSITIONS : Z;
  RISK_PERCENT : float;
  STOP_LOSS_PERCENT : float;
  TAKE_PROFIT_PERCENT : float;
  (** [config.MT5_ACCOUNT] when the optional [config] module exists *)
  MT5_ACCOUNT : option Account
}.

Definition default_config : Config :=
  {| SYMBOL := "EURUSD"; MAX_POSITIONS := 3; RISK_PERCENT := py_float 1;
     STOP_LOSS_PERCENT := py_float 0.02; TAKE_PROFIT_PERCENT := py_float 0.04;
     MT5_ACCOUNT := None |}.

(** ** The trading terminal *)

Record AccountInfo : Type := { balance : float }.
Record Tick : Type := { ask : float; bid : float }.
Record Position : Type := {
  ticket : Z; volume : float; price_open : float; profit : float
}.
(** The fields of a bar go into a frame as they are; they are kept as the
    exact values of the numbers the terminal hands out. *)
Record Bar : Type := {
  bar_time : Q; bar_open : Q; bar_high : Q; bar_low : Q; bar_close : Q;
  bar_tick_volume : Q; bar_spread : Q; bar_real_volume : Q
}.
Record OrderResult : Type := { retcode : Z; comment : string }.

Inductive OrderType : Type := ORDER_TYPE_BUY | ORDER_TYPE_SELL.

(** The two request dictionaries the program builds, by their ["action"]. *)
Inductive Request : Type :=
| TRADE_ACTION_DEAL (symbol : string) (volume : float) (type : OrderType)
    (price sl tp : float) (deviation magic : Z) (comment : string)
| TRADE_ACTION_SLTP (position : Z) (sl : float).

Inductive PositionFilter : Type :=
| BySymbol (symbol : string)
| BySymbols (symbols : list string).

Definition TRADE_RETCODE_DONE : Z := 10009.
Definition TIMEFRAME_D1 : Z := 16408.

(** The calls into the MetaTrader5 module, the clock and [time.sleep].  Each
    call may change the outside world [W].  A terminal hands out at most the
    number of bars asked for. *)
Class Terminal (W : Type) : Type := {
  mt5_initialize : option Account -> W -> W * bool;
  account_info : W -> W * option AccountInfo;
  symbol_info_tick : string -> W -> W * option Tick;
  positions_get : PositionFilter -> W -> W * option (list Position);
  copy_rates_from_pos : string -> Z -> nat -> nat -> W -> W * option (list Bar);
  order_send : Request -> W -> W * option OrderResult;
  (** [datetime.now(TIMEZONE).time()] *)
  clock_now : W -> W * dt_time;
  time_sleep : Z -> W -> W;
  copy_rates_count : forall sym tf pos count w bars,
    snd (copy_rates_from_pos sym tf pos count w) = Some bars ->
    (length bars <= count)%nat
}.

(** ** What the program does to the outside: log records, orders, sleeps *)

Inductive Level : Type := INFO | WARNING | ERROR.

Inductive Message : Type :=
| MsgInitOk                       (* MT5 initialized successfully. *)
| MsgInitRetry                    (* Failed to initialize MT5. Attempting ... *)
| MsgInitAccountFailed            (* Failed to initialize MT5 with account details. *)
| MsgInitAccountOk                (* MT5 initialized successfully with account details. *)
| MsgInitNoConfig                 (* Failed to initialize MT5 and no config file found. *)
| MsgTradeFailed (code : Z)       (* Trade execution failed. Error code: ... *)
| MsgTradeExecuted (c : string)   (* Trade executed successfully: ... *)
| MsgTradeError (e : exn)         (* Error executing trade: ... *)
| MsgNewsNotImplemented           (* News event checking not implemented. ... *)
| MsgRatesFailed (symbol : string)  (* Failed to fetch rates for ... *)
| MsgStopLossFailed (ticket code : Z) (* Failed to move stop-loss for position ... *)
| MsgStopLossMoved (ticket : Z)   (* Stop-loss moved to break-even for position ... *)
| MsgAccountInfoFailed            (* Failed to get account info *)
| MsgMainLoopError (e : exn).     (* An error occurred in the main loop: ... *)

Inductive Event : Type :=
| Log (level : Level) (msg : Message)
| Sent (request : Request)
| Slept (seconds : Z).

Record St (W : Type) : Type := mk_st { world : W; trace : list Event }.
Arguments mk_st {W} world trace.
Arguments world {W} s.
Arguments trace {W} s.

(** ** Small Python helpers *)

Definition upper (a : ascii) : ascii :=
  let n := nat_of_ascii a in
  if ((97 <=? n) && (n <=? 122))%nat then ascii_of_nat (n - 32) else a.

Definition lower (a : ascii) : ascii :=
  let n := nat_of_ascii a in
  if ((65 <=? n) && (n <=? 90))%nat then ascii_of_nat (n + 32) else a.

Fixpoint string_map (f : ascii -> ascii) (s : string) : string :=
  match s with
  | EmptyString => EmptyString
  | String a r => String (f a) (string_map f r)
  end.

(** [str.capitalize()], on the ASCII strings the program applies it to. *)
Definition capitalize (s : string) : string :=
  match s with
  | EmptyString => EmptyString
  | String a r => String (upper a) (string_map lower r)
  end.

(** Truth value of [signal] in [if signal and ...]. *)
Definition truthy (signal : option string) : bool :=
  match signal with
  | Some EmptyString => false
  | Some (String _ _) => true
  | None => false
  end.

(** [x / y] on floats: a zero divisor, of either sign, raises. *)
Definition py_div (x y : float) : result float :=
  if feqb y (py_float 0) then Raise ZeroDivisionError else Ok (fdiv x y).

(** [pd.DataFrame(rates)]: one column per field of the bars. *)
Definition frame_of_bars (rates : list Bar) : DataFrame :=
  <["time" := map bar_time rates]>
  (<["open" := map bar_open rates]>
  (<["high" := map bar_high rates]>
  (<["low" := map bar_low rates]>
  (<["close" := map bar_close rates]>
  (<["tick_volume" := map bar_tick_volume rates]>
  (<["spread" := map bar_spread rates]>
  (<["real_volume" := map bar_real_volume rates]> ∅))))))).

(** [try: m except Exception as e: h e] *)
Definition try_except {S A} (m : M S A) (h : exn -> M S A) : M S A :=
  fun s => match m s with
           | (s', Raise e) => h e s'
           | r => r
           end.

(** Running a computation on a frame of its own; the frame is dropped. *)
Definition on_frame {S A} (df : DataFrame) (m : M DataFrame A) : M S A :=
  fun s => (s, snd (m df)).

(** ** The program over a terminal *)

(** How one pass through the body of [while True] ends inside [try]. *)
Inductive Flow : Type := FallThrough | Continue.

Section Bot.

Context {W : Type} `{Terminal W}.
Variable cfg : Config.

Definition call {A} (f : W -> W * A) : M (St W) A :=
  fun s => let (w, a) := f (world s) in (mk_st w (trace s), Ok a).

Definition emit (e : Event) : M (St W) unit :=
  modify (fun s => mk_st (world s) (trace s ++ [e])).

Definition log (level : Level) (msg : Message) : M (St W) unit :=
  emit (Log level msg).

Definition sleep (seconds : Z) : M (St W) unit :=
  (call (fun w => (time_sleep seconds w, tt)) ;;; emit (Slept seconds))%py.

(** [mt5.order_send(request)] *)
Definition send (request : Request) : M (St W) (option OrderResult) :=
  (emit (Sent request) ;;; call (order_send request))%py.

(** [initialize_mt5()] *)
Definition initialize_mt5 : M (St W) bool :=
  (ok <- call (mt5_initialize None) ;;
   if negb ok then
     log WARNING MsgInitRetry ;;;
     match MT5_ACCOUNT cfg with
     | Some acct =>
         ok' <- call (mt5_initialize (Some acct)) ;;
         if negb ok' then log ERROR MsgInitAccountFailed ;;; ret false
         else log INFO MsgInitAccountOk ;;; ret true
     | None => log ERROR MsgInitNoConfig ;;; ret false
     end
   else log INFO MsgInitOk ;;; ret true)%py.

(** [trade(symbol, direction, account_balance)] *)
Definition trade (symbol direction : string) (account_balance : float)
  : M (St W) (option OrderResult) :=
  try_except
    (let lot_size := calculate_position_size account_balance (RISK_PERCENT cfg) in
     tick <- call (symbol_info_tick symbol) ;;
     price <- match tick with
              | Some t => ret (if String.eqb direction "buy" then ask t else bid t)
              | None => raise AttributeError
              end ;;
     let (sl, tp) :=
       set_stop_loss_and_take_profit price direction
         (STOP_LOSS_PERCENT cfg) (TAKE_PROFIT_PERCENT cfg) in
     let request :=
       TRADE_ACTION_DEAL symbol lot_size
         (if String.eqb direction "buy" then ORDER_TYPE_BUY else ORDER_TYPE_SELL)
         price sl tp 10 123456 ("EMA " +:+ capitalize direction) in
     result <- send request ;;
     match result with
     | None => raise AttributeError
     | Some r =>
         if negb (retcode r =? TRADE_RETCODE_DONE)%Z then
           log ERROR (MsgTradeFailed (retcode r)) ;;; ret None
         else
           log INFO (MsgTradeExecuted (comment r)) ;;; ret (Some r)
     end)%py
    (fun e => (log ERROR (MsgTradeError e) ;;; ret None)%py).

(** [max_open_positions(symbols, max_trades)] *)
Definition max_open_positions (symbols : list string) (max_trades : Z)
  : M (St W) bool :=
  (positions <- call (positions_get (BySymbols symbols)) ;;
   match positions with
   | None => raise TypeError
   | Some ps => ret (Z.of_nat (length ps) <? max_trades)%Z
   end)%py.

(** [is_within_trading_hours()] *)
Definition is_within_trading_hours : M (St W) bool :=
  (now <- call clock_now ;;
   let start := mk_time 8 0 0 0 in
   let end_ := mk_time 12 0 0 0 in
   ret (time_le start now && time_le now end_))%py.

(** [check_major_news_events()] *)
Definition check_major_news_events : M (St W) bool :=
  (log WARNING MsgNewsNotImplemented ;;; ret true)%py.

(** [get_rates(symbol, timeframe, number_of_data)]; the [time] column stays
    in seconds since the epoch. *)
Definition get_rates (symbol : string) (timeframe : Z) (number_of_data : nat)
  : M (St W) (option DataFrame) :=
  (rates <- call (copy_rates_from_pos symbol timeframe 0 number_of_data) ;;
   match rates with
   | None | Some [] => log ERROR (MsgRatesFailed symbol) ;;; ret None
   | Some bars => ret (Some (frame_of_bars bars))
   end)%py.

(** [adjust_stop_loss(position)] *)
Definition adjust_stop_loss (position : Position) : M (St W) unit :=
  (per_unit <- lift (py_div (profit position) (volume position)) ;;
   if fleb (fmul (price_open position) (py_float 0.02)) per_unit then
     let request := TRADE_ACTION_SLTP (ticket position) (price_open position) in
     result <- send request ;;
     match result with
     | None => raise AttributeError
     | Some r =>
         if negb (retcode r =? TRADE_RETCODE_DONE)%Z then
           log ERROR (MsgStopLossFailed (ticket position) (retcode r))
         else
           log INFO (MsgStopLossMoved (ticket position))
     end
   else ret tt)%py.

Fixpoint for_each {A} (f : A -> M (St W) unit) (l : list A) : M (St W) unit :=
  match l with
  | [] => ret tt
  | x :: r => (f x ;;; for_each f r)%py
  end.

(** The body of [if is_within_trading_hours():]. *)
Definition trading_block : M (St W) Flow :=
  (info <- call account_info ;;
   match info with
   | None => log ERROR MsgAccountInfoFailed ;;; ret Continue
   | Some info =>
       let account_balance := balance info in
       news <- check_major_news_events ;;
       (if news then
          rates_df <- get_rates (SYMBOL cfg) TIMEFRAME_D1 200 ;;
          match rates_df with
          | Some df =>
              signal <- on_frame df get_signals ;;
              if truthy signal then
                free <- max_open_positions [SYMBOL cfg] (MAX_POSITIONS cfg) ;;
                if free then
                  trade (SYMBOL cfg) (default EmptyString signal) account_balance ;;;
                  ret tt
                else ret tt
              else ret tt
          | None => ret tt
          end
        else ret tt) ;;;
       positions <- call (positions_get (BySymbol (SYMBOL cfg))) ;;
       match positions with
       | None => raise TypeError
       | Some ps => for_each adjust_stop_loss ps
       end ;;;
       ret FallThrough
   end)%py.

(** The [try] block of one pass: [continue] skips the four-hour sleep. *)
Definition try_block : M (St W) unit :=
  (within <- is_within_trading_hours ;;
   flow <- (if within then trading_block else ret FallThrough) ;;
   match flow with
   | Continue => ret tt
   | FallThrough => sleep (60 * 60 * 4)
   end)%py.

(** One pass through [while True]. *)
Definition cycle : M (St W) unit :=
  try_except try_block
    (fun e => (log ERROR (MsgMainLoopError e) ;;; sleep 60)%py).

(** [while True], cut off after [n] passes. *)
Fixpoint main_loop (n : nat) : M (St W) unit :=
  match n with
  | O => ret tt
  | S n' => (cycle ;;; main_loop n')%py
  end.

(** [main()], with the loop cut off after [n] passes. *)
Definition main (n : nat) : M (St W) unit :=
  (ok <- initialize_mt5 ;;
   if negb ok then ret tt else main_loop n)%py.

End Bot.

(** ** Vocabulary of the properties of price series and traces *)

(** A price series that never falls, and one that never rises. *)
Fixpoint nondecreasing (c : list Q) : bool :=
  match c with
  | x :: r => match r with
              | y :: _ => Qle_bool x y && nondecreasing r
              | [] => true
              end
  | [] => true
  end.

Fixpoint nonincreasing (c : list Q) : bool :=
  match c with
  | x :: r => match r with
              | y :: _ => Qle_bool y x && nonincreasing r
              | [] => true
              end
  | [] => true
  end.

(** Bar [k] is a crossover bar: the fast average is strictly on one side of
    the slow one at [k] and was not at [k-1]. *)
Definition crossed_above (c : list Q) (k : nat) : Prop :=
  (1 <= k < length c)%nat /\ slow c k < fast c k /\ fast c (k - 1) <= slow c (k - 1).

Definition crossed_below (c : list Q) (k : nat) : Prop :=
  (1 <= k < length c)%nat /\ fast c k < slow c k /\ slow c (k - 1) <= fast c (k - 1).

(** The orders sent to the terminal, in order. *)
Fixpoint requests_of (tr : list Event) : list Request :=
  match tr with
  | [] => []
  | Sent r :: rest => r :: requests_of rest
  | _ :: rest => requests_of rest
  end.

(** ** A scripted terminal

    The answers of the terminal are fixed in advance; [sim_history] holds
    the bars in chronological order and [copy_rates_from_pos] hands out the
    most recent ones.  Sleeping moves nothing. *)
Module Sim.

Record World : Type := {
  sim_init : bool;
  sim_account : option AccountInfo;
  sim_tick : option Tick;
  sim_positions : option (list Position);
  sim_history : option (list Bar);
  sim_answer : option OrderResult;
  sim_now : dt_time
}.

(** The [count] bars that end [pos] bars before the newest one. *)
Definition recent (pos count : nat) (h : list Bar) : list Bar :=
  let upto := take (length h - pos) h in
  drop (length upto - count) upto.

#[global] Instance terminal : Terminal World.
Proof.
  refine {|
    mt5_initialize := fun _ w => (w, sim_init w);
    account_info := fun w => (w, sim_account w);
    symbol_info_tick := fun _ w => (w, sim_tick w);
    positions_get := fun _ w => (w, sim_positions w);
    copy_rates_from_pos := fun _ _ pos count w =>
      (w, option_map (recent pos count) (sim_history w));
    order_send := fun _ w => (w, sim_answer w);
    clock_now := fun w => (w, sim_now w);
    time_sleep := fun _ w => w
  |}.
  intros sym tf pos count w bars. cbn [snd].
  destruct (sim_history w) as [h|]; cbn [option_map]; [|discriminate].
  intros [= <-]. unfold recent. rewrite length_drop. lia.
Defined.

(** A bar of which only the closing price matters. *)
Definition bar (close : Q) : Bar :=
  {| bar_time := 0; bar_open := close; bar_high := close; bar_low := close;
     bar_close := close; bar_tick_volume := 0; bar_spread := 0;
     bar_real_volume := 0 |}.

Definition quiet (now : dt_time) : World :=
  {| sim_init := true; sim_account := None; sim_tick := None;
     sim_positions := Some []; sim_history := None; sim_answer := None;
     sim_now := now |}.

End Sim.

(** The signal as a function of the closing prices alone. *)
Definition signal_of_closes (c : list Q) : result (option string) :=
  snd (get_signals (frame_of_closes c)).

(** A program state on the scripted terminal with nothing logged yet. *)
Definition sim_state (w : Sim.World) : St Sim.World := mk_st w [].

(** A terminal holding [n] daily bars that all closed at 1. *)
Definition flat_history (n : nat) : Sim.World :=
  {| Sim.sim_init := true; Sim.sim_account := None; Sim.sim_tick := None;
     Sim.sim_positions := Some [];
     Sim.sim_history := Some (repeat (Sim.bar 1) n);
     Sim.sim_answer := None; Sim.sim_now := mk_time 9 0 0 0 |}.
(** ** Vocabulary of the further properties *)

(** An order that opens a position, as opposed to a stop-loss change. *)
Definition is_deal (e : Event) : bool :=
  match e with
  | Sent (TRADE_ACTION_DEAL _ _ _ _ _ _ _ _ _) => true
  | _ => false
  end.

(** The break-even test of [adjust_stop_loss], as it is evaluated, and the
    request it leads to. *)
Definition break_even_due (p : Position) : bool :=
  fleb (fmul (price_open p) (py_float 0.02)) (fdiv (profit p) (volume p)).

Definition break_even_request (p : Position) : Request :=
  TRADE_ACTION_SLTP (ticket p) (price_open p).

(** The world after the terminal has received the requests, in order. *)
Definition after_orders {W : Type} `{Terminal W} (reqs : list Request) (w : W) : W :=
  fold_left (fun w r => fst (order_send r w)) reqs w.

(** [adds p k Q m]: from every state, [m] only appends to the trace, the
    appended events that satisfy [p] number at most [k], and a value that
    [m] returns satisfies [Q]. *)
Definition adds {W A : Type} (p : Event -> bool) (k : nat) (Q : A -> Prop)
    (m : M (St W) A) : Prop :=
  forall s, exists evs,
    trace (fst (m s)) = trace s ++ evs
    /\ (length (List.filter p evs) <= k)%nat
    /\ forall a, snd (m s) = Ok a -> Q a.

(** ** A terminal with fixed answers

    Its world has no state: the clock stands at 09:00, the account holds
    10000, two bars are on record, three positions are open and every order
    is answered as done. *)
Module Desk.

Definition book : list Position :=
  [ {| ticket := 1; volume := py_float 1; price_open := py_float 100;
       profit := py_float 2 |};
    {| ticket := 2; volume := py_float 1; price_open := py_float 100;
       profit := py_float 1 |};
    {| ticket := 3; volume := py_float 2; price_open := py_float 50;
       profit := py_float 3 |} ].

Definition quote : Tick := {| ask := py_float 1.1; bid := py_float 1 |}.

#[global] Instance terminal : Terminal unit.
Proof.
  refine {|
    mt5_initialize := fun _ w => (w, true);
    account_info := fun w => (w, Some {| balance := py_float 10000 |});
    symbol_info_tick := fun _ w => (w, Some quote);
    positions_get := fun _ w => (w, Some book);
    copy_rates_from_pos := fun _ _ _ count w =>
      (w, Some (take count [Sim.bar 1; Sim.bar 2]));
    order_send := fun _ w =>
      (w, Some {| retcode := TRADE_RETCODE_DONE; comment := "done" |});
    clock_now := fun w => (w, mk_time 9 0 0 0);
    time_sleep := fun _ w => w
  |}.
  intros sym tf pos count w bars. cbn [snd]. intros [= <-].
  rewrite length_take. lia.
Defined.

Definition start : St unit := mk_st tt [].

End Desk.

(** The order that [trade] builds from a quote. *)
Definition deal_request (cfg : Config) (symbol direction : string)
    (account_balance : float) (t : Tick) : Request :=
  let price := if String.eqb direction "buy" then ask t else bid t in
  let levels := set_stop_loss_and_take_profit price direction
                  (STOP_LOSS_PERCENT cfg) (TAKE_PROFIT_PERCENT cfg) in
  TRADE_ACTION_DEAL symbol
    (calculate_position_size account_balance (RISK_PERCENT cfg))
    (if String.eqb direction "buy" then ORDER_TYPE_BUY else ORDER_TYPE_SELL)
    price (fst levels) (snd levels) 10 123456 ("EMA " +:+ capitalize direction).

(** ** The calculator on binary64 averages

    The exponentially weighted mean above is exact.  pandas computes it in
    binary64 and rounds every operation.  The definitions below transcribe
    the same kernel and the same test of [get_signals] with every operation
    rounded, on a column of floats without missing values; only the signal
    is kept, not the frame. *)
Module B64.

Definition iloc (s : list float) (i : Z) : result float :=
  let n := Z.of_nat (length s) in
  let j := (if i <? 0 then n + i else i)%Z in
  if ((j <? 0) || (n <=? j))%Z then Raise IndexError
  else match s !! Z.to_nat j with
       | Some x => Ok x
       | None => Raise IndexError
       end.

Fixpoint ewm_loop (alpha weighted old_wt : float) (vals : list float)
  : list float :=
  match vals with
  | [] => []
  | cur :: rest =>
      let old_wt_factor := fsub (py_float 1) alpha in
      let new_wt := alpha in
      let old_wt' := fmul old_wt old_wt_factor in
      let weighted' :=
        if feqb weighted cur then weighted
        else fdiv (fadd (fmul old_wt' weighted) (fmul new_wt cur))
                  (fadd old_wt' new_wt) in
      weighted' :: ewm_loop alpha weighted' (py_float 1) rest
  end.

Definition ewm (com : float) (vals : list float) : list float :=
  let alpha := fdiv (py_float 1) (fadd (py_float 1) com) in
  match vals with
  | [] => []
  | x :: rest => x :: ewm_loop alpha x (py_float 1) rest
  end.

(** [calculate_ema] on the closing prices, for a window of at least 1. *)
Definition calculate_ema (close : list float) (window : Z) : list float :=
  ewm (fdiv (fsub (float_of_Z window) (py_float 1)) (py_float 2)) close.

(** The signal of [get_signals] on the closing prices. *)
Definition get_signals (close : list float) : result (option string) :=
  let fast := calculate_ema close 50 in
  let slow := calculate_ema close 200 in
  snd ((f1 <- lift (iloc fast (-1)) ;;
        s1 <- lift (iloc slow (-1)) ;;
        let elif_sell :=
          (if fltb f1 s1 then
             f2 <- lift (iloc fast (-2)) ;;
             s2 <- lift (iloc slow (-2)) ;;
             if fleb s2 f2 then ret (Some "sell") else ret None
           else ret None) in
        if fltb s1 f1 then
          f2 <- lift (iloc fast (-2)) ;;
          s2 <- lift (iloc slow (-2)) ;;
          if fleb f2 s2 then ret (Some "buy") else elif_sell
        else elif_sell)%py tt).

(** The calculator evaluated on the bars up to and including bar [t]. *)
Definition signal_at (close : list float) (t : nat) : result (option string) :=
  get_signals (take (S t) close).

Fixpoint nondecreasing (c : list float) : bool :=
  match c with
  | x :: r => match r with
              | y :: _ => fleb x y && nondecreasing r
              | [] => true
              end
  | [] => true
  end.

Fixpoint increasing (c : list float) : bool :=
  match c with
  | x :: r => match r with
              | y :: _ => fltb x y && increasing r
              | [] => true
              end
  | [] => true
  end.

(** A float given by its integer significand and binary exponent. *)
Definition finite (m : positive) (e : Z) : float :=
  SpecFloat.S754_finite false m e.

End B64.

(** ** Vocabulary of rounding

    The definitions the facts about binary64 rounding are stated with. *)
Module Round.

Local Open Scope Z_scope.

(** The number of binary digits of a significand. *)
Definition digits (m : positive) : Z := Zpos (SpecFloat.digits2_pos m).

(** The exponent of the binary64 numbers of a given magnitude. *)
Definition fexp (e : Z) : Z := Z.max (e - 53) (-1074).

(** The record left by shifting [m] right by [n > 0] bits. *)
Definition shifted (m n : Z) : SpecFloat.shr_record :=
  SpecFloat.Build_shr_record (m / 2 ^ n) (Z.testbit m (n - 1))
    (negb (m mod 2 ^ (n - 1) =? 0)).

(** The significand [m / 2 ^ n] rounded to nearest, ties to even. *)
Definition rne (m n : Z) : Z :=
  SpecFloat.round_nearest_even (SpecFloat.shr_m (shifted m n))
    (SpecFloat.loc_of_shr_record (shifted m n)).

(** The float made of a rounded significand and its exponent: a significand
    that reached [2 ^ 53] moves to the next exponent, an exponent above 971
    overflows. *)
Definition pack (s : bool) (m1 e1 : Z) : float :=
  match m1 with
  | Zpos p =>
      if m1 <? 2 ^ 53 then
        if e1 <=? 971 then SpecFloat.S754_finite s p e1
        else SpecFloat.S754_infinity s
      else
        if e1 + 1 <=? 971
        then SpecFloat.S754_finite s 4503599627370496 (e1 + 1)
        else SpecFloat.S754_infinity s
  | _ => SpecFloat.S754_zero s
  end.

(** A significand with the exponent of its magnitude, and one of a binary64
    number. *)
Definition aligned (m : positive) (e : Z) : Prop := fexp (digits m + e) = e.

Definition canonical (m : positive) (e : Z) : Prop :=
  aligned m e /\ e <= 971.

(** A zero, an infinity or a binary64 number of sign [s]. *)
Definition signed (s : bool) (x : float) : Prop :=
  match x with
  | SpecFloat.S754_zero s' | SpecFloat.S754_infinity s' => s' = s
  | SpecFloat.S754_finite s' m e => s' = s /\ canonical m e
  | SpecFloat.S754_nan => False
  end.

(** A float that is at most the binary64 number [mw * 2 ^ ew]: a zero,
    anything negative, or a positive binary64 number not above it. *)
Definition at_most (mw : positive) (ew : Z) (x : float) : Prop :=
  match x with
  | SpecFloat.S754_zero _ => True
  | SpecFloat.S754_infinity s => s = true
  | SpecFloat.S754_finite true m e => canonical m e
  | SpecFloat.S754_finite false m e =>
      canonical m e /\ (e < ew \/ (e = ew /\ Zpos m <= Zpos mw))
  | SpecFloat.S754_nan => False
  end.

(** A float that is at least the positive number [mw * 2 ^ ew]. *)
Definition at_least (mw : positive) (ew : Z) (x : float) : Prop :=
  match x with
  | SpecFloat.S754_infinity false => True
  | SpecFloat.S754_finite false m e =>
      canonical m e /\ (ew < e \/ (ew = e /\ Zpos mw <= Zpos m))
  | _ => False
  end.

End Round.
(** * Comparisons on numbers *)

Lemma Qltb_iff (x y : Q) : Qltb x y = true <-> x < y.
Proof.
  unfold Qltb. rewrite negb_true_iff, <- not_true_iff_false, Qle_bool_iff.
  split; intros H; [apply Qnot_le_lt | apply Qlt_not_le]; exact H.
Qed.

Lemma Qltb_false_iff (x y : Q) : Qltb x y = false <-> y <= x.
Proof.
  unfold Qltb. rewrite negb_false_iff. apply Qle_bool_iff.
Qed.

Lemma Qle_bool_false_iff (x y : Q) : Qle_bool x y = false <-> y < x.
Proof.
  rewrite <- not_true_iff_false, Qle_bool_iff.
  split; intros H; [apply Qnot_le_lt | apply Qlt_not_le]; exact H.
Qed.

#[export] Instance Qltb_comp : Proper (Qeq ==> Qeq ==> eq) Qltb.
Proof. intros x x' Hx y y' Hy. unfold Qltb. now rewrite Hx, Hy. Qed.

Example get_signals_two_bars :
  snd (get_signals (frame_of_closes [1; 2])) = Ok (Some "buy").
Proof. vm_compute. reflexivity. Qed.

(** * Facts about the exponentially weighted mean *)

Section EwmFacts.

Lemma ema_spec_shift (a x c : Q) (r : list Q) (t : nat) :
  ema_spec a (x :: c :: r) (S t) == ema_spec a ((a * c + (1 - a) * x) :: r) t.
Proof.
  induction t as [|t IH].
  - simpl. reflexivity.
  - change (ema_spec a (x :: c :: r) (S (S t)))
      with (a * nth (S (S t)) (x :: c :: r) 0
            + (1 - a) * ema_spec a (x :: c :: r) (S t)).
    rewrite IH. simpl. reflexivity.
Qed.

Lemma ewm_step_eq (alpha a w x cur : Q) :
  alpha == a -> w == x ->
  (if Qeq_bool w cur then w
   else (1 * (1 - alpha) * w + alpha * cur) / (1 * (1 - alpha) + alpha))
  == a * cur + (1 - a) * x.
Proof.
  intros Ha Hw. destruct (Qeq_bool w cur) eqn:E.
  - apply Qeq_bool_eq in E. rewrite <- Hw, <- E. ring.
  - rewrite Ha, Hw. field. intros H. ring_simplify in H. discriminate H.
Qed.

Lemma ewm_loop_length (alpha w o : Q) (vals : list Q) :
  length (Pandas.ewm_loop alpha w o vals) = length vals.
Proof.
  revert w o. induction vals as [|c r IH]; intros w o; simpl; [reflexivity|].
  now rewrite IH.
Qed.

Lemma ewm_loop_spec (vals : list Q) :
  forall (alpha a w x : Q) (t : nat),
    alpha == a -> w == x -> (t < length vals)%nat ->
    nth t (Pandas.ewm_loop alpha w 1 vals) 0 == ema_spec a (x :: vals) (S t).
Proof.
  induction vals as [|c r IH]; intros alpha a w x t Ha Hw Ht; simpl in Ht; [lia|].
  destruct t as [|t].
  - simpl. apply ewm_step_eq; assumption.
  - rewrite ema_spec_shift.
    change (Pandas.ewm_loop alpha w 1 (c :: r)) with
      (let w' := if Qeq_bool w c then w
                 else (1 * (1 - alpha) * w + alpha * c) / (1 * (1 - alpha) + alpha) in
       w' :: Pandas.ewm_loop alpha w' 1 r).
    cbv zeta. cbn [nth].
    apply IH; [assumption | apply ewm_step_eq; assumption | lia].
Qed.

Lemma ewm_length (com : Q) (c : list Q) : length (Pandas.ewm com c) = length c.
Proof.
  destruct c as [|x r]; simpl; [reflexivity|]. now rewrite ewm_loop_length.
Qed.

Lemma com_alpha (w : Z) :
  (1 <= w)%Z -> 1 / (1 + (inject_Z w - 1) / 2) == smoothing w.
Proof.
  intros Hw. unfold smoothing.
  assert (H : 0 < inject_Z w + 1).
  { assert (H1 : inject_Z 1 <= inject_Z w) by (rewrite <- Zle_Qle; exact Hw).
    change (inject_Z 1) with 1 in H1. lra. }
  field. lra.
Qed.

Lemma ewm_spec (w : Z) (c : list Q) (t : nat) :
  (1 <= w)%Z -> (t < length c)%nat ->
  nth t (Pandas.ewm ((inject_Z w - 1) / 2) c) 0 == ema_spec (smoothing w) c t.
Proof.
  intros Hw Ht. destruct c as [|x r]; simpl in Ht; [lia|].
  destruct t as [|t].
  - simpl. reflexivity.
  - unfold Pandas.ewm. cbn [nth].
    apply ewm_loop_spec; [apply com_alpha; exact Hw | reflexivity | lia].
Qed.

(** What [calculate_ema] returns on a frame with a [close] column. *)
Lemma calculate_ema_eval (df : DataFrame) (c : list Q) (w : Z) :
  df !! "close" = Some c -> (1 <= w)%Z ->
  calculate_ema df w = Ok (Pandas.ewm ((inject_Z w - 1) / 2) c).
Proof.
  intros Hc Hw. unfold calculate_ema, Pandas.getitem, Pandas.ewm_mean,
    Pandas.get_center_of_mass.
  rewrite Hc. destruct (Z.ltb_spec w 1); [lia | reflexivity].
Qed.

End EwmFacts.

(** * Evaluating the signal calculator *)

Section SignalEval.

Lemma iloc_last (s : Series) :
  (1 <= length s)%nat -> Pandas.iloc s (-1) = Ok (nth (length s - 1) s 0).
Proof.
  intros Hn. unfold Pandas.iloc. cbv zeta.
  change (-1 <? 0)%Z with true. cbv iota.
  destruct (Z.ltb_spec (Z.of_nat (length s) + -1) 0); [lia|].
  destruct (Z.leb_spec (Z.of_nat (length s)) (Z.of_nat (length s) + -1)); [lia|].
  cbn [orb].
  replace (Z.to_nat (Z.of_nat (length s) + -1)) with (length s - 1)%nat by lia.
  rewrite (nth_lookup s (length s - 1) 0).
  destruct (lookup_lt_is_Some_2 s (length s - 1)%nat) as [x Hx]; [lia|].
  now rewrite Hx.
Qed.

Lemma iloc_prev (s : Series) :
  (2 <= length s)%nat -> Pandas.iloc s (-2) = Ok (nth (length s - 2) s 0).
Proof.
  intros Hn. unfold Pandas.iloc. cbv zeta.
  change (-2 <? 0)%Z with true. cbv iota.
  destruct (Z.ltb_spec (Z.of_nat (length s) + -2) 0); [lia|].
  destruct (Z.leb_spec (Z.of_nat (length s)) (Z.of_nat (length s) + -2)); [lia|].
  cbn [orb].
  replace (Z.to_nat (Z.of_nat (length s) + -2)) with (length s - 2)%nat by lia.
  rewrite (nth_lookup s (length s - 2) 0).
  destruct (lookup_lt_is_Some_2 s (length s - 2)%nat) as [x Hx]; [lia|].
  now rewrite Hx.
Qed.

Lemma iloc_empty (i : Z) : Pandas.iloc [] i = Raise IndexError.
Proof.
  unfold Pandas.iloc. cbv zeta. simpl length.
  destruct (i <? 0)%Z eqn:Ei.
  - apply Z.ltb_lt in Ei.
    destruct (Z.ltb_spec (Z.of_nat 0 + i) 0); [reflexivity | lia].
  - apply Z.ltb_ge in Ei.
    destruct (Z.ltb_spec i 0); [reflexivity|].
    destruct (Z.leb_spec (Z.of_nat 0) i); [reflexivity | lia].
Qed.

Variable df : DataFrame.
Variable c : list Q.
Hypothesis Hclose : df !! "close" = Some c.

Let e50 := Pandas.ewm ((inject_Z 50 - 1) / 2) c.
Let e200 := Pandas.ewm ((inject_Z 200 - 1) / 2) c.

(** The state and the reads of [get_signals] up to the comparison. *)
Lemma get_signals_unfold :
  get_signals df =
  (let fast := e50 in
   let slow := e200 in
   f1 <- lift (Pandas.iloc fast (-1)) ;;
   s1 <- lift (Pandas.iloc slow (-1)) ;;
   let elif_sell :=
     (f1 <- lift (Pandas.iloc fast (-1)) ;;
      s1 <- lift (Pandas.iloc slow (-1)) ;;
      if Qltb f1 s1 then
        f2 <- lift (Pandas.iloc fast (-2)) ;;
        s2 <- lift (Pandas.iloc slow (-2)) ;;
        if Qle_bool s2 f2 then ret (Some "sell") else ret None
      else ret None) in
   if Qltb s1 f1 then
     f2 <- lift (Pandas.iloc fast (-2)) ;;
     s2 <- lift (Pandas.iloc slow (-2)) ;;
     if Qle_bool f2 s2 then ret (Some "buy") else elif_sell
   else elif_sell)%py (with_emas df c).
Proof.
  unfold get_signals.
  unfold bind at 1. unfold get at 1.
  unfold bind at 1. unfold lift at 1.
  rewrite (calculate_ema_eval df c 50 Hclose) by lia.
  unfold bind at 1. unfold Pandas.setitem at 1, modify.
  unfold bind at 1. unfold get at 1.
  unfold bind at 1. unfold lift at 1.
  rewrite (calculate_ema_eval (<["ema_50" := e50]> df) c 200);
    [| rewrite lookup_insert_ne by discriminate; exact Hclose | lia].
  unfold bind at 1. unfold Pandas.setitem at 1, modify.
  unfold bind at 1. unfold get at 1.
  unfold bind at 1. unfold lift at 1. unfold Pandas.getitem at 1.
  rewrite lookup_insert_ne by discriminate. rewrite lookup_insert_eq.
  unfold bind at 1. unfold lift at 1. unfold Pandas.getitem at 1.
  rewrite lookup_insert_eq.
  reflexivity.
Qed.

End SignalEval.

#[export] Instance crossover_comp :
  Proper (Qeq ==> Qeq ==> Qeq ==> Qeq ==> eq) crossover.
Proof.
  intros f1 f1' Hf1 s1 s1' Hs1 f2 f2' Hf2 s2 s2' Hs2. unfold crossover.
  rewrite (Qltb_comp _ _ Hs1 _ _ Hf1), (Qltb_comp _ _ Hf1 _ _ Hs1).
  rewrite (Qleb_comp _ _ Hf2 _ _ Hs2), (Qleb_comp _ _ Hs2 _ _ Hf2).
  reflexivity.
Qed.

Section SignalByLength.

Variable df : DataFrame.
Variable c : list Q.
Hypothesis Hclose : df !! "close" = Some c.

(** With two bars or more, the signal is the crossover test on the
    recurrence's values at the last two bars. *)
Lemma get_signals_bars :
  (2 <= length c)%nat ->
  get_signals df =
  (with_emas df c,
   Ok (crossover (fast c (length c - 1)) (slow c (length c - 1))
                 (fast c (length c - 2)) (slow c (length c - 2)))).
Proof.
  intros Hn. rewrite (get_signals_unfold df c Hclose). cbv zeta.
  unfold bind, lift.
  rewrite !iloc_last by (rewrite ewm_length; lia).
  rewrite !iloc_prev by (rewrite ewm_length; lia).
  rewrite !ewm_length.
  set (f1 := nth (length c - 1) (Pandas.ewm ((inject_Z 50 - 1) / 2) c) 0).
  set (s1 := nth (length c - 1) (Pandas.ewm ((inject_Z 200 - 1) / 2) c) 0).
  set (f2 := nth (length c - 2) (Pandas.ewm ((inject_Z 50 - 1) / 2) c) 0).
  set (s2 := nth (length c - 2) (Pandas.ewm ((inject_Z 200 - 1) / 2) c) 0).
  assert (E : crossover (fast c (length c - 1)) (slow c (length c - 1))
                        (fast c (length c - 2)) (slow c (length c - 2))
              = crossover f1 s1 f2 s2).
  { unfold fast, slow, f1, s1, f2, s2.
    rewrite <- !ewm_spec by lia. reflexivity. }
  rewrite E. unfold crossover, ret.
  destruct (Qltb s1 f1) eqn:E1; destruct (Qltb f1 s1) eqn:E2;
    destruct (Qle_bool f2 s2) eqn:E3; destruct (Qle_bool s2 f2) eqn:E4;
    reflexivity.
Qed.

(** With a single bar both averages are that bar, neither strict test
    holds, and the bar before is never read. *)
Lemma get_signals_one_bar :
  length c = 1%nat -> get_signals df = (with_emas df c, Ok None).
Proof.
  intros Hn. rewrite (get_signals_unfold df c Hclose). cbv zeta.
  destruct c as [|x [|y r]]; simpl in Hn; try lia.
  unfold bind, lift, Pandas.ewm, Pandas.ewm_loop.
  rewrite !iloc_last by (simpl; lia).
  change (nth (length [x] - 1) [x] 0) with x.
  assert (E : Qltb x x = false) by (apply Qltb_false_iff; apply Qle_refl).
  rewrite E. reflexivity.
Qed.

(** With no bar at all the read of the last bar fails. *)
Lemma get_signals_no_bar :
  c = [] -> get_signals df = (with_emas df c, Raise IndexError).
Proof.
  intros Hn. rewrite (get_signals_unfold df c Hclose). cbv zeta. subst c.
  unfold bind, lift, Pandas.ewm. now rewrite iloc_empty.
Qed.

End SignalByLength.

(** * Monotone price series *)

Section Monotone.

Lemma ema_spec_S (a : Q) (c : list Q) (t : nat) :
  ema_spec a c (S t) = a * nth (S t) c 0 + (1 - a) * ema_spec a c t.
Proof. reflexivity. Qed.

Lemma fast_S (c : list Q) (t : nat) :
  fast c (S t) == (2 # 51) * nth (S t) c 0 + (49 # 51) * fast c t.
Proof.
  unfold fast. rewrite ema_spec_S.
  set (e := ema_spec (smoothing 50) c t).
  assert (E : smoothing 50 == 2 # 51) by (vm_compute; reflexivity).
  rewrite E. ring.
Qed.

Lemma slow_S (c : list Q) (t : nat) :
  slow c (S t) == (2 # 201) * nth (S t) c 0 + (199 # 201) * slow c t.
Proof.
  unfold slow. rewrite ema_spec_S.
  set (e := ema_spec (smoothing 200) c t).
  assert (E : smoothing 200 == 2 # 201) by (vm_compute; reflexivity).
  rewrite E. ring.
Qed.

Lemma nondecreasing_nth (c : list Q) :
  nondecreasing c = true ->
  forall i, (S i < length c)%nat -> nth i c 0 <= nth (S i) c 0.
Proof.
  induction c as [|x r IH]; intros Hm i Hi; simpl in Hi; [lia|].
  destruct r as [|y r']; simpl in Hi; [lia|].
  simpl in Hm. apply andb_prop in Hm as [Hxy Hr].
  destruct i as [|i].
  - simpl. now apply Qle_bool_iff.
  - change (nth i (y :: r') 0 <= nth (S i) (y :: r') 0).
    apply IH; [exact Hr | simpl; lia].
Qed.

Lemma nonincreasing_nth (c : list Q) :
  nonincreasing c = true ->
  forall i, (S i < length c)%nat -> nth (S i) c 0 <= nth i c 0.
Proof.
  induction c as [|x r IH]; intros Hm i Hi; simpl in Hi; [lia|].
  destruct r as [|y r']; simpl in Hi; [lia|].
  simpl in Hm. apply andb_prop in Hm as [Hxy Hr].
  destruct i as [|i].
  - simpl. now apply Qle_bool_iff.
  - change (nth (S i) (y :: r') 0 <= nth i (y :: r') 0).
    apply IH; [exact Hr | simpl; lia].
Qed.

(** On a series that never falls the fast average stays between the slow
    average and the price. *)
Lemma rising_order (c : list Q) :
  nondecreasing c = true ->
  forall t, (t < length c)%nat -> slow c t <= fast c t /\ fast c t <= nth t c 0.
Proof.
  intros Hm. induction t as [|t IH]; intros Ht.
  - unfold slow, fast. simpl. split; apply Qle_refl.
  - destruct IH as [IH1 IH2]; [lia|].
    pose proof (nondecreasing_nth c Hm t Ht) as Hstep.
    pose proof (fast_S c t) as Ef. pose proof (slow_S c t) as Es.
    split; lra.
Qed.

Lemma falling_order (c : list Q) :
  nonincreasing c = true ->
  forall t, (t < length c)%nat -> fast c t <= slow c t /\ nth t c 0 <= fast c t.
Proof.
  intros Hm. induction t as [|t IH]; intros Ht.
  - unfold slow, fast. simpl. split; apply Qle_refl.
  - destruct IH as [IH1 IH2]; [lia|].
    pose proof (nonincreasing_nth c Hm t Ht) as Hstep.
    pose proof (fast_S c t) as Ef. pose proof (slow_S c t) as Es.
    split; lra.
Qed.

(** Once the fast average is strictly above, it stays strictly above. *)
Lemma rising_stays_above (c : list Q) (k : nat) :
  nondecreasing c = true -> slow c k < fast c k ->
  forall t, (k <= t < length c)%nat -> slow c t < fast c t.
Proof.
  intros Hm Hk. induction t as [|t IH]; intros Ht.
  - replace k with 0%nat in Hk by lia. exact Hk.
  - destruct (Nat.eq_dec k (S t)) as [->|Hne]; [exact Hk|].
    assert (IH' : slow c t < fast c t) by (apply IH; lia).
    destruct (rising_order c Hm t) as [_ H2]; [lia|].
    pose proof (nondecreasing_nth c Hm t (proj2 Ht)) as Hstep.
    pose proof (fast_S c t) as Ef. pose proof (slow_S c t) as Es.
    lra.
Qed.

Lemma falling_stays_below (c : list Q) (k : nat) :
  nonincreasing c = true -> fast c k < slow c k ->
  forall t, (k <= t < length c)%nat -> fast c t < slow c t.
Proof.
  intros Hm Hk. induction t as [|t IH]; intros Ht.
  - replace k with 0%nat in Hk by lia. exact Hk.
  - destruct (Nat.eq_dec k (S t)) as [->|Hne]; [exact Hk|].
    assert (IH' : fast c t < slow c t) by (apply IH; lia).
    destruct (falling_order c Hm t) as [_ H2]; [lia|].
    pose proof (nonincreasing_nth c Hm t (proj2 Ht)) as Hstep.
    pose proof (fast_S c t) as Ef. pose proof (slow_S c t) as Es.
    lra.
Qed.

(** The averages at bar [i] only depend on the bars up to [i]. *)
Lemma ema_spec_take (a : Q) (c : list Q) (n i : nat) :
  (i < n)%nat -> ema_spec a (take n c) i = ema_spec a c i.
Proof.
  induction i as [|i IH]; intros Hi.
  - simpl. rewrite nth_firstn. destruct (Nat.ltb_spec 0 n); [reflexivity | lia].
  - rewrite !ema_spec_S, IH by lia. rewrite nth_firstn.
    destruct (Nat.ltb_spec (S i) n); [reflexivity | lia].
Qed.

Lemma signal_at_first (c : list Q) :
  (1 <= length c)%nat -> signal_at c 0 = Ok None.
Proof.
  intros Hn. unfold signal_at.
  rewrite (get_signals_one_bar (frame_of_closes (take 1 c)) (take 1 c)).
  - reflexivity.
  - apply lookup_singleton_eq.
  - rewrite length_take. lia.
Qed.

Lemma signal_at_later (c : list Q) (t : nat) :
  (1 <= t < length c)%nat ->
  signal_at c t =
  Ok (crossover (fast c t) (slow c t) (fast c (t - 1)) (slow c (t - 1))).
Proof.
  intros Ht. unfold signal_at.
  rewrite (get_signals_bars (frame_of_closes (take (S t) c)) (take (S t) c)).
  - cbn [snd]. rewrite length_take.
    replace (S t `min` length c)%nat with (S t) by lia.
    unfold fast, slow. rewrite !ema_spec_take by lia.
    replace (S t - 1)%nat with t by lia.
    replace (S t - 2)%nat with (t - 1)%nat by lia. reflexivity.
  - apply lookup_singleton_eq.
  - rewrite length_take. lia.
Qed.

End Monotone.

(** * The signal calculator *)

Lemma crossover_buy (f1 s1 f2 s2 : Q) :
  crossover f1 s1 f2 s2 = Some "buy" <-> s1 < f1 /\ f2 <= s2.
Proof.
  unfold crossover.
  destruct (Qltb s1 f1) eqn:E1; destruct (Qle_bool f2 s2) eqn:E2; cbn [andb];
    try (apply Qltb_iff in E1); try (apply Qltb_false_iff in E1);
    try (apply Qle_bool_iff in E2); try (apply Qle_bool_false_iff in E2).
  - split; [intros _; split; assumption | reflexivity].
  - split; [|intros [_ H]; lra].
    destruct (Qltb f1 s1 && Qle_bool s2 f2); discriminate.
  - split; [|intros [H _]; lra].
    destruct (Qltb f1 s1 && Qle_bool s2 f2); discriminate.
  - split; [|intros [H _]; lra].
    destruct (Qltb f1 s1 && Qle_bool s2 f2); discriminate.
Qed.

Lemma crossover_sell (f1 s1 f2 s2 : Q) :
  crossover f1 s1 f2 s2 = Some "sell" <-> f1 < s1 /\ s2 <= f2.
Proof.
  unfold crossover.
  destruct (Qltb s1 f1 && Qle_bool f2 s2) eqn:E.
  - apply andb_prop in E as [E1 _]. apply Qltb_iff in E1.
    split; [discriminate | intros [H _]; lra].
  - destruct (Qltb f1 s1) eqn:E1; destruct (Qle_bool s2 f2) eqn:E2; cbn [andb];
      try (apply Qltb_iff in E1); try (apply Qltb_false_iff in E1);
      try (apply Qle_bool_iff in E2); try (apply Qle_bool_false_iff in E2).
    + split; [intros _; split; assumption | reflexivity].
    + split; [discriminate | intros [_ H]; lra].
    + split; [discriminate | intros [H _]; lra].
    + split; [discriminate | intros [H _]; lra].
Qed.

Lemma crossover_none (f1 s1 f2 s2 : Q) :
  crossover f1 s1 f2 s2 = None <->
  ~ (s1 < f1 /\ f2 <= s2) /\ ~ (f1 < s1 /\ s2 <= f2).
Proof.
  rewrite <- crossover_buy, <- crossover_sell.
  unfold crossover.
  destruct (Qltb s1 f1 && Qle_bool f2 s2);
    [|destruct (Qltb f1 s1 && Qle_bool s2 f2)].
  - split; [discriminate | intros [H _]; exfalso; apply H; reflexivity].
  - split; [discriminate | intros [_ H]; exfalso; apply H; reflexivity].
  - split; [intros _; split; discriminate | reflexivity].
Qed.

(** The signal, read off the columns that [get_signals] stores. *)
Lemma get_signals_columns (df : DataFrame) (c : list Q) :
  df !! "close" = Some c -> (2 <= length c)%nat ->
  get_signals df =
  (with_emas df c,
   Ok (crossover (nth (length c - 1) (Pandas.ewm ((inject_Z 50 - 1) / 2) c) 0)
                 (nth (length c - 1) (Pandas.ewm ((inject_Z 200 - 1) / 2) c) 0)
                 (nth (length c - 2) (Pandas.ewm ((inject_Z 50 - 1) / 2) c) 0)
                 (nth (length c - 2) (Pandas.ewm ((inject_Z 200 - 1) / 2) c) 0))).
Proof.
  intros Hc Hn. rewrite (get_signals_bars df c Hc Hn). f_equal. f_equal.
  unfold fast, slow. apply crossover_comp; symmetry; apply ewm_spec; lia.
Qed.

(** C1.  On a frame whose closing prices have at least two bars,
    [get_signals] stores the averages that [calculate_ema] returns for the
    windows 50 and 200 as the columns [ema_50] and [ema_200], one value per
    bar, and its result is read off these two columns: ['buy'] exactly when
    [ema_50] is strictly above [ema_200] at the last bar and was at or below
    it at the bar before; ['sell'] exactly when it is strictly below at the
    last bar and was at or above it at the bar before; and [None] in every
    other case. *)
Theorem get_signals_crossover (df : DataFrame) (c : list Q) :
  df !! "close" = Some c -> (2 <= length c)%nat ->
  exists ema_50 ema_200 : Series,
    calculate_ema df 50 = Ok ema_50
    /\ calculate_ema df 200 = Ok ema_200
    /\ fst (get_signals df) !! "ema_50" = Some ema_50
    /\ fst (get_signals df) !! "ema_200" = Some ema_200
    /\ length ema_50 = length c /\ length ema_200 = length c
    /\ let n := length c in
       let r := snd (get_signals df) in
       (r = Ok (Some "buy") <->
          nth (n - 1) ema_200 0 < nth (n - 1) ema_50 0
          /\ nth (n - 2) ema_50 0 <= nth (n - 2) ema_200 0)
       /\ (r = Ok (Some "sell") <->
             nth (n - 1) ema_50 0 < nth (n - 1) ema_200 0
             /\ nth (n - 2) ema_200 0 <= nth (n - 2) ema_50 0)
       /\ (r = Ok None <->
             ~ (nth (n - 1) ema_200 0 < nth (n - 1) ema_50 0
                /\ nth (n - 2) ema_50 0 <= nth (n - 2) ema_200 0)
             /\ ~ (nth (n - 1) ema_50 0 < nth (n - 1) ema_200 0
                   /\ nth (n - 2) ema_200 0 <= nth (n - 2) ema_50 0)).
Proof.
  intros Hc Hn.
  exists (Pandas.ewm ((inject_Z 50 - 1) / 2) c), (Pandas.ewm ((inject_Z 200 - 1) / 2) c).
  split; [apply calculate_ema_eval; [exact Hc | lia]|].
  split; [apply calculate_ema_eval; [exact Hc | lia]|].
  rewrite (get_signals_columns df c Hc Hn). cbn [fst snd]. unfold with_emas.
  split; [rewrite lookup_insert_ne by discriminate; apply lookup_insert_eq|].
  split; [apply lookup_insert_eq|].
  split; [apply ewm_length|]. split; [apply ewm_length|].
  cbv zeta. rewrite <- crossover_none, <- crossover_buy, <- crossover_sell.
  repeat split; intros E; congruence.
Qed.

Lemma get_signals_crossover_witness :
  exists ema_50 ema_200 : Series,
    calculate_ema (frame_of_closes [1; 2]) 50 = Ok ema_50
    /\ calculate_ema (frame_of_closes [1; 2]) 200 = Ok ema_200
    /\ fst (get_signals (frame_of_closes [1; 2])) !! "ema_50" = Some ema_50
    /\ fst (get_signals (frame_of_closes [1; 2])) !! "ema_200" = Some ema_200
    /\ length ema_50 = 2%nat /\ length ema_200 = 2%nat
    /\ (snd (get_signals (frame_of_closes [1; 2])) = Ok (Some "buy") <->
          nth 1 ema_200 0 < nth 1 ema_50 0 /\ nth 0 ema_50 0 <= nth 0 ema_200 0)
       /\ (snd (get_signals (frame_of_closes [1; 2])) = Ok (Some "sell") <->
             nth 1 ema_50 0 < nth 1 ema_200 0 /\ nth 0 ema_200 0 <= nth 0 ema_50 0)
       /\ (snd (get_signals (frame_of_closes [1; 2])) = Ok None <->
             ~ (nth 1 ema_200 0 < nth 1 ema_50 0 /\ nth 0 ema_50 0 <= nth 0 ema_200 0)
             /\ ~ (nth 1 ema_50 0 < nth 1 ema_200 0
                   /\ nth 0 ema_200 0 <= nth 0 ema_50 0)).
Proof.
  exact (get_signals_crossover (frame_of_closes [1; 2]) [1; 2] eq_refl
           (le_n 2)).
Defined.

(** C2.  For a window of at least 1 and a non-empty column of closing
    prices, [calculate_ema] returns a column of the same length whose value
    at every bar [t] is the value e_t of the recurrence e_0 = c_0,
    e_t = a*c_t + (1-a)*e_(t-1) with a = 2/(w+1). *)
Theorem calculate_ema_recurrence (df : DataFrame) (c : list Q) (w : Z) :
  (1 <= w)%Z -> c <> [] -> df !! "close" = Some c ->
  exists e : Series,
    calculate_ema df w = Ok e
    /\ length e = length c
    /\ nth 0 e 0 == nth 0 c 0
    /\ (forall t, (S t < length c)%nat ->
          nth (S t) e 0
          == smoothing w * nth (S t) c 0 + (1 - smoothing w) * nth t e 0)
    /\ forall t, (t < length c)%nat -> nth t e 0 == ema_spec (smoothing w) c t.
Proof.
  intros Hw Hne Hc. exists (Pandas.ewm ((inject_Z w - 1) / 2) c).
  split; [apply calculate_ema_eval; assumption|].
  split; [apply ewm_length|].
  assert (Hpos : (0 < length c)%nat) by (destruct c; [congruence | simpl; lia]).
  split; [rewrite ewm_spec by assumption; reflexivity|].
  split.
  - intros t Ht. rewrite !ewm_spec by (assumption || lia).
    rewrite ema_spec_S. reflexivity.
  - intros t Ht. apply ewm_spec; assumption.
Qed.

Lemma calculate_ema_recurrence_witness :
  exists e : Series,
    calculate_ema (frame_of_closes [1; 2; 4]) 3 = Ok e
    /\ length e = length [1; 2; 4]
    /\ nth 0 e 0 == nth 0 [1; 2; 4] 0
    /\ (forall t, (S t < length [1; 2; 4])%nat ->
          nth (S t) e 0
          == smoothing 3 * nth (S t) [1; 2; 4] 0 + (1 - smoothing 3) * nth t e 0)
    /\ forall t, (t < length [1; 2; 4])%nat ->
         nth t e 0 == ema_spec (smoothing 3) [1; 2; 4] t.
Proof.
  apply (calculate_ema_recurrence (frame_of_closes [1; 2; 4]) [1; 2; 4] 3).
  - lia.
  - discriminate.
  - reflexivity.
Defined.

Example calculate_ema_three_bars :
  match calculate_ema (frame_of_closes [1; 2; 4]) 3 with
  | Ok e => map Qred e = [1; 3 # 2; 11 # 4]
  | Raise _ => False
  end.
Proof. vm_compute. reflexivity. Qed.

(** C3, for exact averages.  With the averages as the recurrence of the
    specification defines them, in exact arithmetic: on a price series that
    never falls, if bar [k] is a bar where the fast average crosses above
    the slow one, the calculator evaluated up to bar [k] returns ['buy'] and
    evaluated up to any other bar returns [None]; on a series that never
    rises, with [k] a bar where the fast average crosses below, it returns
    ['sell'] at [k] and [None] at every other bar. *)
Theorem monotone_series_single_signal (c : list Q) (k : nat) :
  (nondecreasing c = true -> crossed_above c k ->
   forall t, (t < length c)%nat ->
     signal_at c t = Ok (if Nat.eqb t k then Some "buy" else None))
  /\ (nonincreasing c = true -> crossed_below c k ->
      forall t, (t < length c)%nat ->
        signal_at c t = Ok (if Nat.eqb t k then Some "sell" else None)).
Proof.
  split.
  - intros Hm (Hk & Habove & Hbefore) t Ht.
    destruct t as [|t].
    + destruct (Nat.eqb_spec 0 k); [lia|]. apply signal_at_first. lia.
    + rewrite signal_at_later by lia. f_equal.
      replace (S t - 1)%nat with t by lia.
      destruct (Nat.eqb_spec (S t) k) as [E|E].
      * subst k. replace (S t - 1)%nat with t in Hbefore by lia.
        apply crossover_buy. split; assumption.
      * apply crossover_none.
        destruct (rising_order c Hm (S t) Ht) as [Hge _].
        split; intros [H1 H2]; [|lra].
        destruct (Nat.lt_ge_cases (S t) k) as [Hlt|Hgt].
        -- (* before the crossover the fast average is not above *)
           destruct (Qlt_le_dec (slow c (k - 1)) (fast c (k - 1))) as [Hc|Hc]; [lra|].
           pose proof (rising_stays_above c (S t) Hm H1 (k - 1)%nat) as Hs.
           assert (slow c (k - 1) < fast c (k - 1)) by (apply Hs; lia). lra.
        -- (* after the crossover it was already above one bar earlier *)
           pose proof (rising_stays_above c k Hm Habove t) as Hs.
           assert (slow c t < fast c t) by (apply Hs; lia). lra.
  - intros Hm (Hk & Hbelow & Hbefore) t Ht.
    destruct t as [|t].
    + destruct (Nat.eqb_spec 0 k); [lia|]. apply signal_at_first. lia.
    + rewrite signal_at_later by lia. f_equal.
      replace (S t - 1)%nat with t by lia.
      destruct (Nat.eqb_spec (S t) k) as [E|E].
      * subst k. replace (S t - 1)%nat with t in Hbefore by lia.
        apply crossover_sell. split; assumption.
      * apply crossover_none.
        destruct (falling_order c Hm (S t) Ht) as [Hge _].
        split; intros [H1 H2]; [lra|].
        destruct (Nat.lt_ge_cases (S t) k) as [Hlt|Hgt].
        -- destruct (Qlt_le_dec (fast c (k - 1)) (slow c (k - 1))) as [Hc|Hc]; [lra|].
           pose proof (falling_stays_below c (S t) Hm H1 (k - 1)%nat) as Hs.
           assert (fast c (k - 1) < slow c (k - 1)) by (apply Hs; lia). lra.
        -- pose proof (falling_stays_below c k Hm Hbelow t) as Hs.
           assert (fast c t < slow c t) by (apply Hs; lia). lra.
Qed.

Lemma monotone_series_single_signal_witness :
  (signal_at [1; 2; 3] 0 = Ok None
   /\ signal_at [1; 2; 3] 1 = Ok (Some "buy")
   /\ signal_at [1; 2; 3] 2 = Ok None)
  /\ (signal_at [3; 2; 1] 0 = Ok None
      /\ signal_at [3; 2; 1] 1 = Ok (Some "sell")
      /\ signal_at [3; 2; 1] 2 = Ok None).
Proof.
  assert (Hup : crossed_above [1; 2; 3] 1).
  { split; [simpl; lia|]. split; [vm_compute; reflexivity | vm_compute; discriminate]. }
  assert (Hdown : crossed_below [3; 2; 1] 1).
  { split; [simpl; lia|]. split; [vm_compute; reflexivity | vm_compute; discriminate]. }
  split.
  - pose proof (proj1 (monotone_series_single_signal [1; 2; 3] 1) eq_refl Hup) as H.
    refine (conj (H 0%nat _) (conj (H 1%nat _) (H 2%nat _))); simpl; lia.
  - pose proof (proj2 (monotone_series_single_signal [3; 2; 1] 1) eq_refl Hdown) as H.
    refine (conj (H 0%nat _) (conj (H 1%nat _) (H 2%nat _))); simpl; lia.
Defined.

(** C3 as stated fails on the averages pandas computes in binary64.  The
    closing prices 0.7, 0.7000000000000001, 1.0 rise at every bar.  Rounded,
    the fast average stays at 0.7 at bar 1 while the slow one reaches
    0.7000000000000001, so the calculator returns ['sell'] there; the one
    crossing of the fast average above the slow one is at bar 2, where it
    returns ['buy']. *)
Lemma monotone_series_counterexample :
  let c := [py_float 0.7; B64.finite 6305039478318695 (-53); py_float 1] in
  B64.increasing c = true
  /\ B64.nondecreasing c = true
  /\ B64.calculate_ema c 50
     = [py_float 0.7; py_float 0.7; B64.finite 6411006528374470 (-53)]
  /\ B64.calculate_ema c 200
     = [py_float 0.7; B64.finite 6305039478318695 (-53);
        B64.finite 6331926640273146 (-53)]
  /\ B64.signal_at c 0 = Ok None
  /\ B64.signal_at c 1 = Ok (Some "sell")
  /\ B64.signal_at c 2 = Ok (Some "buy").
Proof. vm_compute. repeat split. Qed.

(** On the exact values of the same prices the exact averages cross at
    bar 1, and the calculator on them returns ['buy'] there only. *)
Example monotone_series_exact_averages :
  let c := map exact [py_float 0.7; B64.finite 6305039478318695 (-53);
                      py_float 1] in
  signal_at c 0 = Ok None
  /\ signal_at c 1 = Ok (Some "buy")
  /\ signal_at c 2 = Ok None.
Proof. vm_compute. repeat split. Qed.

(** The binary64 kernel on the closing prices 1.0, 2.0,
    0.04916593503072869: the averages end at 1.0003902058335774 and
    1.0003902058335772 and the signal is [None]. *)
Example binary64_three_bars :
  let c := [py_float 1; py_float 2; B64.finite 7085557973878776 (-57)] in
  B64.calculate_ema c 50
  = [py_float 1; B64.finite 4680211377463457 (-52);
     B64.finite 4505356958217193 (-52)]
  /\ B64.calculate_ema c 200
     = [py_float 1; B64.finite 4548411563961247 (-52);
        B64.finite 4505356958217192 (-52)]
  /\ B64.get_signals c = Ok None.
Proof. vm_compute. repeat split. Qed.

(** * Input contract and frame effects of the calculator *)

(** The signal depends on the closing prices only; the frame gains the two
    columns of averages. *)
Lemma get_signals_closes (df : DataFrame) (c : list Q) :
  df !! "close" = Some c -> get_signals df = (with_emas df c, signal_of_closes c).
Proof.
  intros Hc. unfold signal_of_closes.
  assert (Hf : frame_of_closes c !! "close" = Some c) by apply lookup_singleton_eq.
  destruct (le_lt_dec 2 (length c)) as [H2|H2].
  - rewrite (get_signals_bars df c Hc H2).
    now rewrite (get_signals_bars (frame_of_closes c) c Hf H2).
  - destruct c as [|x [|y r]]; simpl in H2; try lia.
    + rewrite (get_signals_no_bar df [] Hc eq_refl).
      now rewrite (get_signals_no_bar (frame_of_closes []) [] Hf eq_refl).
    + rewrite (get_signals_one_bar df [x] Hc eq_refl).
      now rewrite (get_signals_one_bar (frame_of_closes [x]) [x] Hf eq_refl).
Qed.

Lemma signal_of_closes_total (c : list Q) :
  (c = [] /\ signal_of_closes c = Raise IndexError)
  \/ (c <> [] /\ exists sig, signal_of_closes c = Ok sig).
Proof.
  unfold signal_of_closes.
  assert (Hf : frame_of_closes c !! "close" = Some c) by apply lookup_singleton_eq.
  destruct c as [|x [|y r]].
  - left. split; [reflexivity|].
    now rewrite (get_signals_no_bar (frame_of_closes []) [] Hf eq_refl).
  - right. split; [discriminate|]. exists None.
    now rewrite (get_signals_one_bar (frame_of_closes [x]) [x] Hf eq_refl).
  - right. split; [discriminate|].
    rewrite (get_signals_bars _ _ Hf) by (simpl; lia). eexists. reflexivity.
Qed.

Lemma frame_of_bars_close (rates : list Bar) :
  frame_of_bars rates !! "close" = Some (map bar_close rates).
Proof.
  unfold frame_of_bars.
  rewrite !(lookup_insert_ne (M := gmap string)) by discriminate.
  apply lookup_insert_eq.
Qed.

Section BarFetch.

Context {W : Type} `{Terminal W}.

(** What [get_rates] returns when it returns a frame. *)
Lemma get_rates_frame (s : St W) (sym : string) (tf : Z) (count : nat)
      (df : DataFrame) :
  snd (get_rates sym tf count s) = Ok (Some df) ->
  exists bars, df = frame_of_bars bars /\ (1 <= length bars <= count)%nat.
Proof.
  unfold get_rates, bind, call, log, emit, modify, ret.
  pose proof (copy_rates_count sym tf 0%nat count (world s)) as Hcount.
  destruct (copy_rates_from_pos sym tf 0 count (world s)) as [w [bars|]];
    cbn [snd] in *; [|discriminate].
  destruct bars as [|b r]; [discriminate|].
  intros [= <-]. exists (b :: r). split; [reflexivity|].
  specialize (Hcount (b :: r) eq_refl). simpl in *. lia.
Qed.

End BarFetch.

(** C4, as the code has it.  The calculator has no 201-bar requirement: it
    raises (IndexError) on the empty series only and returns a signal on
    every series with at least one bar.  The bar fetch of the control loop
    asks for 200 bars: when it yields a frame, the frame holds between 1 and
    200 bars, and the calculator returns a signal on it. *)
Theorem bars_contract :
  (forall (df : DataFrame) (c : list Q),
      df !! "close" = Some c ->
      (c = [] /\ snd (get_signals df) = Raise IndexError)
      \/ (c <> [] /\ exists sig, snd (get_signals df) = Ok sig))
  /\ (forall (W : Type) (T : Terminal W) (s : St W) (sym : string) (df : DataFrame),
         snd (get_rates sym TIMEFRAME_D1 200 s) = Ok (Some df) ->
         exists c, df !! "close" = Some c
                   /\ (1 <= length c <= 200)%nat
                   /\ exists sig, snd (get_signals df) = Ok sig).
Proof.
  split.
  - intros df c Hc. rewrite (get_signals_closes df c Hc). cbn [snd].
    apply signal_of_closes_total.
  - intros W T s sym df Hr.
    destruct (get_rates_frame s sym TIMEFRAME_D1 200 df Hr) as (bars & -> & Hlen).
    exists (map bar_close bars).
    split; [apply frame_of_bars_close|].
    split; [rewrite length_map; exact Hlen|].
    rewrite (get_signals_closes _ _ (frame_of_bars_close bars)). cbn [snd].
    destruct (signal_of_closes_total (map bar_close bars)) as [[E _]|[_ E]];
      [|exact E].
    destruct bars; [simpl in Hlen; lia | discriminate].
Qed.

Lemma bars_contract_witness :
  (exists sig, snd (get_signals (frame_of_closes [1; 2])) = Ok sig)
  /\ exists c, frame_of_bars (repeat (Sim.bar 1) 3) !! "close" = Some c
               /\ (1 <= length c <= 200)%nat
               /\ exists sig,
                    snd (get_signals (frame_of_bars (repeat (Sim.bar 1) 3))) = Ok sig.
Proof.
  split.
  - destruct (proj1 bars_contract (frame_of_closes [1; 2]) [1; 2] eq_refl)
      as [[E _]|[_ E]]; [discriminate E | exact E].
  - apply (proj2 bars_contract Sim.World Sim.terminal
             (sim_state (flat_history 3)) "EURUSD").
    reflexivity.
Defined.

(** C4 as stated fails: two bars are fewer than 201 and the calculator
    returns ['buy'] on them, and the bar fetch of the control loop hands
    over 200 bars of a 300-bar history. *)
Lemma bars_contract_counterexample :
  ((length [1; 2] < 201)%nat
   /\ snd (get_signals (frame_of_closes [1; 2])) = Ok (Some "buy"))
  /\ exists df,
       snd (get_rates "EURUSD" TIMEFRAME_D1 200 (sim_state (flat_history 300)))
       = Ok (Some df)
       /\ df !! "close" = Some (repeat 1 200)
       /\ (length (repeat 1 200) < 201)%nat
       /\ snd (get_signals df) = Ok None.
Proof.
  split.
  - split; [simpl; lia | vm_compute; reflexivity].
  - eexists. split; [reflexivity|].
    split; [vm_compute; reflexivity|].
    split; [rewrite repeat_length; lia | vm_compute; reflexivity].
Qed.

(** C5 as stated fails: the frame handed to [get_signals] comes back with
    two more columns. *)
Lemma get_signals_frame_counterexample :
  let df := frame_of_closes [1; 2] in
  df !! "ema_50" = None
  /\ fst (get_signals df) !! "ema_50" = Some (Pandas.ewm ((inject_Z 50 - 1) / 2) [1; 2])
  /\ fst (get_signals df) <> df.
Proof.
  cbv zeta.
  assert (Hc : frame_of_closes [1; 2] !! "close" = Some [1; 2])
    by apply lookup_singleton_eq.
  assert (Hnone : frame_of_closes [1; 2] !! "ema_50" = None)
    by (apply lookup_singleton_ne; discriminate).
  assert (Hsome : fst (get_signals (frame_of_closes [1; 2])) !! "ema_50"
                  = Some (Pandas.ewm ((inject_Z 50 - 1) / 2) [1; 2])).
  { rewrite (get_signals_closes _ _ Hc). cbn [fst]. unfold with_emas.
    rewrite lookup_insert_ne by discriminate. apply lookup_insert_eq. }
  split; [exact Hnone|]. split; [exact Hsome|].
  intros E. rewrite E, Hnone in Hsome. discriminate Hsome.
Qed.

(** C5, as the code has it.  [get_signals] stores the two averages on its
    input as the columns [ema_50] and [ema_200] and leaves every other
    column, the closing prices among them, as it was; the signal is a
    function of the closing prices alone, so equal closing prices give equal
    signals; and evaluating again on the frame it has already written to
    returns the same signal and leaves that frame as it is. *)
Theorem get_signals_frame (df : DataFrame) (c : list Q) :
  df !! "close" = Some c ->
  let df' := fst (get_signals df) in
  df' = <["ema_200" := Pandas.ewm ((inject_Z 200 - 1) / 2) c]>
          (<["ema_50" := Pandas.ewm ((inject_Z 50 - 1) / 2) c]> df)
  /\ (forall col, col <> "ema_50" -> col <> "ema_200" -> df' !! col = df !! col)
  /\ (forall df2 : DataFrame,
         df2 !! "close" = Some c -> snd (get_signals df2) = snd (get_signals df))
  /\ get_signals df' = (df', snd (get_signals df)).
Proof.
  intros Hc df'. subst df'. rewrite (get_signals_closes df c Hc). cbn [fst snd].
  split; [reflexivity|]. split; [|split].
  - intros col H50 H200. unfold with_emas.
    rewrite !(lookup_insert_ne (M := gmap string)) by congruence. reflexivity.
  - intros df2 Hc2. now rewrite (get_signals_closes df2 c Hc2).
  - assert (Hc' : with_emas df c !! "close" = Some c).
    { unfold with_emas.
      rewrite !(lookup_insert_ne (M := gmap string)) by discriminate. exact Hc. }
    rewrite (get_signals_closes _ c Hc'). f_equal.
    unfold with_emas. apply map_eq. intros col.
    destruct (decide (col = "ema_200")) as [->|H200].
    + rewrite !lookup_insert_eq. reflexivity.
    + rewrite (lookup_insert_ne _ "ema_200" col) by congruence.
      rewrite (lookup_insert_ne _ "ema_200" col) by congruence.
      destruct (decide (col = "ema_50")) as [->|H50].
      * rewrite !lookup_insert_eq. reflexivity.
      * rewrite (lookup_insert_ne _ "ema_50" col) by congruence.
        rewrite (lookup_insert_ne _ "ema_200" col) by congruence.
        rewrite (lookup_insert_ne _ "ema_50" col) by congruence.
        reflexivity.
Qed.

Lemma get_signals_frame_witness :
  let df := frame_of_closes [1; 2] in
  let df' := fst (get_signals df) in
  df' = <["ema_200" := Pandas.ewm ((inject_Z 200 - 1) / 2) [1; 2]]>
          (<["ema_50" := Pandas.ewm ((inject_Z 50 - 1) / 2) [1; 2]]> df)
  /\ (forall col, col <> "ema_50" -> col <> "ema_200" -> df' !! col = df !! col)
  /\ (forall df2 : DataFrame,
         df2 !! "close" = Some [1; 2] ->
         snd (get_signals df2) = snd (get_signals df))
  /\ get_signals df' = (df', snd (get_signals df)).
Proof.
  apply (get_signals_frame (frame_of_closes [1; 2]) [1; 2]). reflexivity.
Defined.

(** * Literals *)

Lemma py_float_0 : py_float 0 = SpecFloat.S754_zero false.
Proof. vm_compute. reflexivity. Qed.

Lemma py_float_1 : py_float 1 = SpecFloat.S754_finite false 4503599627370496 (-52).
Proof. vm_compute. reflexivity. Qed.

(** * Rounding to binary64 *)

Section Rounding.

Import Round.
Local Open Scope Z_scope.

Lemma fexp_eq (e : Z) : SpecFloat.fexp 53 1024 e = fexp e.
Proof. reflexivity. Qed.

Lemma digits_size (m : positive) : SpecFloat.digits2_pos m = Pos.size m.
Proof. induction m; simpl; congruence. Qed.

Lemma digits_bounds (m : positive) :
  2 ^ (digits m - 1) <= Zpos m < 2 ^ digits m.
Proof.
  unfold digits. rewrite digits_size.
  pose proof (Pos.size_gt m) as Hgt. pose proof (Pos.size_le m) as Hle.
  assert (H2 : Zpos (2 ^ Pos.size m) = 2 ^ Zpos (Pos.size m))
    by (rewrite Pos2Z.inj_pow; reflexivity).
  assert (Hs : 2 ^ Zpos (Pos.size m) = 2 * 2 ^ (Zpos (Pos.size m) - 1)).
  { rewrite <- Z.pow_succ_r by lia. f_equal. lia. }
  split; lia.
Qed.

Lemma digits_pos (m : positive) : 0 < digits m.
Proof. unfold digits. lia. Qed.

(** The digits of a number between two powers of two. *)
Lemma digits_unique (m : positive) (d : Z) :
  2 ^ (d - 1) <= Zpos m < 2 ^ d -> digits m = d.
Proof.
  intros [Hlo Hhi]. pose proof (digits_bounds m) as [Blo Bhi].
  pose proof (digits_pos m) as Hd.
  assert (0 < d).
  { destruct (Z_lt_le_dec 0 d) as [|Hn]; [assumption|].
    assert (2 ^ d <= 2 ^ 0) by (destruct (Z.eq_dec d 0) as [->|];
      [lia | rewrite Z.pow_neg_r by lia; simpl; lia]).
    simpl in *. lia. }
  destruct (Z.lt_trichotomy (digits m) d) as [Hlt|[Heq|Hgt]]; [|assumption|].
  - assert (2 ^ digits m <= 2 ^ (d - 1)) by (apply Z.pow_le_mono_r; lia). lia.
  - assert (2 ^ d <= 2 ^ (digits m - 1)) by (apply Z.pow_le_mono_r; lia). lia.
Qed.

Lemma digits_le (m1 m2 : positive) (a b : Z) :
  0 <= a -> 0 <= b -> Zpos m1 * 2 ^ a <= Zpos m2 * 2 ^ b ->
  digits m1 + a <= digits m2 + b.
Proof.
  intros Ha Hb H.
  pose proof (digits_bounds m1) as [Lo1 _].
  pose proof (digits_bounds m2) as [_ Hi2].
  pose proof (digits_pos m1). pose proof (digits_pos m2).
  assert (2 ^ (digits m1 - 1 + a) < 2 ^ (digits m2 + b)).
  { rewrite !Z.pow_add_r by lia.
    assert (0 < 2 ^ a) by (apply Z.pow_pos_nonneg; lia).
    assert (0 < 2 ^ b) by (apply Z.pow_pos_nonneg; lia).
    nia. }
  apply Z.pow_lt_mono_r_iff in H2; lia.
Qed.

Lemma digits_mul (m1 m2 : positive) :
  digits m1 + digits m2 - 1 <= digits (m1 * m2).
Proof.
  pose proof (digits_bounds m1) as [Lo1 _].
  pose proof (digits_bounds m2) as [Lo2 _].
  pose proof (digits_bounds (m1 * m2)) as [_ Hi].
  pose proof (digits_pos m1). pose proof (digits_pos m2).
  pose proof (digits_pos (m1 * m2)).
  rewrite Pos2Z.inj_mul in Hi.
  assert (2 ^ (digits m1 - 1 + (digits m2 - 1)) < 2 ^ digits (m1 * m2)).
  { rewrite Z.pow_add_r by lia.
    assert (0 < 2 ^ (digits m1 - 1)) by (apply Z.pow_pos_nonneg; lia).
    assert (0 < 2 ^ (digits m2 - 1)) by (apply Z.pow_pos_nonneg; lia).
    nia. }
  apply Z.pow_lt_mono_r_iff in H2; lia.
Qed.

(** ** Shifting a significand right *)

Lemma iter_pos_nat {A : Type} (f : A -> A) (n : positive) (x : A) :
  SpecFloat.iter_pos f n x = Nat.iter (Pos.to_nat n) f x.
Proof.
  revert x. induction n as [n IH|n IH|]; intros x; cbn [SpecFloat.iter_pos].
  - rewrite !IH, Pos2Nat.inj_xI.
    replace (S (2 * Pos.to_nat n)) with (Pos.to_nat n + S (Pos.to_nat n))%nat by lia.
    rewrite Nat.iter_add. f_equal. rewrite Nat.iter_succ_r. reflexivity.
  - rewrite !IH, Pos2Nat.inj_xO.
    replace (2 * Pos.to_nat n)%nat with (Pos.to_nat n + Pos.to_nat n)%nat by lia.
    rewrite Nat.iter_add. reflexivity.
  - reflexivity.
Qed.

Lemma shr_1_spec (m : Z) (r s : bool) :
  0 <= m ->
  SpecFloat.shr_1 (SpecFloat.Build_shr_record m r s)
  = SpecFloat.Build_shr_record (m / 2) (Z.odd m) (r || s).
Proof.
  intros Hm. destruct m as [|p|p]; [reflexivity | | lia].
  destruct p as [p|p|]; simpl SpecFloat.shr_1.
  - f_equal. rewrite Pos2Z.inj_xI.
    apply (Z.div_unique _ _ _ 1); lia.
  - f_equal. rewrite Pos2Z.inj_xO.
    apply (Z.div_unique _ _ _ 0); lia.
  - reflexivity.
Qed.

(** After [k + 1] shifts: the quotient, the last bit shifted out, and
    whether a nonzero bit was shifted out before it. *)
Lemma shr_iter_spec (m : Z) (k : nat) :
  0 <= m ->
  Nat.iter (S k) SpecFloat.shr_1 (SpecFloat.Build_shr_record m false false)
  = SpecFloat.Build_shr_record (m / 2 ^ Z.of_nat (S k))
      (Z.testbit m (Z.of_nat k)) (negb (m mod 2 ^ Z.of_nat k =? 0)).
Proof.
  intros Hm. induction k as [|k IH].
  - unfold Nat.iter; cbn [nat_rect]. rewrite shr_1_spec by assumption.
    change (2 ^ Z.of_nat 1) with 2. change (2 ^ Z.of_nat 0) with 1.
    rewrite Z.mod_1_r. reflexivity.
  - rewrite Nat.iter_succ, IH.
    assert (Hp : 0 < 2 ^ Z.of_nat (S k)) by (apply Z.pow_pos_nonneg; lia).
    rewrite shr_1_spec by (apply Z.div_pos; lia).
    f_equal.
    + rewrite Z.div_div by lia.
      rewrite (Nat2Z.inj_succ (S k)), Z.pow_succ_r by lia.
      f_equal. lia.
    + rewrite Z.testbit_odd, Z.shiftr_div_pow2 by lia. reflexivity.
    + rewrite (Nat2Z.inj_succ k), Z.pow_succ_r by lia.
      assert (Hk : 0 < 2 ^ Z.of_nat k) by (apply Z.pow_pos_nonneg; lia).
      rewrite (Z.mul_comm 2), Z.rem_mul_r by lia.
      pose proof (Z.mod_pos_bound m (2 ^ Z.of_nat k) Hk) as Hb.
      pose proof (Z.testbit_spec' m (Z.of_nat k) ltac:(lia)) as Ht.
      destruct (Z.testbit m (Z.of_nat k)); simpl in Ht; rewrite <- Ht.
      * simpl. symmetry. apply negb_true_iff, Z.eqb_neq. lia.
      * simpl. f_equal. rewrite Z.mul_0_r, Z.add_0_r. reflexivity.
Qed.

Lemma shr_spec (m e n : Z) :
  0 <= m -> 0 < n ->
  SpecFloat.shr (SpecFloat.Build_shr_record m false false) e n
  = (shifted m n, e + n).
Proof.
  intros Hm Hn. destruct n as [|p|p]; try lia.
  unfold SpecFloat.shr. f_equal.
  rewrite iter_pos_nat.
  destruct (Pos2Nat.is_succ p) as [k Hk]. rewrite Hk.
  rewrite shr_iter_spec by assumption. unfold shifted.
  assert (Z.of_nat (S k) = Zpos p) by lia.
  assert (Z.of_nat k = Zpos p - 1) by lia.
  congruence.
Qed.

Lemma rne_bounds (m n : Z) : m / 2 ^ n <= rne m n <= m / 2 ^ n + 1.
Proof.
  unfold rne, shifted. cbn [SpecFloat.shr_m SpecFloat.loc_of_shr_record].
  destruct (Z.testbit m (n - 1)), (negb (m mod 2 ^ (n - 1) =? 0));
    cbn [SpecFloat.round_nearest_even]; try lia.
  destruct (Z.even (m / 2 ^ n)); lia.
Qed.

Lemma rne_exact (m n : Z) :
  0 < n -> m mod 2 ^ n = 0 -> rne m n = m / 2 ^ n.
Proof.
  intros Hn H0. unfold rne, shifted.
  cbn [SpecFloat.shr_m SpecFloat.loc_of_shr_record].
  assert (Hk : 0 < 2 ^ (n - 1)) by (apply Z.pow_pos_nonneg; lia).
  replace n with (Z.succ (n - 1)) in H0 by lia.
  rewrite Z.pow_succ_r, (Z.mul_comm 2), Z.rem_mul_r in H0 by lia.
  pose proof (Z.mod_pos_bound m (2 ^ (n - 1)) Hk) as Hb.
  pose proof (Z.testbit_spec' m (n - 1) ltac:(lia)) as Ht.
  pose proof (Z.mod_pos_bound (m / 2 ^ (n - 1)) 2 ltac:(lia)) as Hb2.
  assert (Hm0 : m mod 2 ^ (n - 1) = 0) by nia.
  assert (Hm1 : (m / 2 ^ (n - 1)) mod 2 = 0) by nia.
  rewrite Hm1 in Ht. destruct (Z.testbit m (n - 1)); [discriminate Ht|].
  rewrite Hm0. reflexivity.
Qed.

Lemma shr_kept (mrs : SpecFloat.shr_record) (e n : Z) :
  n <= 0 -> SpecFloat.shr mrs e n = (mrs, e).
Proof. intros Hn. destruct n; [reflexivity | lia | reflexivity]. Qed.

Lemma shr_fexp_spec (m : positive) (e : Z) :
  SpecFloat.shr_fexp 53 1024 (Zpos m) e SpecFloat.loc_Exact
  = SpecFloat.shr (SpecFloat.Build_shr_record (Zpos m) false false) e
      (fexp (digits m + e) - e).
Proof. reflexivity. Qed.

Lemma round_aux_kept (s : bool) (m : positive) (e : Z) :
  fexp (digits m + e) <= e ->
  SpecFloat.binary_round_aux 53 1024 s (Zpos m) e SpecFloat.loc_Exact
  = if e <=? 971 then SpecFloat.S754_finite s m e
    else SpecFloat.S754_infinity s.
Proof.
  intros Hn. unfold SpecFloat.binary_round_aux.
  rewrite shr_fexp_spec, shr_kept by lia.
  cbn [SpecFloat.shr_m SpecFloat.loc_of_shr_record SpecFloat.round_nearest_even].
  rewrite shr_fexp_spec, shr_kept by lia.
  reflexivity.
Qed.

Lemma round_aux_shifted (s : bool) (m : positive) (e : Z) :
  e < fexp (digits m + e) ->
  SpecFloat.binary_round_aux 53 1024 s (Zpos m) e SpecFloat.loc_Exact
  = pack s (rne (Zpos m) (fexp (digits m + e) - e)) (fexp (digits m + e)).
Proof.
  intros Hn. set (e1 := fexp (digits m + e)) in *. set (n := e1 - e).
  assert (Hn0 : 0 < n) by (unfold n; lia).
  unfold SpecFloat.binary_round_aux.
  rewrite shr_fexp_spec. fold e1. fold n.
  rewrite shr_spec by lia.
  replace (e + n) with e1 by (unfold n; lia).
  fold (rne (Zpos m) n).
  pose proof (rne_bounds (Zpos m) n) as [Hlo Hhi].
  pose proof (digits_bounds m) as [_ Hd]. pose proof (digits_pos m) as Hdp.
  assert (Hp : 0 < 2 ^ n) by (apply Z.pow_pos_nonneg; lia).
  assert (He1 : -1074 <= e1 /\ digits m + e - 53 <= e1) by (unfold e1, fexp; lia).
  assert (Hq : 0 <= Zpos m / 2 ^ n < 2 ^ 53).
  { split; [apply Z.div_pos; lia|].
    apply Z.div_lt_upper_bound; [lia|].
    rewrite <- Z.pow_add_r by lia.
    assert (2 ^ digits m <= 2 ^ (n + 53)) by (apply Z.pow_le_mono_r; unfold n; lia).
    lia. }
  destruct (rne (Zpos m) n) as [|p|p] eqn:Hr; [| |lia].
  - unfold SpecFloat.shr_fexp. cbn [SpecFloat.Zdigits2 SpecFloat.shr_record_of_loc].
    rewrite shr_kept by (change (SpecFloat.fexp 53 1024 (0 + e1)) with (fexp (0 + e1));
                         unfold fexp; lia).
    reflexivity.
  - rewrite shr_fexp_spec. unfold pack.
    destruct (Z.ltb_spec (Zpos p) (2 ^ 53)) as [Hlt|Hge].
    + assert (digits p <= 53).
      { pose proof (digits_bounds p) as [Hl _]. pose proof (digits_pos p).
        destruct (Z_le_gt_dec (digits p) 53) as [|Hgt]; [assumption|].
        assert (2 ^ 53 <= 2 ^ (digits p - 1)) by (apply Z.pow_le_mono_r; lia). lia. }
      rewrite shr_kept by (unfold fexp; lia). reflexivity.
    + assert (Hp53 : Zpos p = 2 ^ 53) by lia.
      assert (p = 9007199254740992%positive) by (apply Pos2Z.inj; exact Hp53).
      subst p.
      change (digits 9007199254740992) with 54.
      replace (fexp (54 + e1) - e1) with 1 by (unfold fexp; lia).
      reflexivity.
Qed.

(** ** Order *)

Lemma fleb_finite (m1 m2 : positive) (e1 e2 : Z) :
  fleb (SpecFloat.S754_finite false m1 e1) (SpecFloat.S754_finite false m2 e2)
  = true
  <-> e1 < e2 \/ (e1 = e2 /\ Zpos m1 <= Zpos m2).
Proof.
  unfold fleb, SpecFloat.SFleb, SpecFloat.SFcompare.
  change (Pos.compare_cont Eq m1 m2) with (Pos.compare m1 m2).
  destruct (Z.compare_spec e1 e2) as [He|He|He].
  - destruct (Pos.compare_spec m1 m2) as [Hm|Hm|Hm];
      (split; [intros H; try discriminate H; right; split; lia
              | intros [H|[_ H]]; try reflexivity; lia]).
  - split; [intros _; left; assumption | reflexivity].
  - split; [discriminate | lia].
Qed.

Lemma bounded_canonical (m : positive) (e : Z) :
  SpecFloat.bounded 53 1024 m e = true <-> canonical m e.
Proof.
  unfold SpecFloat.bounded, SpecFloat.canonical_mantissa, canonical, aligned.
  change (SpecFloat.fexp 53 1024 (Zpos (SpecFloat.digits2_pos m) + e))
    with (fexp (digits m + e)).
  change (1024 - 53) with 971.
  rewrite andb_true_iff, Z.eqb_eq, Z.leb_le. reflexivity.
Qed.

Lemma aligned_digits (m : positive) (e : Z) :
  aligned m e -> digits m <= 53 /\ -1074 <= e /\ (-1074 < e -> digits m = 53).
Proof. unfold aligned, fexp. lia. Qed.

Lemma aligned_normal (m : positive) (e : Z) :
  aligned m e -> -1074 < e -> 2 ^ 52 <= Zpos m.
Proof.
  intros Hc He. destruct (aligned_digits m e Hc) as (_ & _ & Hd).
  pose proof (digits_bounds m) as [Hlo _]. rewrite (Hd He) in Hlo. exact Hlo.
Qed.

Lemma aligned_below (m : positive) (e : Z) :
  aligned m e -> Zpos m < 2 ^ 53.
Proof.
  intros Hc. destruct (aligned_digits m e Hc) as (Hd & _ & _).
  pose proof (digits_bounds m) as [_ Hhi]. pose proof (digits_pos m).
  assert (2 ^ digits m <= 2 ^ 53) by (apply Z.pow_le_mono_r; lia). lia.
Qed.

(** The quotient left by the shift of a number in the normal range. *)
Lemma normal_quotient (m : positive) (n : Z) :
  0 < n -> n = digits m - 53 -> 2 ^ 52 <= Zpos m / 2 ^ n.
Proof.
  intros Hn Hd. pose proof (digits_bounds m) as [Hlo _].
  assert (Hp : 0 < 2 ^ n) by (apply Z.pow_pos_nonneg; lia).
  apply Z.div_le_lower_bound; [lia|].
  rewrite <- Z.pow_add_r by lia.
  replace (n + 52) with (digits m - 1) by lia. exact Hlo.
Qed.

Lemma shifted_quotient (m : positive) (n : Z) :
  0 < n -> digits m - 53 <= n -> 0 <= Zpos m / 2 ^ n < 2 ^ 53.
Proof.
  intros Hn Hd. pose proof (digits_bounds m) as [_ Hhi].
  pose proof (digits_pos m).
  assert (Hp : 0 < 2 ^ n) by (apply Z.pow_pos_nonneg; lia).
  split; [apply Z.div_pos; lia|].
  apply Z.div_lt_upper_bound; [lia|].
  rewrite <- Z.pow_add_r by lia.
  assert (2 ^ digits m <= 2 ^ (n + 53)) by (apply Z.pow_le_mono_r; lia).
  lia.
Qed.

(** Rounding does not cross a binary64 number: a product or sum whose exact
    value [m * 2 ^ e] is at most the binary64 number [mp * 2 ^ ep] rounds
    to at most that number.  The two values are compared on a common
    exponent [e - a = ep - b]. *)
Lemma round_below (m mp : positive) (e ep a b : Z) :
  canonical mp ep -> 0 <= a -> 0 <= b -> e - a = ep - b ->
  Zpos m * 2 ^ a <= Zpos mp * 2 ^ b ->
  e <= fexp (digits m + e) ->
  fleb (SpecFloat.binary_round_aux 53 1024 false (Zpos m) e SpecFloat.loc_Exact)
       (SpecFloat.S754_finite false mp ep) = true.
Proof.
  intros Hc Ha Hb Hab Hle Hn.
  pose proof (digits_le m mp a b Ha Hb Hle) as Hd.
  pose proof Hc as [Hcf Hce]. unfold aligned in Hcf.
  set (e1 := fexp (digits m + e)) in *.
  assert (He1 : e1 <= ep) by (unfold e1, fexp in *; lia).
  assert (H2a : 0 < 2 ^ a) by (apply Z.pow_pos_nonneg; lia).
  destruct (Z.eq_dec e e1) as [Heq|Hne].
  - rewrite round_aux_kept by (fold e1; lia).
    destruct (Z.leb_spec e 971); [|lia].
    apply fleb_finite.
    destruct (Z.eq_dec e ep) as [->|]; [right | left; lia].
    split; [reflexivity|]. assert (a = b) by lia. subst b. nia.
  - rewrite round_aux_shifted by (fold e1; lia). fold e1.
    set (n := e1 - e). assert (Hn0 : 0 < n) by (unfold n; lia).
    assert (H2n : 0 < 2 ^ n) by (apply Z.pow_pos_nonneg; lia).
    pose proof (rne_bounds (Zpos m) n) as [Hlo Hhi].
    assert (Hq : 0 <= Zpos m / 2 ^ n < 2 ^ 53)
      by (apply shifted_quotient; [lia | unfold n, e1, fexp; lia]).
    pose proof (aligned_below mp ep (proj1 Hc)) as Hmp.
    assert (Hsame : e1 = ep -> rne (Zpos m) n <= Zpos mp).
    { intros E. assert (Hb' : b = a + n) by (unfold n; lia).
      rewrite Hb', Z.pow_add_r in Hle by lia.
      assert (Hm : Zpos m <= Zpos mp * 2 ^ n) by nia.
      assert (Hqm : Zpos m / 2 ^ n <= Zpos mp).
      { apply Z.div_le_upper_bound; lia. }
      destruct (Z.eq_dec (Zpos m / 2 ^ n) (Zpos mp)) as [Hq'|]; [|lia].
      pose proof (Z.div_mod (Zpos m) (2 ^ n) ltac:(lia)) as Hdm.
      pose proof (Z.mod_pos_bound (Zpos m) (2 ^ n) H2n) as Hmb.
      rewrite rne_exact; [lia | lia |]. rewrite Hq' in Hdm. nia. }
    unfold pack. destruct (rne (Zpos m) n) as [|p|p] eqn:Hr; [reflexivity| |lia].
    destruct (Z.ltb_spec (Zpos p) (2 ^ 53)) as [Hlt|Hge].
    + destruct (Z.leb_spec e1 971); [|lia].
      apply fleb_finite.
      destruct (Z.eq_dec e1 ep) as [E|]; [right | left; lia].
      split; [assumption | apply Hsame; assumption].
    + assert (e1 < ep).
      { destruct (Z.eq_dec e1 ep) as [E|]; [|lia]. specialize (Hsame E). lia. }
      destruct (Z.leb_spec (e1 + 1) 971); [|lia].
      apply fleb_finite.
      destruct (Z.eq_dec (e1 + 1) ep) as [E|]; [right | left; lia].
      split; [assumption|].
      apply (aligned_normal mp ep (proj1 Hc)). unfold e1, fexp in *. lia.
Qed.

Lemma fleb_finite_infinity (m : positive) (e : Z) :
  fleb (SpecFloat.S754_finite false m e) (SpecFloat.S754_infinity false) = true.
Proof. reflexivity. Qed.

(** And a value that is at least a binary64 number rounds to at least that
    number. *)
Lemma round_above (m mp : positive) (e ep a b : Z) :
  aligned mp ep -> 0 <= a -> 0 <= b -> e - a = ep - b ->
  Zpos mp * 2 ^ b <= Zpos m * 2 ^ a ->
  e <= fexp (digits m + e) ->
  fleb (SpecFloat.S754_finite false mp ep)
       (SpecFloat.binary_round_aux 53 1024 false (Zpos m) e SpecFloat.loc_Exact)
  = true.
Proof.
  intros Hc Ha Hb Hab Hle Hn.
  pose proof (digits_le mp m b a Hb Ha Hle) as Hd.
  pose proof Hc as Hcf. unfold aligned in Hcf.
  set (e1 := fexp (digits m + e)) in *.
  assert (He1 : ep <= e1) by (unfold e1, fexp in *; lia).
  assert (H2b : 0 < 2 ^ b) by (apply Z.pow_pos_nonneg; lia).
  destruct (Z.eq_dec e e1) as [Heq|Hne].
  - rewrite round_aux_kept by (fold e1; lia).
    destruct (Z.leb_spec e 971); [|reflexivity].
    apply fleb_finite.
    destruct (Z.eq_dec ep e) as [<-|]; [right | left; lia].
    split; [reflexivity|]. assert (a = b) by lia. subst b. nia.
  - rewrite round_aux_shifted by (fold e1; lia). fold e1.
    set (n := e1 - e). assert (Hn0 : 0 < n) by (unfold n; lia).
    assert (H2n : 0 < 2 ^ n) by (apply Z.pow_pos_nonneg; lia).
    pose proof (rne_bounds (Zpos m) n) as [Hlo Hhi].
    assert (Hq : 0 <= Zpos m / 2 ^ n < 2 ^ 53)
      by (apply shifted_quotient; [lia | unfold n, e1, fexp; lia]).
    assert (Hsame : e1 = ep -> Zpos mp <= Zpos m / 2 ^ n).
    { intros E. assert (Hb' : b = a + n) by (unfold n; lia).
      rewrite Hb', Z.pow_add_r in Hle by lia.
      assert (H2a : 0 < 2 ^ a) by (apply Z.pow_pos_nonneg; lia).
      apply Z.div_le_lower_bound; [lia|]. nia. }
    assert (Hnormal : ep < e1 -> 2 ^ 52 <= Zpos m / 2 ^ n).
    { intros E. apply normal_quotient; [lia|].
      pose proof (aligned_digits mp ep Hc). unfold n, e1, fexp in *. lia. }
    assert (Hpos : 0 < rne (Zpos m) n).
    { destruct (Z.eq_dec e1 ep) as [E|]; [specialize (Hsame E); lia|].
      assert (2 ^ 52 <= Zpos m / 2 ^ n) by (apply Hnormal; lia). lia. }
    unfold pack. destruct (rne (Zpos m) n) as [|p|p] eqn:Hr; [lia| |lia].
    destruct (Z.ltb_spec (Zpos p) (2 ^ 53)) as [Hlt|Hge].
    + destruct (Z.leb_spec e1 971); [|reflexivity].
      apply fleb_finite.
      destruct (Z.eq_dec ep e1) as [E|]; [right | left; lia].
      split; [assumption|]. symmetry in E. specialize (Hsame E). lia.
    + destruct (Z.leb_spec (e1 + 1) 971); [|reflexivity].
      apply fleb_finite. left. lia.
Qed.

(** ** The shape of a rounded result *)

Lemma digits_pow2 (m : positive) (k : Z) (mk : positive) :
  0 <= k -> Zpos mk = Zpos m * 2 ^ k -> digits mk = digits m + k.
Proof.
  intros Hk E. apply digits_unique. rewrite E.
  pose proof (digits_bounds m) as [Hlo Hhi]. pose proof (digits_pos m).
  assert (0 < 2 ^ k) by (apply Z.pow_pos_nonneg; lia).
  replace (digits m + k - 1) with (digits m - 1 + k) by lia.
  rewrite !Z.pow_add_r by lia. nia.
Qed.

Lemma round_aux_signed (s : bool) (m : positive) (e : Z) :
  e <= fexp (digits m + e) ->
  signed s (SpecFloat.binary_round_aux 53 1024 s (Zpos m) e SpecFloat.loc_Exact).
Proof.
  intros Hn. set (e1 := fexp (digits m + e)) in *.
  destruct (Z.eq_dec e e1) as [Heq|Hne].
  - rewrite round_aux_kept by (fold e1; lia).
    destruct (Z.leb_spec e 971); [|reflexivity].
    split; [reflexivity|]. split; [unfold aligned; fold e1; lia | assumption].
  - rewrite round_aux_shifted by (fold e1; lia). fold e1.
    set (n := e1 - e). assert (Hn0 : 0 < n) by (unfold n; lia).
    pose proof (rne_bounds (Zpos m) n) as [Hlo Hhi].
    assert (Hq : 0 <= Zpos m / 2 ^ n < 2 ^ 53)
      by (apply shifted_quotient; [lia | unfold n, e1, fexp; lia]).
    assert (He1 : -1074 <= e1) by (unfold e1, fexp; lia).
    unfold pack. destruct (rne (Zpos m) n) as [|p|p] eqn:Hr; [reflexivity| |lia].
    destruct (Z.ltb_spec (Zpos p) (2 ^ 53)) as [Hlt|Hge].
    + destruct (Z.leb_spec e1 971); [|reflexivity].
      split; [reflexivity|]. split; [|assumption].
      destruct (Z.eq_dec e1 (-1074)) as [E|E].
      * assert (digits p <= 53).
        { pose proof (digits_bounds p) as [Hl _]. pose proof (digits_pos p).
          destruct (Z_le_gt_dec (digits p) 53) as [|Hgt]; [assumption|].
          assert (2 ^ 53 <= 2 ^ (digits p - 1)) by (apply Z.pow_le_mono_r; lia).
          lia. }
        unfold aligned, fexp. lia.
      * assert (2 ^ 52 <= Zpos m / 2 ^ n)
          by (apply normal_quotient; [lia | unfold n, e1, fexp in *; lia]).
        unfold aligned.
        rewrite (digits_unique p 53) by (change (2 ^ (53 - 1)) with (2 ^ 52); lia).
        unfold fexp. lia.
    + destruct (Z.leb_spec (e1 + 1) 971); [|reflexivity].
      split; [reflexivity|]. split; [|assumption].
      unfold aligned.
      change (digits 4503599627370496) with 53. unfold fexp. lia.
Qed.

(** ** Aligning a significand to a lower exponent *)

Lemma iter_xO (m d : positive) : Zpos (Pos.iter xO m d) = Zpos m * 2 ^ Zpos d.
Proof.
  induction d as [|d IH] using Pos.peano_ind.
  - cbn [Pos.iter]. rewrite Pos2Z.inj_xO. change (2 ^ 1) with 2. lia.
  - rewrite Pos.iter_succ, Pos2Z.inj_xO, IH, Pos2Z.inj_succ, Z.pow_succ_r by lia.
    lia.
Qed.

Lemma shl_align_spec (m : positive) (e e' : Z) :
  let '(mz, ez) := SpecFloat.shl_align m e e' in
  ez = Z.min e e' /\ Zpos mz = Zpos m * 2 ^ (e - ez).
Proof.
  unfold SpecFloat.shl_align.
  destruct (e' - e) as [|d|d] eqn:Hd.
  - split; [lia|]. replace (e - e) with 0 by lia. simpl. lia.
  - split; [lia|]. replace (e - e) with 0 by lia. simpl. lia.
  - split; [lia|]. rewrite iter_xO. f_equal. f_equal. lia.
Qed.

Lemma shl_align_fst (m : positive) (e e' : Z) :
  e' <= e -> Zpos (fst (SpecFloat.shl_align m e e')) = Zpos m * 2 ^ (e - e').
Proof.
  intros H. pose proof (shl_align_spec m e e') as Hs.
  destruct (SpecFloat.shl_align m e e') as [mz ez]. destruct Hs as [Hz Hm].
  simpl. rewrite Hm. f_equal. f_equal. lia.
Qed.

(** [binary_round] on [m * 2 ^ e] is the rounding of an aligned pair of
    the same value. *)
Lemma binary_round_aligned (s : bool) (m : positive) (e : Z) :
  exists (mz : positive) (k : Z),
    0 <= k /\ Zpos mz = Zpos m * 2 ^ k
    /\ e - k <= fexp (digits mz + (e - k))
    /\ SpecFloat.binary_round 53 1024 s m e
       = SpecFloat.binary_round_aux 53 1024 s (Zpos mz) (e - k)
           SpecFloat.loc_Exact.
Proof.
  unfold SpecFloat.binary_round.
  change (SpecFloat.fexp 53 1024 (Zpos (SpecFloat.digits2_pos m) + e))
    with (fexp (digits m + e)).
  pose proof (shl_align_spec m e (fexp (digits m + e))) as Hs.
  destruct (SpecFloat.shl_align m e (fexp (digits m + e))) as [mz ez].
  destruct Hs as [Hz Hm].
  exists mz, (e - ez). split; [lia|]. split; [assumption|].
  replace (e - (e - ez)) with ez by lia. split; [|reflexivity].
  rewrite (digits_pow2 m (e - ez) mz) by (assumption || lia).
  replace (digits m + (e - ez) + ez) with (digits m + e) by lia. lia.
Qed.

Lemma binary_round_below (m mp : positive) (e ep a b : Z) :
  canonical mp ep -> 0 <= a -> 0 <= b -> e - a = ep - b ->
  Zpos m * 2 ^ a <= Zpos mp * 2 ^ b ->
  fleb (SpecFloat.binary_round 53 1024 false m e)
       (SpecFloat.S754_finite false mp ep) = true.
Proof.
  intros Hc Ha Hb Hab Hle.
  destruct (binary_round_aligned false m e) as (mz & k & Hk & Hmz & Hn & ->).
  apply (round_below mz mp (e - k) ep a (b + k)); try assumption; try lia.
  rewrite Hmz, Z.pow_add_r by lia.
  assert (0 < 2 ^ k) by (apply Z.pow_pos_nonneg; lia). nia.
Qed.

Lemma binary_round_above (m mp : positive) (e ep a b : Z) :
  aligned mp ep -> 0 <= a -> 0 <= b -> e - a = ep - b ->
  Zpos mp * 2 ^ b <= Zpos m * 2 ^ a ->
  fleb (SpecFloat.S754_finite false mp ep)
       (SpecFloat.binary_round 53 1024 false m e) = true.
Proof.
  intros Hc Ha Hb Hab Hle.
  destruct (binary_round_aligned false m e) as (mz & k & Hk & Hmz & Hn & ->).
  apply (round_above mz mp (e - k) ep a (b + k)); try assumption; try lia.
  rewrite Hmz, Z.pow_add_r by lia.
  assert (0 < 2 ^ k) by (apply Z.pow_pos_nonneg; lia). nia.
Qed.

Lemma binary_round_signed (s : bool) (m : positive) (e : Z) :
  signed s (SpecFloat.binary_round 53 1024 s m e).
Proof.
  destruct (binary_round_aligned s m e) as (mz & k & Hk & Hmz & Hn & ->).
  apply round_aux_signed. assumption.
Qed.

(** ** Sums, differences and products of positive numbers *)

(** The order of two aligned pairs, read on their values. *)
Lemma aligned_order (mx mw : positive) (ex ew : Z) :
  aligned mx ex -> aligned mw ew ->
  ex < ew \/ (ex = ew /\ Zpos mx <= Zpos mw) ->
  ex <= ew /\ Zpos mx <= Zpos mw * 2 ^ (ew - ex).
Proof.
  intros Hx Hw [Hlt|[-> Hle]].
  - split; [lia|].
    pose proof (aligned_below mx ex Hx) as Hb.
    destruct (aligned_digits mx ex Hx) as (_ & Hex & _).
    pose proof (aligned_normal mw ew Hw ltac:(lia)) as Hn.
    assert (2 ^ 1 <= 2 ^ (ew - ex)) by (apply Z.pow_le_mono_r; lia).
    change (2 ^ 1) with 2 in *. change (2 ^ 53) with (2 * 2 ^ 52) in Hb. nia.
  - split; [lia|]. rewrite Z.sub_diag. simpl. lia.
Qed.

Lemma signed_below (mw : positive) (ew : Z) (x : float) :
  signed false x -> fleb x (SpecFloat.S754_finite false mw ew) = true ->
  at_most mw ew x.
Proof.
  destruct x as [s|s| |s m e]; simpl; intros Hs Hle; try exact I; try contradiction.
  - subst s. discriminate Hle.
  - destruct Hs as [-> Hc]. split; [assumption|]. apply fleb_finite. assumption.
Qed.

Lemma signed_above (mw : positive) (ew : Z) (x : float) :
  signed false x -> fleb (SpecFloat.S754_finite false mw ew) x = true ->
  at_least mw ew x.
Proof.
  destruct x as [s|s| |s m e]; simpl; intros Hs Hle; try contradiction.
  - subst s. discriminate Hle.
  - subst s. exact I.
  - destruct Hs as [-> Hc]. split; [assumption|]. apply fleb_finite. assumption.
Qed.

Lemma signed_negative (mw : positive) (ew : Z) (x : float) :
  signed true x -> at_most mw ew x.
Proof.
  destruct x as [s|s| |s m e]; simpl; intros Hs; try exact I; try contradiction.
  - assumption.
  - destruct Hs as [-> Hc]. assumption.
Qed.

(** The difference of two positive numbers, when its exact value is at most
    a binary64 number; the three values are compared on an exponent [g]
    below theirs. *)
Lemma fsub_below (mc ms mw : positive) (ec es ew g : Z) :
  canonical mw ew -> g <= ec -> g <= es -> g <= ew ->
  Zpos mc * 2 ^ (ec - g) - Zpos ms * 2 ^ (es - g) <= Zpos mw * 2 ^ (ew - g) ->
  at_most mw ew (fsub (SpecFloat.S754_finite false mc ec)
                    (SpecFloat.S754_finite false ms es)).
Proof.
  intros Hw Hgc Hgs Hgw Hle.
  unfold fsub, SpecFloat.SFsub. cbn [SpecFloat.cond_Zopp].
  set (ez := Z.min ec es).
  rewrite !shl_align_fst by (unfold ez; lia).
  assert (Hg : 0 < 2 ^ (ez - g)) by (apply Z.pow_pos_nonneg; unfold ez; lia).
  assert (Hc : Zpos mc * 2 ^ (ec - g) = Zpos mc * 2 ^ (ec - ez) * 2 ^ (ez - g)).
  { rewrite <- Z.mul_assoc, <- Z.pow_add_r by (unfold ez; lia).
    f_equal. f_equal. lia. }
  assert (Hs : Zpos ms * 2 ^ (es - g) = Zpos ms * 2 ^ (es - ez) * 2 ^ (ez - g)).
  { rewrite <- Z.mul_assoc, <- Z.pow_add_r by (unfold ez; lia).
    f_equal. f_equal. lia. }
  rewrite Hc, Hs in Hle.
  destruct (Zpos mc * 2 ^ (ec - ez) - Zpos ms * 2 ^ (es - ez)) as [|d|d] eqn:Hd;
    unfold SpecFloat.binary_normalize.
  - exact I.
  - apply signed_below; [apply binary_round_signed|].
    apply (binary_round_below d mw ez ew (ez - g) (ew - g));
      try assumption; try (unfold ez; lia). nia.
  - apply signed_negative, binary_round_signed.
Qed.

(** The sum of two positive numbers, when its exact value is at least an
    aligned number. *)
Lemma fadd_above (mc ms mw : positive) (ec es ew g : Z) :
  aligned mw ew -> g <= ec -> g <= es -> g <= ew ->
  Zpos mw * 2 ^ (ew - g) <= Zpos mc * 2 ^ (ec - g) + Zpos ms * 2 ^ (es - g) ->
  at_least mw ew (fadd (SpecFloat.S754_finite false mc ec)
                    (SpecFloat.S754_finite false ms es)).
Proof.
  intros Hw Hgc Hgs Hgw Hle.
  unfold fadd, SpecFloat.SFadd. cbn [SpecFloat.cond_Zopp].
  set (ez := Z.min ec es).
  rewrite !shl_align_fst by (unfold ez; lia).
  assert (Hg : 0 < 2 ^ (ez - g)) by (apply Z.pow_pos_nonneg; unfold ez; lia).
  assert (Hc : Zpos mc * 2 ^ (ec - g) = Zpos mc * 2 ^ (ec - ez) * 2 ^ (ez - g)).
  { rewrite <- Z.mul_assoc, <- Z.pow_add_r by (unfold ez; lia).
    f_equal. f_equal. lia. }
  assert (Hs : Zpos ms * 2 ^ (es - g) = Zpos ms * 2 ^ (es - ez) * 2 ^ (ez - g)).
  { rewrite <- Z.mul_assoc, <- Z.pow_add_r by (unfold ez; lia).
    f_equal. f_equal. lia. }
  rewrite Hc, Hs in Hle.
  assert (H1 : 0 < 2 ^ (ec - ez)) by (apply Z.pow_pos_nonneg; unfold ez; lia).
  assert (H2 : 0 < 2 ^ (es - ez)) by (apply Z.pow_pos_nonneg; unfold ez; lia).
  destruct (Zpos mc * 2 ^ (ec - ez) + Zpos ms * 2 ^ (es - ez)) as [|d|d] eqn:Hd;
    unfold SpecFloat.binary_normalize; [nia| |nia].
  apply signed_above; [apply binary_round_signed|].
  apply (binary_round_above d mw ez ew (ez - g) (ew - g));
    try assumption; try (unfold ez; lia). nia.
Qed.

(** The product of two aligned significands needs no alignment before it
    is rounded. *)
Lemma mul_aligned (mp mx : positive) (ep ex : Z) :
  aligned mp ep -> aligned mx ex ->
  ep + ex <= fexp (digits (mp * mx) + (ep + ex)).
Proof.
  unfold aligned, fexp. intros Hp Hx.
  pose proof (digits_mul mp mx). pose proof (digits_pos mp).
  pose proof (digits_pos mx). lia.
Qed.

Lemma fleb_negative (x : float) (mu : positive) (eu : Z) :
  signed true x -> fleb x (SpecFloat.S754_finite false mu eu) = true.
Proof.
  destruct x as [s|s| |s m e]; simpl; intros Hs; try contradiction.
  - reflexivity.
  - subst s. reflexivity.
  - destruct Hs as [-> _]. reflexivity.
Qed.

(** A positive number times a factor that is at most [mw * 2 ^ ew], when
    the product with that bound is at most the binary64 number
    [mu * 2 ^ eu]. *)
Lemma fmul_below (mp mw mu : positive) (ep ew eu a b : Z) (x : float) :
  canonical mp ep -> aligned mw ew -> canonical mu eu ->
  0 <= a -> 0 <= b -> ep + ew - a = eu - b ->
  Zpos mp * Zpos mw * 2 ^ a <= Zpos mu * 2 ^ b ->
  at_most mw ew x ->
  fleb (fmul (SpecFloat.S754_finite false mp ep) x)
       (SpecFloat.S754_finite false mu eu) = true.
Proof.
  intros Hp Hw Hu Ha Hb Hab Hle Hx.
  destruct x as [s|s| |[|] m e]; simpl in Hx; try contradiction.
  - reflexivity.
  - subst s. reflexivity.
  - apply fleb_negative. unfold fmul, SpecFloat.SFmul. cbn [xorb].
    apply round_aux_signed, mul_aligned; [apply Hp | apply Hx].
  - destruct Hx as [Hc Hord].
    destruct (aligned_order m mw e ew (proj1 Hc) Hw Hord) as [He Hm].
    unfold fmul, SpecFloat.SFmul. cbn [xorb].
    apply (round_below (mp * m) mu (ep + e) eu a (b + (ew - e)));
      try assumption; try lia.
    + rewrite Pos2Z.inj_mul, Z.pow_add_r by lia.
      assert (0 < 2 ^ a) by (apply Z.pow_pos_nonneg; lia).
      assert (0 < 2 ^ (ew - e)) by (apply Z.pow_pos_nonneg; lia).
      assert (Zpos mp * Zpos m * 2 ^ a
              <= Zpos mp * Zpos mw * 2 ^ a * 2 ^ (ew - e)) by nia.
      nia.
    + apply mul_aligned; [apply Hp | apply Hc].
Qed.

(** A positive number times a factor that is at least [mw * 2 ^ ew], when
    the product with that bound is at least [mu * 2 ^ eu]. *)
Lemma fmul_above (mp mw mu : positive) (ep ew eu a b : Z) (x : float) :
  canonical mp ep -> aligned mw ew -> aligned mu eu ->
  0 <= a -> 0 <= b -> ep + ew - a = eu - b ->
  Zpos mu * 2 ^ b <= Zpos mp * Zpos mw * 2 ^ a ->
  at_least mw ew x ->
  fleb (SpecFloat.S754_finite false mu eu)
       (fmul (SpecFloat.S754_finite false mp ep) x) = true.
Proof.
  intros Hp Hw Hu Ha Hb Hab Hle Hx.
  destruct x as [s|[|]| |[|] m e]; simpl in Hx; try contradiction.
  - reflexivity.
  - destruct Hx as [Hc Hord].
    assert (Hord' : ew < e \/ (ew = e /\ Zpos mw <= Zpos m)) by exact Hord.
    destruct (aligned_order mw m ew e Hw (proj1 Hc) Hord') as [He Hm].
    unfold fmul, SpecFloat.SFmul. cbn [xorb].
    apply (round_above (mp * m) mu (ep + e) eu (a + (e - ew)) b);
      try assumption; try lia.
    + rewrite Pos2Z.inj_mul, Z.pow_add_r by lia.
      assert (0 < 2 ^ a) by (apply Z.pow_pos_nonneg; lia).
      assert (0 < 2 ^ (e - ew)) by (apply Z.pow_pos_nonneg; lia).
      assert (Zpos mp * Zpos mw * 2 ^ a
              <= Zpos mp * (Zpos m * 2 ^ (e - ew)) * 2 ^ a) by nia.
      nia.
    + apply mul_aligned; [apply Hp | apply Hc].
Qed.

(** ** Strict order *)

Lemma fltb_finite (m1 m2 : positive) (e1 e2 : Z) :
  fltb (SpecFloat.S754_finite false m1 e1) (SpecFloat.S754_finite false m2 e2)
  = true
  <-> e1 < e2 \/ (e1 = e2 /\ Zpos m1 < Zpos m2).
Proof.
  unfold fltb, SpecFloat.SFltb, SpecFloat.SFcompare.
  change (Pos.compare_cont Eq m1 m2) with (Pos.compare m1 m2).
  destruct (Z.compare_spec e1 e2) as [He|He|He].
  - destruct (Pos.compare_spec m1 m2) as [Hm|Hm|Hm];
      (split; [intros H; try discriminate H; right; split; lia
              | intros [H|[_ H]]; try reflexivity; lia]).
  - split; [intros _; left; assumption | reflexivity].
  - split; [discriminate | lia].
Qed.

Lemma fleb_fltb (x : float) (mu mp : positive) (eu ep : Z) :
  fleb x (SpecFloat.S754_finite false mu eu) = true ->
  eu < ep \/ (eu = ep /\ Zpos mu < Zpos mp) ->
  fltb x (SpecFloat.S754_finite false mp ep) = true.
Proof.
  intros Hle Hlt. destruct x as [s|[|]| |[|] m e]; try reflexivity;
    try discriminate Hle.
  apply fleb_finite in Hle. apply fltb_finite. lia.
Qed.

Lemma fltb_fleb (y : float) (mu mp : positive) (eu ep : Z) :
  ep < eu \/ (ep = eu /\ Zpos mp < Zpos mu) ->
  fleb (SpecFloat.S754_finite false mu eu) y = true ->
  fltb (SpecFloat.S754_finite false mp ep) y = true.
Proof.
  intros Hlt Hle. destruct y as [s|[|]| |[|] m e]; try reflexivity;
    try discriminate Hle.
  apply fleb_finite in Hle. apply fltb_finite. lia.
Qed.

(** ** A price times one minus, or one plus, a percentage *)

Lemma positive_finite_canonical (x : float) :
  positive_finite x = true ->
  exists m e, x = SpecFloat.S754_finite false m e /\ canonical m e.
Proof.
  destruct x as [s|s| |[|] m e]; try discriminate. simpl.
  intros H. exists m, e. split; [reflexivity|]. apply bounded_canonical, H.
Qed.

Lemma one_aligned : aligned 4503599627370496 (-52).
Proof. reflexivity. Qed.

Lemma one_minus_below (ms : positive) (es : Z) :
  at_most 4503599627370496 (-52)
    (fsub (py_float 1) (SpecFloat.S754_finite false ms es)).
Proof.
  rewrite py_float_1.
  apply (fsub_below _ _ _ _ _ _ (Z.min (-52) es));
    [split; [exact one_aligned | lia] | lia | lia | lia |].
  assert (0 < 2 ^ (es - Z.min (-52) es)) by (apply Z.pow_pos_nonneg; lia). nia.
Qed.

Lemma one_plus_above (mt : positive) (et : Z) :
  at_least 4503599627370496 (-52)
    (fadd (py_float 1) (SpecFloat.S754_finite false mt et)).
Proof.
  rewrite py_float_1.
  apply (fadd_above _ _ _ _ _ _ (Z.min (-52) et));
    [exact one_aligned | lia | lia | lia |].
  assert (0 < 2 ^ (et - Z.min (-52) et)) by (apply Z.pow_pos_nonneg; lia). nia.
Qed.

(** A positive price times [1 - s] is not above the price, and times
    [1 + t] not below it, for positive percentages. *)
Lemma scaled_down (p s : float) :
  positive_finite p = true -> positive_finite s = true ->
  fleb (fmul p (fsub (py_float 1) s)) p = true.
Proof.
  intros Hp Hs.
  destruct (positive_finite_canonical p Hp) as (mp & ep & -> & Hcp).
  destruct (positive_finite_canonical s Hs) as (ms & es & -> & Hcs).
  apply (fmul_below mp 4503599627370496 mp ep (-52) ep 0 52);
    [assumption | exact one_aligned | assumption | lia | lia | lia | lia
    | apply one_minus_below].
Qed.

Lemma scaled_up (p t : float) :
  positive_finite p = true -> positive_finite t = true ->
  fleb p (fmul p (fadd (py_float 1) t)) = true.
Proof.
  intros Hp Ht.
  destruct (positive_finite_canonical p Hp) as (mp & ep & -> & Hcp).
  destruct (positive_finite_canonical t Ht) as (mt & et & -> & Hct).
  apply (fmul_above mp 4503599627370496 mp ep (-52) ep 0 52);
    [assumption | exact one_aligned | apply Hcp | lia | lia | lia | lia
    | apply one_plus_above].
Qed.

(** A percentage of at least [float_epsilon] changes 1.0. *)
Lemma epsilon_le (ms : positive) (es : Z) :
  canonical ms es ->
  fleb float_epsilon (SpecFloat.S754_finite false ms es) = true ->
  -104 <= es /\ 2 ^ 52 <= Zpos ms * 2 ^ (es + 104).
Proof.
  intros Hc Hle. apply fleb_finite in Hle.
  assert (He : aligned 4503599627370496 (-104)) by reflexivity.
  destruct (aligned_order _ _ _ _ He (proj1 Hc) Hle) as [H1 H2].
  split; [assumption|].
  replace (es + 104) with (es - -104) by lia. exact H2.
Qed.

Lemma one_minus_epsilon_below (ms : positive) (es : Z) :
  canonical ms es ->
  fleb float_epsilon (SpecFloat.S754_finite false ms es) = true ->
  at_most 9007199254740990 (-53)
    (fsub (py_float 1) (SpecFloat.S754_finite false ms es)).
Proof.
  intros Hc Hle. destruct (epsilon_le ms es Hc Hle) as [He Hm].
  rewrite py_float_1.
  apply (fsub_below _ _ _ _ _ _ (-104));
    [split; [reflexivity | lia] | lia | lia | lia |].
  replace (es - -104) with (es + 104) by lia.
  change (2 ^ (-52 - -104)) with (2 ^ 52).
  change (2 ^ (-53 - -104)) with (2 ^ 51).
  change (2 ^ 52) with 4503599627370496 in *.
  change (2 ^ 51) with 2251799813685248. lia.
Qed.

Lemma one_plus_epsilon_above (mt : positive) (et : Z) :
  canonical mt et ->
  fleb float_epsilon (SpecFloat.S754_finite false mt et) = true ->
  at_least 4503599627370497 (-52)
    (fadd (py_float 1) (SpecFloat.S754_finite false mt et)).
Proof.
  intros Hc Hle. destruct (epsilon_le mt et Hc Hle) as [He Hm].
  rewrite py_float_1.
  apply (fadd_above _ _ _ _ _ _ (-104)); [reflexivity | lia | lia | lia |].
  replace (et - -104) with (et + 104) by lia.
  change (2 ^ (-52 - -104)) with (2 ^ 52).
  change (2 ^ 52) with 4503599627370496 in *. lia.
Qed.

(** The significand of a float that is at least [float_min] has 53 bits. *)
Lemma float_min_le (mp : positive) (ep : Z) :
  canonical mp ep ->
  fleb float_min (SpecFloat.S754_finite false mp ep) = true ->
  2 ^ 52 <= Zpos mp /\ digits mp = 53.
Proof.
  intros Hc Hle. apply fleb_finite in Hle.
  assert (Hn : 2 ^ 52 <= Zpos mp).
  { destruct Hle as [Hlt|[_ Hm]]; [|exact Hm].
    apply (aligned_normal mp ep (proj1 Hc) Hlt). }
  split; [assumption|]. apply digits_unique.
  pose proof (aligned_below mp ep (proj1 Hc)).
  change (2 ^ (53 - 1)) with (2 ^ 52). lia.
Qed.

(** For a normal price and a percentage of at least [float_epsilon] the
    inequalities are strict. *)
Lemma scaled_strictly_down (p s : float) :
  positive_finite p = true -> fleb float_min p = true ->
  positive_finite s = true -> fleb float_epsilon s = true ->
  fltb (fmul p (fsub (py_float 1) s)) p = true.
Proof.
  intros Hp Hmin Hs Heps.
  destruct (positive_finite_canonical p Hp) as (mp & ep & -> & Hcp).
  destruct (positive_finite_canonical s Hs) as (ms & es & -> & Hcs).
  destruct (float_min_le mp ep Hcp Hmin) as [Hn Hd].
  pose proof (one_minus_epsilon_below ms es Hcs Heps) as Hx.
  pose proof (aligned_below mp ep (proj1 Hcp)) as Hb.
  pose proof Hcp as [Hap Hep]. unfold aligned in Hap. rewrite Hd in Hap.
  change (2 ^ 52) with 4503599627370496 in *.
  change (2 ^ 53) with 9007199254740992 in *.
  destruct (Z.eq_dec (Zpos mp) 4503599627370496) as [E|E].
  - assert (mp = 4503599627370496%positive) by (apply Pos2Z.inj; exact E).
    subst mp.
    destruct (Z.eq_dec ep (-1074)) as [->|Hne].
    + apply (fleb_fltb _ 4503599627370495 _ (-1074)); [|lia].
      apply (fmul_below _ 9007199254740990 _ _ (-53) _ 0 53);
        [assumption | reflexivity | split; [reflexivity | lia]
        | lia | lia | lia | reflexivity | assumption].
    + apply (fleb_fltb _ 9007199254740990 _ (ep - 1)); [|lia].
      apply (fmul_below _ 9007199254740990 _ _ (-53) _ 0 52);
        [assumption | reflexivity | | lia | lia | lia | reflexivity | assumption].
      split; [|lia]. unfold aligned.
      change (digits 9007199254740990) with 53. unfold fexp in *. lia.
  - assert (Hpred : Zpos (Pos.pred mp) = Zpos mp - 1)
      by (rewrite Pos2Z.inj_pred; lia).
    apply (fleb_fltb _ (Pos.pred mp) _ ep); [|lia].
    apply (fmul_below _ 9007199254740990 _ _ (-53) _ 0 53);
      [assumption | reflexivity | | lia | lia | lia | | assumption].
    + split; [|lia]. unfold aligned.
      rewrite (digits_unique (Pos.pred mp) 53)
        by (change (2 ^ (53 - 1)) with 4503599627370496;
            change (2 ^ 53) with 9007199254740992; lia).
      exact Hap.
    + rewrite Hpred. change (2 ^ 0) with 1.
      change (2 ^ 53) with 9007199254740992. lia.
Qed.

Lemma scaled_strictly_up (p t : float) :
  positive_finite p = true -> fleb float_min p = true ->
  positive_finite t = true -> fleb float_epsilon t = true ->
  fltb p (fmul p (fadd (py_float 1) t)) = true.
Proof.
  intros Hp Hmin Ht Heps.
  destruct (positive_finite_canonical p Hp) as (mp & ep & -> & Hcp).
  destruct (positive_finite_canonical t Ht) as (mt & et & -> & Hct).
  destruct (float_min_le mp ep Hcp Hmin) as [Hn Hd].
  pose proof (one_plus_epsilon_above mt et Hct Heps) as Hx.
  pose proof (aligned_below mp ep (proj1 Hcp)) as Hb.
  pose proof Hcp as [Hap Hep]. unfold aligned in Hap. rewrite Hd in Hap.
  change (2 ^ 52) with 4503599627370496 in *.
  change (2 ^ 53) with 9007199254740992 in *.
  destruct (Z.eq_dec (Zpos mp) 9007199254740991) as [E|E].
  - assert (mp = 9007199254740991%positive) by (apply Pos2Z.inj; exact E).
    subst mp.
    apply (fltb_fleb _ 4503599627370496 _ (ep + 1)); [lia|].
    apply (fmul_above _ 4503599627370497 _ _ (-52) _ 0 53);
      [assumption | reflexivity | | lia | lia | lia
      | vm_compute; discriminate | assumption].
    unfold aligned. change (digits 4503599627370496) with 53.
    unfold fexp in *. lia.
  - assert (Hsucc : Zpos (Pos.succ mp) = Zpos mp + 1) by lia.
    apply (fltb_fleb _ (Pos.succ mp) _ ep); [lia|].
    apply (fmul_above _ 4503599627370497 _ _ (-52) _ 0 52);
      [assumption | reflexivity | | lia | lia | lia | | assumption].
    + unfold aligned.
      rewrite (digits_unique (Pos.succ mp) 53)
        by (change (2 ^ (53 - 1)) with 4503599627370496;
            change (2 ^ 53) with 9007199254740992; lia).
      exact Hap.
    + rewrite Hsucc. change (2 ^ 0) with 1.
      change (2 ^ 52) with 4503599627370496. lia.
Qed.

(** ** Negation *)

Lemma round_aux_opp (s : bool) (m e : Z) (l : SpecFloat.location) :
  SpecFloat.binary_round_aux 53 1024 (negb s) m e l
  = fopp (SpecFloat.binary_round_aux 53 1024 s m e l).
Proof.
  unfold SpecFloat.binary_round_aux.
  destruct (SpecFloat.shr_fexp 53 1024 m e l) as [mrs' e'].
  destruct (SpecFloat.shr_fexp 53 1024 _ e' SpecFloat.loc_Exact) as [mrs'' e''].
  destruct (SpecFloat.shr_m mrs''); [reflexivity | | reflexivity].
  destruct (e'' <=? 1024 - 53); reflexivity.
Qed.

Lemma fmul_opp_l (x y : float) : fmul (fopp x) y = fopp (fmul x y).
Proof.
  destruct x as [sx|sx| |sx mx ex], y as [sy|sy| |sy my ey];
    try reflexivity;
    try (destruct sx, sy; reflexivity).
  unfold fmul, fopp at 1, SpecFloat.SFmul, SpecFloat.SFopp at 1.
  rewrite <- round_aux_opp. f_equal. destruct sx, sy; reflexivity.
Qed.

Lemma fmul_opp_r (x y : float) : fmul x (fopp y) = fopp (fmul x y).
Proof.
  destruct x as [sx|sx| |sx mx ex], y as [sy|sy| |sy my ey];
    try reflexivity;
    try (destruct sx, sy; reflexivity).
  unfold fmul, fopp at 1, SpecFloat.SFmul, SpecFloat.SFopp at 1.
  rewrite <- round_aux_opp. f_equal. destruct sx, sy; reflexivity.
Qed.

Lemma fdiv_opp_l (x y : float) : fdiv (fopp x) y = fopp (fdiv x y).
Proof.
  destruct x as [sx|sx| |sx mx ex], y as [sy|sy| |sy my ey];
    try reflexivity;
    try (destruct sx, sy; reflexivity).
  unfold fdiv, fopp at 1, SpecFloat.SFdiv, SpecFloat.SFopp at 1.
  destruct (SpecFloat.SFdiv_core_binary 53 1024 (Zpos mx) ex (Zpos my) ey)
    as [[mz ez] lz].
  rewrite <- round_aux_opp. f_equal. destruct sx, sy; reflexivity.
Qed.

(** ** Scaling by a power of two *)

Lemma zdigits_bounds (z : Z) :
  0 <= z ->
  0 <= SpecFloat.Zdigits2 z /\ z < 2 ^ SpecFloat.Zdigits2 z
  /\ (0 < z -> 2 ^ (SpecFloat.Zdigits2 z - 1) <= z).
Proof.
  intros Hz. destruct z as [|p|p]; [simpl; lia | | lia].
  pose proof (digits_bounds p) as [Hlo Hhi]. pose proof (digits_pos p).
  change (SpecFloat.Zdigits2 (Zpos p)) with (digits p). lia.
Qed.

Lemma zdigits_le (z : Z) (d : Z) :
  0 <= z -> 0 <= d -> z <= 2 ^ d -> SpecFloat.Zdigits2 z <= d + 1.
Proof.
  intros Hz Hd Hle. destruct (zdigits_bounds z Hz) as (H0 & _ & Hlo).
  destruct (Z.eq_dec z 0) as [->|Hnz]; [simpl; lia|].
  specialize (Hlo ltac:(lia)).
  destruct (Z_le_gt_dec (SpecFloat.Zdigits2 z) (d + 1)) as [|Hgt]; [assumption|].
  assert (2 ^ (d + 1) <= 2 ^ (SpecFloat.Zdigits2 z - 1))
    by (apply Z.pow_le_mono_r; lia).
  rewrite Z.pow_add_r in H by lia. change (2 ^ 1) with 2 in H.
  assert (0 < 2 ^ d) by (apply Z.pow_pos_nonneg; lia). lia.
Qed.

Lemma shr_1_m (mrs : SpecFloat.shr_record) :
  0 <= SpecFloat.shr_m mrs ->
  SpecFloat.shr_m (SpecFloat.shr_1 mrs) = SpecFloat.shr_m mrs / 2.
Proof.
  destruct mrs as [m r s]. cbn [SpecFloat.shr_m]. intros Hm.
  rewrite shr_1_spec by assumption. reflexivity.
Qed.

Lemma shr_iter_m (mrs : SpecFloat.shr_record) (k : nat) :
  0 <= SpecFloat.shr_m mrs ->
  SpecFloat.shr_m (Nat.iter k SpecFloat.shr_1 mrs)
  = SpecFloat.shr_m mrs / 2 ^ Z.of_nat k.
Proof.
  intros Hm. induction k as [|k IH].
  - simpl. rewrite Z.div_1_r. reflexivity.
  - rewrite Nat.iter_succ.
    assert (Hp : 0 < 2 ^ Z.of_nat k) by (apply Z.pow_pos_nonneg; lia).
    rewrite shr_1_m by (rewrite IH; apply Z.div_pos; lia).
    rewrite IH, Z.div_div by lia.
    rewrite Nat2Z.inj_succ, Z.pow_succ_r by lia. f_equal. lia.
Qed.

Lemma shr_m_spec (mrs : SpecFloat.shr_record) (e n : Z) :
  0 <= SpecFloat.shr_m mrs -> 0 < n ->
  SpecFloat.shr_m (fst (SpecFloat.shr mrs e n)) = SpecFloat.shr_m mrs / 2 ^ n
  /\ snd (SpecFloat.shr mrs e n) = e + n.
Proof.
  intros Hm Hn. destruct n as [|p|p]; try lia.
  unfold SpecFloat.shr. cbn [fst snd]. split; [|reflexivity].
  rewrite iter_pos_nat, shr_iter_m by assumption.
  f_equal. f_equal. lia.
Qed.

(** The same shift at another exponent. *)
Lemma shr_same (mrs : SpecFloat.shr_record) (e j n n' : Z) :
  n = n' \/ (n <= 0 /\ n' <= 0) ->
  SpecFloat.shr mrs (e + j) n'
  = (fst (SpecFloat.shr mrs e n), snd (SpecFloat.shr mrs e n) + j).
Proof.
  intros [<-|[Hn Hn']].
  - destruct n; unfold SpecFloat.shr; cbn [fst snd]; f_equal; lia.
  - rewrite !shr_kept by assumption. reflexivity.
Qed.

Lemma round_nearest_even_bounds (x : Z) (l : SpecFloat.location) :
  x <= SpecFloat.round_nearest_even x l <= x + 1.
Proof.
  destruct l as [|[| |]]; cbn [SpecFloat.round_nearest_even]; try lia.
  destruct (Z.even x); lia.
Qed.

Lemma shr_record_of_loc_m (m : Z) (l : SpecFloat.location) :
  SpecFloat.shr_m (SpecFloat.shr_record_of_loc m l) = m.
Proof. destruct l as [|[| |]]; reflexivity. Qed.

(** A rounded result above the subnormal range keeps its significand when
    [j] is added to the exponent before rounding, as long as the result
    stays in range. *)
Lemma round_aux_scaled (s : bool) (m e j : Z) (l : SpecFloat.location)
    (sx : bool) (mx : positive) (ex : Z) :
  0 <= m ->
  SpecFloat.binary_round_aux 53 1024 s m e l = SpecFloat.S754_finite sx mx ex ->
  -1074 < ex -> -1074 < ex + j -> ex + j <= 971 ->
  SpecFloat.binary_round_aux 53 1024 s m (e + j) l
  = SpecFloat.S754_finite sx mx (ex + j).
Proof.
  intros Hm Hres Hex Hexj Hmax.
  unfold SpecFloat.binary_round_aux, SpecFloat.shr_fexp in *.
  change (SpecFloat.fexp 53 1024) with fexp in *.
  set (D := SpecFloat.Zdigits2 m) in *.
  set (rec0 := SpecFloat.shr_record_of_loc m l) in *.
  set (n1 := fexp (D + e) - e) in *.
  assert (Hrec0 : SpecFloat.shr_m rec0 = m) by apply shr_record_of_loc_m.
  destruct (zdigits_bounds m Hm) as (HD0 & HDhi & HDlo). fold D in HD0, HDhi, HDlo.
  (* the first shift *)
  assert (H1 : (n1 <= 0 /\ SpecFloat.shr rec0 e n1 = (rec0, e))
               \/ (0 < n1
                   /\ SpecFloat.shr_m (fst (SpecFloat.shr rec0 e n1)) = m / 2 ^ n1
                   /\ snd (SpecFloat.shr rec0 e n1) = e + n1)).
  { destruct (Z_le_gt_dec n1 0) as [Hn|Hn].
    - left. split; [assumption | apply shr_kept; assumption].
    - right. split; [lia|].
      destruct (shr_m_spec rec0 e n1) as [A B];
        [rewrite Hrec0; assumption | lia |].
      rewrite Hrec0 in A. split; assumption. }
  destruct (SpecFloat.shr rec0 e n1) as [R1 e1] eqn:E1. cbn [fst snd] in H1.
  set (m1 := SpecFloat.round_nearest_even (SpecFloat.shr_m R1)
               (SpecFloat.loc_of_shr_record R1)) in *.
  pose proof (round_nearest_even_bounds (SpecFloat.shr_m R1)
                (SpecFloat.loc_of_shr_record R1)) as Hm1. fold m1 in Hm1.
  assert (HR1 : 0 <= SpecFloat.shr_m R1 < 2 ^ 53
                /\ (D + e - 53 < -1074 -> 0 < n1 -> SpecFloat.shr_m R1 < 2 ^ 52)).
  { destruct H1 as [[Hn Heq]|(Hn & Hq & He1)].
    - inversion Heq; subst R1 e1. rewrite Hrec0.
      assert (D <= 53) by (unfold n1, fexp in Hn; lia).
      assert (2 ^ D <= 2 ^ 53) by (apply Z.pow_le_mono_r; lia).
      split; [lia|]. intros _ Hc. lia.
    - rewrite Hq.
      assert (Hp : 0 < 2 ^ n1) by (apply Z.pow_pos_nonneg; lia).
      assert (Hge : D - 53 <= n1) by (unfold n1, fexp; lia).
      split; [split; [apply Z.div_pos; lia|]|].
      + apply Z.div_lt_upper_bound; [lia|]. rewrite <- Z.pow_add_r by lia.
        assert (2 ^ D <= 2 ^ (n1 + 53)) by (apply Z.pow_le_mono_r; lia). lia.
      + intros Hc _. assert (D - 52 <= n1) by (unfold n1, fexp; lia).
        apply Z.div_lt_upper_bound; [lia|]. rewrite <- Z.pow_add_r by lia.
        assert (2 ^ D <= 2 ^ (n1 + 52)) by (apply Z.pow_le_mono_r; lia). lia. }
  destruct HR1 as [HR1 Hclip].
  assert (Hm1pos : 0 <= m1) by lia.
  set (D1 := SpecFloat.Zdigits2 m1) in *.
  assert (HD1 : D1 <= 54) by (apply (zdigits_le m1 53); lia).
  assert (HD1c : D + e - 53 < -1074 -> 0 < n1 -> D1 <= 53).
  { intros Hc Hn. apply (zdigits_le m1 52); [lia | lia |].
    specialize (Hclip Hc Hn). lia. }
  cbn [SpecFloat.shr_record_of_loc] in *.
  set (rec1 := SpecFloat.Build_shr_record m1 false false) in *.
  set (n2 := fexp (D1 + e1) - e1) in *.
  assert (H2 : (n2 <= 0 /\ SpecFloat.shr rec1 e1 n2 = (rec1, e1))
               \/ (0 < n2 /\ snd (SpecFloat.shr rec1 e1 n2) = e1 + n2)).
  { destruct (Z_le_gt_dec n2 0) as [Hn|Hn].
    - left. split; [assumption | apply shr_kept; assumption].
    - right. split; [lia|]. apply shr_m_spec; [assumption | lia]. }
  destruct (SpecFloat.shr rec1 e1 n2) as [R2 e2] eqn:E2. cbn [fst snd] in H2.
  assert (Hfin : e2 = ex).
  { destruct (SpecFloat.shr_m R2); try discriminate Hres.
    destruct (e2 <=? 1024 - 53); [|discriminate Hres].
    inversion Hres. reflexivity. }
  (* the two shifts are the same after scaling *)
  assert (He1 : e1 = e + Z.max n1 0) by (destruct H1 as [[? Heq]|(? & _ & ?)];
    [inversion Heq|]; lia).
  assert (He2 : e2 = e1 + Z.max n2 0) by (destruct H2 as [[? Heq]|(? & ?)];
    [inversion Heq|]; lia).
  assert (S1 : n1 = fexp (D + (e + j)) - (e + j)
               \/ (n1 <= 0 /\ fexp (D + (e + j)) - (e + j) <= 0)).
  { unfold n1, n2, fexp in *.
    destruct (Z_le_gt_dec n1 0) as [Hn|Hn]; unfold n1, fexp in Hn; [right|left].
    - lia.
    - destruct (Z_lt_le_dec (D + e - 53) (-1074)) as [Hc|Hc].
      + specialize (HD1c Hc ltac:(unfold n1, fexp; lia)). lia.
      + lia. }
  rewrite (shr_same rec0 e j n1 _ S1), E1. cbn [fst snd].
  fold m1. fold D1. fold rec1.
  assert (S2 : n2 = fexp (D1 + (e1 + j)) - (e1 + j)
               \/ (n2 <= 0 /\ fexp (D1 + (e1 + j)) - (e1 + j) <= 0)).
  { unfold n2, fexp in *. lia. }
  rewrite (shr_same rec1 e1 j n2 _ S2), E2. cbn [fst snd].
  destruct (SpecFloat.shr_m R2); try discriminate Hres.
  change (1024 - 53) with 971 in *.
  destruct (Z.leb_spec e2 971); [|discriminate Hres].
  injection Hres as -> -> _.
  rewrite Hfin.
  destruct (Z.leb_spec (ex + j) 971); [reflexivity | lia].
Qed.

Lemma scalable_spec (j : Z) (x : float) :
  scalable j x = true ->
  exists s m e, x = SpecFloat.S754_finite s m e /\ canonical m e
                /\ digits m = 53 /\ -1067 <= e /\ -1067 <= e + j <= 971.
Proof.
  destruct x as [s|s| |s m e]; try discriminate. unfold scalable.
  rewrite !andb_true_iff, Z.eqb_eq, !Z.leb_le.
  intros ((((Hb & Hd) & He) & Hj) & Hm).
  exists s, m, e. split; [reflexivity|].
  split; [apply bounded_canonical, Hb|]. unfold digits. lia.
Qed.

(** Multiplying a normal float by [2.0 ** j] adds [j] to its exponent. *)
Lemma fmul_pow2 (j : Z) (s : bool) (m : positive) (e : Z) :
  digits m = 53 -> -1074 <= e + j -> e + j <= 971 ->
  fmul (pow2 j) (SpecFloat.S754_finite s m e)
  = SpecFloat.S754_finite s m (e + j).
Proof.
  intros Hd Hlo Hhi. unfold fmul, pow2, SpecFloat.SFmul. cbn [xorb].
  assert (HM : Zpos (4503599627370496 * m) = Zpos m * 2 ^ 52)
    by (rewrite Pos2Z.inj_mul; change (2 ^ 52) with 4503599627370496; lia).
  assert (HD : digits (4503599627370496 * m) = 105)
    by (rewrite (digits_pow2 m 52 _ ltac:(lia) HM); lia).
  assert (Hf : fexp (digits (4503599627370496 * m) + (j - 52 + e)) = e + j)
    by (rewrite HD; unfold fexp; lia).
  rewrite round_aux_shifted by (rewrite Hf; lia).
  rewrite Hf. replace (e + j - (j - 52 + e)) with 52 by lia.
  rewrite rne_exact by (lia || (rewrite HM; apply Z.mod_mul; lia)).
  rewrite HM, Z.div_mul by lia.
  pose proof (digits_bounds m) as [_ Hb]. rewrite Hd in Hb.
  unfold pack. destruct (Z.ltb_spec (Zpos m) (2 ^ 53)); [|lia].
  destruct (Z.leb_spec (e + j) 971); [reflexivity | lia].
Qed.

Lemma fmul_scaled_l (sb : bool) (mb : positive) (eb j : Z) (q : float)
    (sx : bool) (mx : positive) (ex : Z) :
  fmul (SpecFloat.S754_finite sb mb eb) q = SpecFloat.S754_finite sx mx ex ->
  -1074 < ex -> -1074 < ex + j -> ex + j <= 971 ->
  fmul (SpecFloat.S754_finite sb mb (eb + j)) q
  = SpecFloat.S754_finite sx mx (ex + j).
Proof.
  intros Hres H1 H2 H3. destruct q as [sq|sq| |sq mq eq]; try discriminate Hres.
  unfold fmul, SpecFloat.SFmul in *.
  replace (eb + j + eq) with (eb + eq + j) by lia.
  apply round_aux_scaled; (assumption || lia).
Qed.

Lemma fmul_scaled_r (b : float) (sq : bool) (mq : positive) (eq j : Z)
    (sx : bool) (mx : positive) (ex : Z) :
  fmul b (SpecFloat.S754_finite sq mq eq) = SpecFloat.S754_finite sx mx ex ->
  -1074 < ex -> -1074 < ex + j -> ex + j <= 971 ->
  fmul b (SpecFloat.S754_finite sq mq (eq + j))
  = SpecFloat.S754_finite sx mx (ex + j).
Proof.
  intros Hres H1 H2 H3. destruct b as [sb|sb| |sb mb eb]; try discriminate Hres.
  unfold fmul, SpecFloat.SFmul in *.
  replace (eb + (eq + j)) with (eb + eq + j) by lia.
  apply round_aux_scaled; (assumption || lia).
Qed.

(** The quotient before rounding, when [j] is added to the exponent of the
    dividend and neither quotient falls in the subnormal range. *)
Lemma div_core_scaled (m1 m2 : positive) (e1 e2 j : Z) :
  -1021 <= digits m1 + e1 - (digits m2 + e2) ->
  -1021 <= digits m1 + e1 - (digits m2 + e2) + j ->
  exists (q e' : Z) (l : SpecFloat.location),
    0 <= q
    /\ SpecFloat.SFdiv_core_binary 53 1024 (Zpos m1) e1 (Zpos m2) e2 = (q, e', l)
    /\ SpecFloat.SFdiv_core_binary 53 1024 (Zpos m1) (e1 + j) (Zpos m2) e2
       = (q, e' + j, l).
Proof.
  intros Hx Hxj. unfold SpecFloat.SFdiv_core_binary.
  change (SpecFloat.fexp 53 1024) with fexp.
  change (SpecFloat.Zdigits2 (Zpos m1)) with (digits m1).
  change (SpecFloat.Zdigits2 (Zpos m2)) with (digits m2).
  set (e' := Z.min (fexp (digits m1 + e1 - (digits m2 + e2))) (e1 - e2)).
  replace (Z.min (fexp (digits m1 + (e1 + j) - (digits m2 + e2))) (e1 + j - e2))
    with (e' + j) by (unfold e', fexp; lia).
  replace (e1 + j - e2 - (e' + j)) with (e1 - e2 - e') by lia.
  set (m' := match e1 - e2 - e' with
             | 0 => Zpos m1
             | Zpos _ => Z.shiftl (Zpos m1) (e1 - e2 - e')
             | Zneg _ => 0
             end).
  assert (Hm' : 0 <= m').
  { unfold m'. destruct (e1 - e2 - e'); try lia. apply Z.shiftl_nonneg. lia. }
  pose proof (Z.div_pos m' (Zpos m2) Hm' ltac:(lia)) as Hq.
  unfold Z.div in Hq.
  destruct (Z.div_eucl m' (Zpos m2)) as [q r].
  exists q, e', (SpecFloat.new_location (Zpos m2) r).
  split; [assumption|]. split; reflexivity.
Qed.

Lemma fdiv_scaled (sr : bool) (mr : positive) (er j : Z)
    (sc : bool) (mc : positive) (ec : Z)
    (sq : bool) (mq : positive) (eq : Z) :
  -1021 <= digits mr + er - (digits mc + ec) ->
  -1021 <= digits mr + er - (digits mc + ec) + j ->
  fdiv (SpecFloat.S754_finite sr mr er) (SpecFloat.S754_finite sc mc ec)
  = SpecFloat.S754_finite sq mq eq ->
  -1074 < eq -> -1074 < eq + j -> eq + j <= 971 ->
  fdiv (SpecFloat.S754_finite sr mr (er + j)) (SpecFloat.S754_finite sc mc ec)
  = SpecFloat.S754_finite sq mq (eq + j).
Proof.
  intros Hx Hxj Hres H1 H2 H3.
  destruct (div_core_scaled mr mc er ec j Hx Hxj) as (q & e' & l & Hq & E & Ej).
  unfold fdiv, SpecFloat.SFdiv in *. rewrite E in Hres. rewrite Ej.
  apply round_aux_scaled; assumption.
Qed.

Lemma py_float_100 :
  py_float 100 = SpecFloat.S754_finite false 7036874417766400 (-46).
Proof. vm_compute. reflexivity. Qed.

(** A product whose first factor is multiplied by [2.0 ** j]. *)
Lemma fmul_pow2_l (j : Z) (b q : float) :
  scalable j b = true -> scalable j (fmul b q) = true ->
  fmul (fmul (pow2 j) b) q = fmul (pow2 j) (fmul b q).
Proof.
  intros Hb Hx.
  destruct (scalable_spec j b Hb) as (sb & mb & eb & -> & _ & Hdb & Hb1 & Hb2).
  destruct (scalable_spec j _ Hx) as (sx & mx & ex & Ex & _ & Hdx & Hx1 & Hx2).
  rewrite Ex, !fmul_pow2 by lia.
  apply fmul_scaled_l; (assumption || lia).
Qed.

(** A product whose second factor is the quotient by 100 of a number
    multiplied by [2.0 ** j]. *)
Lemma fmul_fdiv_pow2 (j : Z) (b r : float) :
  scalable j r = true -> scalable j (fdiv r (py_float 100)) = true ->
  scalable j (fmul b (fdiv r (py_float 100))) = true ->
  fmul b (fdiv (fmul (pow2 j) r) (py_float 100))
  = fmul (pow2 j) (fmul b (fdiv r (py_float 100))).
Proof.
  intros Hr Hq Hx.
  destruct (scalable_spec j r Hr) as (sr & mr & er & -> & _ & Hdr & Hr1 & Hr2).
  destruct (scalable_spec j _ Hq) as (sq & mq & eq & Eq & _ & Hdq & Hq1 & Hq2).
  destruct (scalable_spec j _ Hx) as (sx & mx & ex & Ex & _ & Hdx & Hx1 & Hx2).
  rewrite Ex, !fmul_pow2 by lia.
  rewrite py_float_100 in *.
  rewrite (fdiv_scaled sr mr er j false 7036874417766400 (-46) sq mq eq);
    [| change (digits 7036874417766400) with 53; lia
     | change (digits 7036874417766400) with 53; lia
     | assumption | lia | lia | lia].
  rewrite Eq in Ex.
  apply fmul_scaled_r; (assumption || lia).
Qed.

End Rounding.

(** * Position sizing and risk levels *)

(** C6, as the code has it.  The position size is the balance times a
    hundredth of the risk percentage, evaluated in binary64: the quotient
    [risk_percent / 100] is rounded, then the product is rounded.  The size
    is not linear, but two cases of linearity are exact: negating either
    argument negates the size, and multiplying either argument by a power
    of two multiplies the size by it, as long as the numbers involved are
    normal floats and stay in range. *)
Theorem calculate_position_size_scaling (b r : float) :
  calculate_position_size b r = fmul b (fdiv r (py_float 100))
  /\ calculate_position_size (fopp b) r = fopp (calculate_position_size b r)
  /\ calculate_position_size b (fopp r) = fopp (calculate_position_size b r)
  /\ (forall j : Z, (-1022 <= j <= 1023)%Z ->
        scalable j (calculate_position_size b r) = true ->
        (scalable j b = true ->
         calculate_position_size (fmul (pow2 j) b) r
         = fmul (pow2 j) (calculate_position_size b r))
        /\ (scalable j r = true ->
            scalable j (fdiv r (py_float 100)) = true ->
            calculate_position_size b (fmul (pow2 j) r)
            = fmul (pow2 j) (calculate_position_size b r))).
Proof.
  unfold calculate_position_size.
  split; [reflexivity|].
  split; [apply fmul_opp_l|].
  split; [rewrite fdiv_opp_l; apply fmul_opp_r|].
  intros j _ Hx. split.
  - intros Hb. apply fmul_pow2_l; assumption.
  - intros Hr Hq. apply fmul_fdiv_pow2; assumption.
Qed.

Lemma calculate_position_size_scaling_witness :
  calculate_position_size (fmul (pow2 3) (py_float 3)) (py_float 10)
  = fmul (pow2 3) (calculate_position_size (py_float 3) (py_float 10))
  /\ calculate_position_size (py_float 3) (fmul (pow2 3) (py_float 10))
     = fmul (pow2 3) (calculate_position_size (py_float 3) (py_float 10)).
Proof.
  destruct (calculate_position_size_scaling (py_float 3) (py_float 10))
    as (_ & _ & _ & H).
  destruct (H 3%Z) as [Hb Hr]; [lia | vm_compute; reflexivity |].
  split; [apply Hb | apply Hr]; vm_compute; reflexivity.
Defined.

(** C6 as stated fails.  The size for a balance of 3 at 10 percent is
    0.30000000000000004, not 3/10; and tripling the balance gives 0.9 where
    three times the size gives 0.9000000000000001.  The factor 3 is not a
    power of two. *)
Lemma calculate_position_size_counterexample :
  calculate_position_size (py_float 3) (py_float 10)
  = B64.finite 5404319552844596 (-54)
  /\ ~ exact (calculate_position_size (py_float 3) (py_float 10))
       == exact (py_float 3) * (exact (py_float 10) / 100)
  /\ calculate_position_size (fmul (py_float 3) (py_float 3)) (py_float 10)
     = B64.finite 8106479329266893 (-53)
  /\ fmul (py_float 3) (calculate_position_size (py_float 3) (py_float 10))
     = B64.finite 8106479329266894 (-53)
  /\ calculate_position_size (fmul (py_float 3) (py_float 3)) (py_float 10)
     <> fmul (py_float 3) (calculate_position_size (py_float 3) (py_float 10)).
Proof.
  split; [vm_compute; reflexivity|].
  split; [vm_compute; discriminate|].
  split; [vm_compute; reflexivity|].
  split; [vm_compute; reflexivity|].
  vm_compute. discriminate.
Qed.

Example calculate_position_size_default :
  calculate_position_size (py_float 10000) (RISK_PERCENT default_config)
  = py_float 100.
Proof. vm_compute. reflexivity. Qed.

(** C7, as the code has it.  A buy gets its stop-loss at p*(1-s) and its
    take-profit at p*(1+t), a sell (and any direction other than ['buy'])
    its stop-loss at p*(1+s) and its take-profit at p*(1-t), each evaluated
    in binary64: the sum or the difference is rounded, then the product is
    rounded.  For a positive finite price and positive finite percentages
    no level lies on the wrong side of the price: sl <= p <= tp for a buy
    and tp <= p <= sl for a sell.  The inequalities are strict when the
    price is a normal float (at least [float_min]) and both percentages are
    at least [float_epsilon]. *)
Theorem set_stop_loss_and_take_profit_levels (p s t : float) :
  let buy := set_stop_loss_and_take_profit p "buy" s t in
  let sell := set_stop_loss_and_take_profit p "sell" s t in
  buy = (fmul p (fsub (py_float 1) s), fmul p (fadd (py_float 1) t))
  /\ sell = (fmul p (fadd (py_float 1) s), fmul p (fsub (py_float 1) t))
  /\ (forall direction, String.eqb direction "buy" = false ->
      set_stop_loss_and_take_profit p direction s t = sell)
  /\ (positive_finite p = true -> positive_finite s = true ->
      positive_finite t = true ->
      (fleb (fst buy) p = true /\ fleb p (snd buy) = true)
      /\ (fleb (snd sell) p = true /\ fleb p (fst sell) = true)
      /\ (fleb float_min p = true -> fleb float_epsilon s = true ->
          fleb float_epsilon t = true ->
          (fltb (fst buy) p = true /\ fltb p (snd buy) = true)
          /\ (fltb (snd sell) p = true /\ fltb p (fst sell) = true))).
Proof.
  cbv zeta. split; [reflexivity|]. split; [reflexivity|].
  split; [intros direction Hd; unfold set_stop_loss_and_take_profit;
          rewrite Hd; reflexivity|].
  intros Hp Hs Ht.
  change (set_stop_loss_and_take_profit p "buy" s t)
    with (fmul p (fsub (py_float 1) s), fmul p (fadd (py_float 1) t)).
  change (set_stop_loss_and_take_profit p "sell" s t)
    with (fmul p (fadd (py_float 1) s), fmul p (fsub (py_float 1) t)).
  cbn [fst snd].
  split; [split; [apply scaled_down | apply scaled_up]; assumption|].
  split; [split; [apply scaled_down | apply scaled_up]; assumption|].
  intros Hmin Hes Het.
  split; (split; [apply scaled_strictly_down | apply scaled_strictly_up]);
    assumption.
Qed.

Lemma set_stop_loss_and_take_profit_levels_witness :
  let p := py_float 100 in
  let buy := set_stop_loss_and_take_profit p "buy"
               (STOP_LOSS_PERCENT default_config)
               (TAKE_PROFIT_PERCENT default_config) in
  let sell := set_stop_loss_and_take_profit p "sell"
                (STOP_LOSS_PERCENT default_config)
                (TAKE_PROFIT_PERCENT default_config) in
  (fltb (fst buy) p = true /\ fltb p (snd buy) = true)
  /\ (fltb (snd sell) p = true /\ fltb p (fst sell) = true).
Proof.
  cbv zeta.
  destruct (set_stop_loss_and_take_profit_levels (py_float 100)
              (STOP_LOSS_PERCENT default_config)
              (TAKE_PROFIT_PERCENT default_config)) as (_ & _ & _ & H).
  destruct H as (_ & _ & H); [vm_compute; reflexivity ..|].
  apply H; vm_compute; reflexivity.
Defined.

Example set_stop_loss_and_take_profit_default :
  set_stop_loss_and_take_profit (py_float 100) "buy"
    (STOP_LOSS_PERCENT default_config) (TAKE_PROFIT_PERCENT default_config)
  = (py_float 98, py_float 104).
Proof. vm_compute. reflexivity. Qed.

(** C7 as stated fails.  The entry price 1.1 and the percentages 1e-17 are
    positive, but 1 - 1e-17 and 1 + 1e-17 round to 1: stop-loss and
    take-profit both equal the entry price, for a buy and for a sell.  The
    percentage is below [float_epsilon]. *)
Lemma set_stop_loss_and_take_profit_counterexample :
  let p := py_float 1.1 in
  let tiny := B64.finite 6490371073168535 (-109) in
  positive_finite p = true
  /\ positive_finite tiny = true
  /\ fltb (py_float 0) p = true
  /\ fltb (py_float 0) tiny = true
  /\ fleb float_epsilon tiny = false
  /\ set_stop_loss_and_take_profit p "buy" tiny tiny = (p, p)
  /\ set_stop_loss_and_take_profit p "sell" tiny tiny = (p, p)
  /\ fltb p p = false.
Proof. vm_compute. repeat split. Qed.

(** * Break-even adjustment *)

Lemma requests_of_app (a b : list Event) :
  requests_of (a ++ b) = requests_of a ++ requests_of b.
Proof.
  induction a as [|e a IH]; [reflexivity|].
  destruct e; simpl; now rewrite IH.
Qed.

Lemma positive_not_zero (v : float) :
  fltb (py_float 0) v = true -> feqb v (py_float 0) = false.
Proof.
  rewrite py_float_0. destruct v as [[|]|[|]| |[|] m e]; cbn; congruence.
Qed.

Section BreakEven.

Context {W : Type} {T : Terminal W}.

(** [adjust_stop_loss] on a position of non-zero volume, case by case on
    the test and on the answer of the terminal. *)
Lemma adjust_stop_loss_eval (p : Position) (s : St W) :
  feqb (volume p) (py_float 0) = false ->
  adjust_stop_loss p s =
  if fleb (fmul (price_open p) (py_float 0.02)) (fdiv (profit p) (volume p)) then
    let request := TRADE_ACTION_SLTP (ticket p) (price_open p) in
    let (w, answer) := order_send request (world s) in
    match answer with
    | None => (mk_st w (trace s ++ [Sent request]), Raise AttributeError)
    | Some r =>
        (mk_st w (trace s ++ [Sent request;
                              if (retcode r =? TRADE_RETCODE_DONE)%Z
                              then Log INFO (MsgStopLossMoved (ticket p))
                              else Log ERROR (MsgStopLossFailed (ticket p)
                                                (retcode r))]),
         Ok tt)
    end
  else (s, Ok tt).
Proof.
  intros Hz. unfold adjust_stop_loss, py_div. rewrite Hz.
  unfold bind at 1. unfold lift at 1. cbv beta iota.
  destruct (fleb (fmul (price_open p) (py_float 0.02))
                 (fdiv (profit p) (volume p))); [|reflexivity].
  cbv zeta.
  unfold send, emit, call, modify, log, emit, modify, bind, ret, raise.
  cbn [world trace].
  destruct (order_send (TRADE_ACTION_SLTP (ticket p) (price_open p)) (world s))
    as [w [r|]]; [|reflexivity].
  destruct (retcode r =? TRADE_RETCODE_DONE)%Z; cbn [negb world trace];
    now rewrite <- app_assoc.
Qed.

End BreakEven.

(** C8, as the code has it.  For a position with positive volume,
    [adjust_stop_loss] decides in binary64: it compares the rounded quotient
    of profit by volume with the rounded product of the entry price and
    0.02.  When the quotient is greater than or equal to the product it
    hands the terminal one request, the stop-loss change to the entry
    price, and logs the outcome of an answered request; when it is not,
    nothing is sent and nothing changes. *)
Theorem adjust_stop_loss_break_even
    {W : Type} {T : Terminal W} (s : St W) (p : Position) :
  fltb (py_float 0) (volume p) = true ->
  let request := TRADE_ACTION_SLTP (ticket p) (price_open p) in
  let due := fleb (fmul (price_open p) (py_float 0.02))
                  (fdiv (profit p) (volume p)) in
  (due = true ->
   adjust_stop_loss p s =
   (let (w, answer) := order_send request (world s) in
    match answer with
    | None => (mk_st w (trace s ++ [Sent request]), Raise AttributeError)
    | Some r =>
        (mk_st w (trace s ++ [Sent request;
                              if (retcode r =? TRADE_RETCODE_DONE)%Z
                              then Log INFO (MsgStopLossMoved (ticket p))
                              else Log ERROR (MsgStopLossFailed (ticket p)
                                                (retcode r))]),
         Ok tt)
    end))
  /\ (due = false -> adjust_stop_loss p s = (s, Ok tt)).
Proof.
  intros Hv. cbv zeta.
  rewrite (adjust_stop_loss_eval p s (positive_not_zero _ Hv)).
  split; intros ->; reflexivity.
Qed.

Lemma adjust_stop_loss_break_even_witness :
  let at_threshold :=
    {| ticket := 7; volume := py_float 1; price_open := py_float 100;
       profit := py_float 2 |} in
  let below :=
    {| ticket := 8; volume := py_float 1; price_open := py_float 100;
       profit := py_float 1.99 |} in
  adjust_stop_loss at_threshold Desk.start
  = (mk_st tt [Sent (TRADE_ACTION_SLTP 7 (py_float 100));
               Log INFO (MsgStopLossMoved 7)],
     Ok tt)
  /\ adjust_stop_loss below Desk.start = (Desk.start, Ok tt).
Proof.
  cbv zeta. split.
  - exact (proj1 (adjust_stop_loss_break_even (T := Desk.terminal) Desk.start
                    {| ticket := 7; volume := py_float 1;
                       price_open := py_float 100; profit := py_float 2 |}
                    eq_refl) eq_refl).
  - exact (proj2 (adjust_stop_loss_break_even (T := Desk.terminal) Desk.start
                    {| ticket := 8; volume := py_float 1;
                       price_open := py_float 100; profit := py_float 1.99 |}
                    eq_refl) eq_refl).
Defined.

(** C8 as stated fails.  For an entry price of 3, a volume of 1 and a
    profit of 0.06, the exact profit per unit of volume is below exactly 2%
    of the entry price, because the float 0.06 lies below 6/100; the rounded
    product 3 * 0.02 is that same float, the test holds, and the stop-loss
    change is sent. *)
Lemma adjust_stop_loss_counterexample :
  let p := {| ticket := 1; volume := py_float 1; price_open := py_float 3;
              profit := py_float 0.06 |} in
  exact (profit p) / exact (volume p) < (2 # 100) * exact (price_open p)
  /\ fmul (price_open p) (py_float 0.02) = py_float 0.06
  /\ adjust_stop_loss p Desk.start
     = (mk_st tt [Sent (TRADE_ACTION_SLTP 1 (py_float 3));
                  Log INFO (MsgStopLossMoved 1)],
        Ok tt).
Proof.
  cbv zeta. split; [vm_compute; reflexivity|].
  split; vm_compute; reflexivity.
Qed.

(** * Trading hours *)

(** On well-formed times the field-by-field order is the order of the
    position in the day. *)
Lemma time_le_micros (a b : dt_time) :
  valid_time a -> valid_time b ->
  (time_le a b = true <-> (micros a <= micros b)%Z).
Proof.
  destruct a as [h1 m1 s1 u1], b as [h2 m2 s2 u2].
  unfold valid_time, time_le, time_compare, micros. cbn [hour minute second microsecond].
  intros (Hh1 & Hm1 & Hs1 & Hu1) (Hh2 & Hm2 & Hs2 & Hu2).
  destruct (Z.compare_spec h1 h2); [|split; [lia | reflexivity]|split; [discriminate | lia]].
  destruct (Z.compare_spec m1 m2); [|split; [lia | reflexivity]|split; [discriminate | lia]].
  destruct (Z.compare_spec s1 s2); [|split; [lia | reflexivity]|split; [discriminate | lia]].
  destruct (Z.compare_spec u1 u2); split; try reflexivity; try discriminate; lia.
Qed.

(** C9.  The trading-hours check reads the clock once and answers true
    exactly when the time of day lies between 08:00 and 12:00, both ends
    included. *)
Theorem is_within_trading_hours_inclusive
    {W : Type} {T : Terminal W} (s : St W) :
  let now := snd (clock_now (world s)) in
  valid_time now ->
  exists b : bool,
    is_within_trading_hours s = (mk_st (fst (clock_now (world s))) (trace s), Ok b)
    /\ (b = true <->
        (micros (mk_time 8 0 0 0) <= micros now <= micros (mk_time 12 0 0 0))%Z).
Proof.
  intros now Hvalid. subst now.
  unfold is_within_trading_hours, bind, call, ret.
  destruct (clock_now (world s)) as [w now]. cbn [fst snd] in *.
  eexists. split; [reflexivity|].
  rewrite andb_true_iff.
  assert (V8 : valid_time (mk_time 8 0 0 0)) by (unfold valid_time; simpl; lia).
  assert (V12 : valid_time (mk_time 12 0 0 0)) by (unfold valid_time; simpl; lia).
  rewrite (time_le_micros _ _ V8 Hvalid), (time_le_micros _ _ Hvalid V12).
  reflexivity.
Qed.

Lemma is_within_trading_hours_inclusive_witness :
  (snd (is_within_trading_hours (sim_state (Sim.quiet (mk_time 8 0 0 0)))) = Ok true
   /\ snd (is_within_trading_hours (sim_state (Sim.quiet (mk_time 12 0 0 0)))) = Ok true)
  /\ (snd (is_within_trading_hours (sim_state (Sim.quiet (mk_time 7 59 59 999999))))
      = Ok false
      /\ snd (is_within_trading_hours (sim_state (Sim.quiet (mk_time 12 0 0 1))))
         = Ok false).
Proof.
  assert (V1 : valid_time (mk_time 8 0 0 0)) by (unfold valid_time; simpl; lia).
  assert (V2 : valid_time (mk_time 12 0 0 0)) by (unfold valid_time; simpl; lia).
  assert (V3 : valid_time (mk_time 7 59 59 999999)) by (unfold valid_time; simpl; lia).
  assert (V4 : valid_time (mk_time 12 0 0 1)) by (unfold valid_time; simpl; lia).
  split; split.
  - destruct (is_within_trading_hours_inclusive (T := Sim.terminal)
                (sim_state (Sim.quiet (mk_time 8 0 0 0))) V1) as (b & E & Hb).
    rewrite E. cbn [snd]. f_equal. apply Hb. unfold micros; simpl; lia.
  - destruct (is_within_trading_hours_inclusive (T := Sim.terminal)
                (sim_state (Sim.quiet (mk_time 12 0 0 0))) V2) as (b & E & Hb).
    rewrite E. cbn [snd]. f_equal. apply Hb. unfold micros; simpl; lia.
  - destruct (is_within_trading_hours_inclusive (T := Sim.terminal)
                (sim_state (Sim.quiet (mk_time 7 59 59 999999))) V3) as (b & E & Hb).
    rewrite E. cbn [snd]. f_equal. destruct b; [|reflexivity].
    exfalso. destruct Hb as [Hb _]. specialize (Hb eq_refl).
    unfold micros in Hb; simpl in Hb; lia.
  - destruct (is_within_trading_hours_inclusive (T := Sim.terminal)
                (sim_state (Sim.quiet (mk_time 12 0 0 1))) V4) as (b & E & Hb).
    rewrite E. cbn [snd]. f_equal. destruct b; [|reflexivity].
    exfalso. destruct Hb as [Hb _]. specialize (Hb eq_refl).
    unfold micros in Hb; simpl in Hb; lia.
Defined.

(** * The control loop *)

Section ControlLoop.

Context {W : Type} {T : Terminal W}.
Variable cfg : Config.

Lemma is_within_trading_hours_state (s : St W) :
  fst (is_within_trading_hours s) = mk_st (fst (clock_now (world s))) (trace s).
Proof.
  unfold is_within_trading_hours, bind, call, ret.
  destruct (clock_now (world s)) as [w now]. reflexivity.
Qed.

(** The [try] block when the account information cannot be read. *)
Lemma try_block_account_info_failure (s : St W) :
  snd (is_within_trading_hours s) = Ok true ->
  snd (account_info (fst (clock_now (world s)))) = None ->
  try_block cfg s =
  (mk_st (fst (account_info (fst (clock_now (world s)))))
         (trace s ++ [Log ERROR MsgAccountInfoFailed]),
   Ok tt).
Proof.
  intros Hin Hacc. unfold try_block. unfold bind at 1.
  pose proof (is_within_trading_hours_state s) as Hst.
  destruct (is_within_trading_hours s) as [s1 [b|e]]; cbn [fst snd] in *;
    [|discriminate].
  injection Hin as ->. subst s1.
  unfold bind at 1. unfold trading_block. unfold bind at 1. unfold call at 1.
  cbn [world trace].
  destruct (account_info (fst (clock_now (world s)))) as [w2 info].
  cbn [fst snd] in *. subst info.
  reflexivity.
Qed.

End ControlLoop.

(** C10.  During trading hours, when the account information cannot be
    read, one pass of the loop reads the clock, asks for the account
    information, logs the error and ends there: nothing else is asked of the
    terminal (no position is re-evaluated), nothing is slept, and the next
    pass starts from that state. *)
Theorem account_info_failure_restarts_cycle
    {W : Type} {T : Terminal W} (cfg : Config) (s : St W) (n : nat) :
  snd (is_within_trading_hours s) = Ok true ->
  snd (account_info (fst (clock_now (world s)))) = None ->
  let s' := mk_st (fst (account_info (fst (clock_now (world s)))))
                  (trace s ++ [Log ERROR MsgAccountInfoFailed]) in
  cycle cfg s = (s', Ok tt)
  /\ main_loop cfg (S n) s = main_loop cfg n s'.
Proof.
  intros Hin Hacc s'.
  assert (Hc : cycle cfg s = (s', Ok tt)).
  { unfold cycle, try_except.
    now rewrite (try_block_account_info_failure cfg s Hin Hacc). }
  split; [exact Hc|].
  cbn [main_loop]. unfold bind at 1. now rewrite Hc.
Qed.

Lemma account_info_failure_restarts_cycle_witness :
  let s := sim_state (flat_history 3) in
  cycle default_config s = (mk_st (flat_history 3) [Log ERROR MsgAccountInfoFailed], Ok tt)
  /\ main_loop default_config 2 s
     = main_loop default_config 1
         (mk_st (flat_history 3) [Log ERROR MsgAccountInfoFailed]).
Proof.
  exact (account_info_failure_restarts_cycle (T := Sim.terminal) default_config
           (sim_state (flat_history 3)) 1 eq_refl eq_refl).
Defined.

Example busy_retry_trace :
  trace (fst (main_loop default_config 3 (sim_state (flat_history 3))))
  = [Log ERROR MsgAccountInfoFailed; Log ERROR MsgAccountInfoFailed;
     Log ERROR MsgAccountInfoFailed].
Proof. vm_compute. reflexivity. Qed.

(** * Further properties of the averages and of the signal *)

Section AverageFacts.

Lemma smoothing_range (w : Z) : (1 <= w)%Z -> 0 < smoothing w /\ smoothing w <= 1.
Proof.
  intros Hw. unfold smoothing.
  assert (H1 : inject_Z 1 <= inject_Z w) by (rewrite <- Zle_Qle; exact Hw).
  change (inject_Z 1) with 1 in H1.
  assert (Hpos : 0 < inject_Z w + 1) by lra.
  split.
  - apply Qlt_shift_div_l; [exact Hpos | lra].
  - apply Qle_shift_div_r; [exact Hpos | lra].
Qed.

Lemma Forall_nth_Q (P : Q -> Prop) (c : list Q) (t : nat) :
  Forall P c -> (t < length c)%nat -> P (nth t c 0).
Proof.
  intros HF Ht. rewrite nth_lookup.
  destruct (lookup_lt_is_Some_2 c t Ht) as [x Hx]. rewrite Hx. cbn.
  exact (proj1 (Forall_lookup P c) HF t x Hx).
Qed.

Lemma nth_Forall_Q (P : Q -> Prop) (c : list Q) :
  (forall t, (t < length c)%nat -> P (nth t c 0)) -> Forall P c.
Proof.
  intros H. apply Forall_lookup. intros t x Hx.
  pose proof (lookup_lt_Some c t x Hx) as Ht.
  specialize (H t Ht). rewrite nth_lookup, Hx in H. exact H.
Qed.

Lemma ema_spec_const (a x : Q) (c : list Q) (t : nat) :
  Forall (fun y => y == x) c -> (t < length c)%nat -> ema_spec a c t == x.
Proof.
  intros HF. induction t as [|t IH]; intros Ht.
  - simpl. apply (Forall_nth_Q (fun y => y == x)); assumption.
  - rewrite ema_spec_S, IH by lia.
    rewrite (Forall_nth_Q (fun y => y == x) c (S t) HF Ht). ring.
Qed.

Lemma ema_spec_bounds (a lo hi : Q) (c : list Q) (t : nat) :
  0 < a -> a <= 1 ->
  Forall (fun y => lo <= y /\ y <= hi) c -> (t < length c)%nat ->
  lo <= ema_spec a c t /\ ema_spec a c t <= hi.
Proof.
  intros Ha0 Ha1 HF. induction t as [|t IH]; intros Ht.
  - simpl. apply (Forall_nth_Q (fun y => lo <= y /\ y <= hi)); assumption.
  - rewrite ema_spec_S.
    destruct IH as [IH1 IH2]; [lia|].
    destruct (Forall_nth_Q (fun y => lo <= y /\ y <= hi) c (S t) HF Ht) as [H1 H2].
    set (x := nth (S t) c 0) in *. set (e := ema_spec a c t) in *.
    split; nra.
Qed.

Lemma ewm_loop_take (alpha : Q) (vals : list Q) :
  forall (w o : Q) (n : nat),
    Pandas.ewm_loop alpha w o (take n vals) = take n (Pandas.ewm_loop alpha w o vals).
Proof.
  induction vals as [|c r IH]; intros w o n.
  - destruct n; reflexivity.
  - destruct n as [|n]; [reflexivity|].
    cbn [take Pandas.ewm_loop]. cbv zeta. cbn [take]. f_equal. apply IH.
Qed.

Lemma ewm_take (com : Q) (c : list Q) (n : nat) :
  Pandas.ewm com (take n c) = take n (Pandas.ewm com c).
Proof.
  destruct c as [|x r]; [destruct n; reflexivity|].
  destruct n as [|n]; [reflexivity|].
  unfold Pandas.ewm. cbn [take]. f_equal. apply ewm_loop_take.
Qed.

Lemma nth_map_affine (k d : Q) (c : list Q) (t : nat) :
  (t < length c)%nat ->
  nth t (map (fun x => k * x + d) c) 0 = k * nth t c 0 + d.
Proof.
  intros Ht.
  rewrite (nth_indep (map (fun x => k * x + d) c) 0 (k * 0 + d))
    by (rewrite length_map; exact Ht).
  apply (map_nth (fun x => k * x + d)).
Qed.

Lemma ema_spec_affine (a k d : Q) (c : list Q) (t : nat) :
  (t < length c)%nat ->
  ema_spec a (map (fun x => k * x + d) c) t == k * ema_spec a c t + d.
Proof.
  induction t as [|t IH]; intros Ht.
  - simpl ema_spec. rewrite nth_map_affine by exact Ht. reflexivity.
  - rewrite !ema_spec_S, IH by lia. rewrite nth_map_affine by exact Ht. ring.
Qed.

End AverageFacts.

(** X1.  On a flat market the calculator stays silent: when every closing
    price of a non-empty column is the same, [get_signals] returns [None]. *)
Theorem get_signals_flat (df : DataFrame) (c : list Q) (x : Q) :
  df !! "close" = Some c -> c <> [] -> Forall (fun y => y == x) c ->
  snd (get_signals df) = Ok None.
Proof.
  intros Hc Hne HF.
  destruct (le_lt_dec 2 (length c)) as [H2|H2].
  - rewrite (get_signals_bars df c Hc H2). cbn [snd]. f_equal.
    apply crossover_none. unfold fast, slow.
    rewrite !(ema_spec_const _ x c) by (assumption || lia).
    split; intros [H _]; lra.
  - destruct c as [|y [|z r]]; [congruence | | simpl in H2; lia].
    now rewrite (get_signals_one_bar df [y] Hc eq_refl).
Qed.

Lemma get_signals_flat_witness :
  snd (get_signals (frame_of_closes [5; 5; 5])) = Ok None.
Proof.
  apply (get_signals_flat (frame_of_closes [5; 5; 5]) [5; 5; 5] 5).
  - reflexivity.
  - discriminate.
  - repeat constructor.
Defined.

(** X2.  An average never leaves the range of the prices: when every
    closing price lies between [lo] and [hi], so does every value that
    [calculate_ema] returns, for any window of at least 1. *)
Theorem calculate_ema_bounds (df : DataFrame) (c : list Q) (w : Z) (lo hi : Q) :
  df !! "close" = Some c -> (1 <= w)%Z ->
  Forall (fun y => lo <= y /\ y <= hi) c ->
  exists e : Series,
    calculate_ema df w = Ok e /\ Forall (fun y => lo <= y /\ y <= hi) e.
Proof.
  intros Hc Hw HF. exists (Pandas.ewm ((inject_Z w - 1) / 2) c).
  split; [apply calculate_ema_eval; assumption|].
  apply nth_Forall_Q. intros t Ht. rewrite ewm_length in Ht.
  rewrite ewm_spec by assumption.
  destruct (smoothing_range w Hw) as [Ha0 Ha1].
  apply ema_spec_bounds; assumption.
Qed.

Lemma calculate_ema_bounds_witness :
  exists e : Series,
    calculate_ema (frame_of_closes [1; 3; 2]) 50 = Ok e
    /\ Forall (fun y => 1 <= y /\ y <= 3) e.
Proof.
  apply (calculate_ema_bounds (frame_of_closes [1; 3; 2]) [1; 3; 2] 50 1 3).
  - reflexivity.
  - lia.
  - repeat constructor; vm_compute; discriminate.
Defined.

(** X3.  Later bars never change earlier averages: the averages of the
    first [n] bars are the first [n] averages of the whole column. *)
Theorem calculate_ema_prefix (df df_n : DataFrame) (c : list Q) (w : Z) (n : nat) :
  df !! "close" = Some c -> df_n !! "close" = Some (take n c) -> (1 <= w)%Z ->
  exists e : Series,
    calculate_ema df w = Ok e /\ calculate_ema df_n w = Ok (take n e).
Proof.
  intros Hc Hn Hw. exists (Pandas.ewm ((inject_Z w - 1) / 2) c).
  split; [apply calculate_ema_eval; assumption|].
  rewrite (calculate_ema_eval df_n (take n c) w Hn Hw). f_equal. apply ewm_take.
Qed.

Lemma calculate_ema_prefix_witness :
  exists e : Series,
    calculate_ema (frame_of_closes [1; 2; 4]) 3 = Ok e
    /\ calculate_ema (frame_of_closes [1; 2]) 3 = Ok (take 2 e).
Proof.
  apply (calculate_ema_prefix (frame_of_closes [1; 2; 4]) (frame_of_closes [1; 2])
           [1; 2; 4] 3 2).
  - reflexivity.
  - reflexivity.
  - lia.
Defined.

(** X4.  The average follows a change of unit or origin of the prices:
    replacing every closing price x by k*x + d replaces every value that
    [calculate_ema] returns in the same way, for any factor [k], negative
    ones included. *)
Theorem calculate_ema_affine (df df' : DataFrame) (c : list Q) (w : Z) (k d : Q) :
  (1 <= w)%Z ->
  df !! "close" = Some c ->
  df' !! "close" = Some (map (fun x => k * x + d) c) ->
  exists e e' : Series,
    calculate_ema df w = Ok e
    /\ calculate_ema df' w = Ok e'
    /\ length e = length c /\ length e' = length c
    /\ forall t, (t < length c)%nat -> nth t e' 0 == k * nth t e 0 + d.
Proof.
  intros Hw Hc Hc'.
  exists (Pandas.ewm ((inject_Z w - 1) / 2) c),
         (Pandas.ewm ((inject_Z w - 1) / 2) (map (fun x => k * x + d) c)).
  split; [apply calculate_ema_eval; assumption|].
  split; [apply calculate_ema_eval; assumption|].
  split; [apply ewm_length|].
  split; [rewrite ewm_length; apply length_map|].
  intros t Ht. rewrite !ewm_spec by (rewrite ?length_map; assumption).
  apply ema_spec_affine. exact Ht.
Qed.

Lemma calculate_ema_affine_witness :
  exists e e' : Series,
    calculate_ema (frame_of_closes [1; 2; 4]) 3 = Ok e
    /\ calculate_ema (frame_of_closes [98; 96; 92]) 3 = Ok e'
    /\ length e = 3%nat /\ length e' = 3%nat
    /\ forall t, (t < 3)%nat -> nth t e' 0 == (-2) * nth t e 0 + 100.
Proof.
  exact (calculate_ema_affine (frame_of_closes [1; 2; 4])
           (frame_of_closes [98; 96; 92]) [1; 2; 4] 3 (-2) 100
           ltac:(lia) eq_refl eq_refl).
Defined.

(** X6.  Without a [close] column the calculator raises [KeyError] before
    it writes anything: the frame is returned as it was. *)
Theorem get_signals_missing_close (df : DataFrame) :
  df !! "close" = None -> get_signals df = (df, Raise KeyError).
Proof.
  intros Hc. unfold get_signals.
  unfold bind at 1. unfold get at 1.
  unfold bind at 1. unfold lift at 1.
  unfold calculate_ema, Pandas.getitem. now rewrite Hc.
Qed.

Lemma get_signals_missing_close_witness :
  get_signals {["open" := [1; 2]]} = ({["open" := [1; 2]]}, Raise KeyError).
Proof.
  apply (get_signals_missing_close {["open" := [1; 2]]}). reflexivity.
Defined.

(** X7.  On closing prices that never fall, the averages that
    [calculate_ema] returns are ordered at every bar: the average of window
    200, then the average of window 50, then the price.  On closing prices
    that never rise the order is the reverse. *)
Theorem calculate_ema_order (df : DataFrame) (c : list Q) :
  df !! "close" = Some c ->
  exists ema_50 ema_200 : Series,
    calculate_ema df 50 = Ok ema_50
    /\ calculate_ema df 200 = Ok ema_200
    /\ (nondecreasing c = true ->
        forall t, (t < length c)%nat ->
          nth t ema_200 0 <= nth t ema_50 0 /\ nth t ema_50 0 <= nth t c 0)
    /\ (nonincreasing c = true ->
        forall t, (t < length c)%nat ->
          nth t c 0 <= nth t ema_50 0 /\ nth t ema_50 0 <= nth t ema_200 0).
Proof.
  intros Hc.
  exists (Pandas.ewm ((inject_Z 50 - 1) / 2) c), (Pandas.ewm ((inject_Z 200 - 1) / 2) c).
  split; [apply calculate_ema_eval; [exact Hc | lia]|].
  split; [apply calculate_ema_eval; [exact Hc | lia]|].
  split; intros Hm t Ht; rewrite !ewm_spec by (lia || assumption).
  - destruct (rising_order c Hm t Ht) as [H1 H2]. split; assumption.
  - destruct (falling_order c Hm t Ht) as [H1 H2]. split; assumption.
Qed.

Lemma calculate_ema_order_witness :
  exists ema_50 ema_200 : Series,
    calculate_ema (frame_of_closes [1; 2; 3]) 50 = Ok ema_50
    /\ calculate_ema (frame_of_closes [1; 2; 3]) 200 = Ok ema_200
    /\ (nondecreasing [1; 2; 3] = true ->
        forall t, (t < length [1; 2; 3])%nat ->
          nth t ema_200 0 <= nth t ema_50 0 /\ nth t ema_50 0 <= nth t [1; 2; 3] 0)
    /\ (nonincreasing [1; 2; 3] = true ->
        forall t, (t < length [1; 2; 3])%nat ->
          nth t [1; 2; 3] 0 <= nth t ema_50 0 /\ nth t ema_50 0 <= nth t ema_200 0).
Proof.
  exact (calculate_ema_order (frame_of_closes [1; 2; 3]) [1; 2; 3] eq_refl).
Defined.

(** * What a computation adds to the trace *)

Section Adds.

Context {W : Type} {T : Terminal W}.
Variable p : Event -> bool.

Lemma adds_ret {A} (Q : A -> Prop) (a : A) : Q a -> adds (W := W) p 0 Q (ret a).
Proof.
  intros HQ s. exists []. cbn. rewrite app_nil_r.
  repeat split; [lia|]. now intros a' [= <-].
Qed.

Lemma adds_raise {A} (Q : A -> Prop) (e : exn) : adds (W := W) p 0 Q (raise e).
Proof.
  intros s. exists []. cbn. rewrite app_nil_r. repeat split; [lia | discriminate].
Qed.

Lemma adds_lift {A} (Q : A -> Prop) (r : result A) :
  (forall a, r = Ok a -> Q a) -> adds (W := W) p 0 Q (lift r).
Proof.
  intros HQ s. exists []. cbn. rewrite app_nil_r. repeat split; [lia | exact HQ].
Qed.

Lemma adds_on_frame {A} (Q : A -> Prop) (df : DataFrame) (m : M DataFrame A) :
  (forall a, snd (m df) = Ok a -> Q a) -> adds (W := W) p 0 Q (on_frame df m).
Proof.
  intros HQ s. exists []. cbn. rewrite app_nil_r. repeat split; [lia | exact HQ].
Qed.

Lemma adds_call {A} (Q : A -> Prop) (f : W -> W * A) :
  (forall w, Q (snd (f w))) -> adds p 0 Q (call f).
Proof.
  intros HQ s. exists []. unfold call. specialize (HQ (world s)).
  destruct (f (world s)) as [w a]. cbn in *. rewrite app_nil_r.
  repeat split; [lia|]. now intros a' [= <-].
Qed.

Lemma adds_emit (e : Event) :
  adds (W := W) p (if p e then 1 else 0) (fun _ => True) (emit e).
Proof.
  intros s. exists [e]. cbn. destruct (p e); cbn; repeat split; lia.
Qed.

Lemma adds_conseq {A} (k k' : nat) (Q Q' : A -> Prop) (m : M (St W) A) :
  adds p k Q m -> (k <= k')%nat -> (forall a, Q a -> Q' a) -> adds p k' Q' m.
Proof.
  intros Hm Hk HQ s. destruct (Hm s) as (evs & Htr & Hn & Hq).
  exists evs. repeat split; [exact Htr | lia | intros a Ha; apply HQ, Hq, Ha].
Qed.

Lemma adds_bind {A B} (k1 k2 : nat) (Q1 : A -> Prop) (Q2 : B -> Prop)
      (m : M (St W) A) (f : A -> M (St W) B) :
  adds p k1 Q1 m -> (forall a, Q1 a -> adds p k2 Q2 (f a)) ->
  adds p (k1 + k2) Q2 (bind m f).
Proof.
  intros Hm Hf s. unfold bind.
  destruct (Hm s) as (evs1 & Htr1 & Hn1 & Hq1).
  destruct (m s) as [s1 [a|e]]; cbn [fst snd] in *.
  - destruct (Hf a (Hq1 a eq_refl) s1) as (evs2 & Htr2 & Hn2 & Hq2).
    exists (evs1 ++ evs2). rewrite Htr2, Htr1, app_assoc.
    rewrite List.filter_app, length_app.
    repeat split; [lia | exact Hq2].
  - exists evs1. repeat split; [exact Htr1 | lia | discriminate].
Qed.

(** The head of the sequence adds nothing that counts. *)
Lemma adds_bind_quiet {A B} (k : nat) (Q1 : A -> Prop) (Q2 : B -> Prop)
      (m : M (St W) A) (f : A -> M (St W) B) :
  adds p 0 Q1 m -> (forall a, Q1 a -> adds p k Q2 (f a)) -> adds p k Q2 (bind m f).
Proof. intros Hm Hf. exact (adds_bind 0 k Q1 Q2 m f Hm Hf). Qed.

(** The rest of the sequence adds nothing that counts. *)
Lemma adds_bind_then_quiet {A B} (k : nat) (Q1 : A -> Prop) (Q2 : B -> Prop)
      (m : M (St W) A) (f : A -> M (St W) B) :
  adds p k Q1 m -> (forall a, Q1 a -> adds p 0 Q2 (f a)) -> adds p k Q2 (bind m f).
Proof.
  intros Hm Hf. apply (adds_conseq (k + 0) k Q2 Q2); [|lia|trivial].
  exact (adds_bind k 0 Q1 Q2 m f Hm Hf).
Qed.

Lemma adds_try_except {A} (k : nat) (Q : A -> Prop)
      (m : M (St W) A) (h : exn -> M (St W) A) :
  adds p k Q m -> (forall e, adds p 0 Q (h e)) -> adds p k Q (try_except m h).
Proof.
  intros Hm Hh s. unfold try_except.
  destruct (Hm s) as (evs1 & Htr1 & Hn1 & Hq1).
  destruct (m s) as [s1 [a|e]]; cbn [fst snd] in *.
  - exists evs1. repeat split; assumption.
  - destruct (Hh e s1) as (evs2 & Htr2 & Hn2 & Hq2).
    exists (evs1 ++ evs2). rewrite Htr2, Htr1, app_assoc.
    rewrite List.filter_app, length_app.
    repeat split; [lia | exact Hq2].
Qed.

Lemma adds_for_each {A} (f : A -> M (St W) unit) (l : list A) :
  (forall x, adds p 0 (fun _ => True) (f x)) ->
  adds p 0 (fun _ => True) (for_each f l).
Proof.
  intros Hf. induction l as [|x r IH]; cbn [for_each].
  - now apply adds_ret.
  - apply (adds_bind_quiet 0 (fun _ => True)); [apply Hf | intros _ _; exact IH].
Qed.

End Adds.

(** * Orders placed by one pass of the loop *)

Section DealCount.

Context {W : Type} {T : Terminal W}.
Variable cfg : Config.

Let anything {A : Type} : A -> Prop := fun _ => True.

Lemma log_quiet (level : Level) (msg : Message) :
  adds (W := W) is_deal 0 anything (log level msg).
Proof. exact (adds_emit is_deal (Log level msg)). Qed.

Lemma sleep_quiet (seconds : Z) : adds (W := W) is_deal 0 anything (sleep seconds).
Proof.
  unfold sleep. apply (adds_bind_quiet is_deal 0 anything).
  - now apply adds_call.
  - intros _ _. exact (adds_emit is_deal (Slept seconds)).
Qed.

Lemma send_adds (request : Request) : adds (W := W) is_deal 1 anything (send request).
Proof.
  unfold send. apply (adds_bind_then_quiet is_deal 1 anything).
  - apply (adds_conseq is_deal (if is_deal (Sent request) then 1 else 0)%nat 1
             anything anything); [apply adds_emit | | trivial].
    destruct (is_deal (Sent request)); lia.
  - intros _ _. now apply adds_call.
Qed.

Lemma send_stop_loss_quiet (ticket : Z) (sl : float) :
  adds (W := W) is_deal 0 anything (send (TRADE_ACTION_SLTP ticket sl)).
Proof.
  unfold send. apply (adds_bind_quiet is_deal 0 anything).
  - exact (adds_emit is_deal (Sent (TRADE_ACTION_SLTP ticket sl))).
  - intros _ _. now apply adds_call.
Qed.

Lemma trade_adds (symbol direction : string) (account_balance : float) :
  adds is_deal 1 anything (trade cfg symbol direction account_balance).
Proof.
  unfold trade. apply adds_try_except.
  - cbv zeta. apply (adds_bind_quiet is_deal 1 anything); [now apply adds_call|].
    intros tick _. apply (adds_bind_quiet is_deal 1 anything).
    { destruct tick; [now apply adds_ret | apply adds_raise]. }
    intros price _.
    destruct (set_stop_loss_and_take_profit price direction
                (STOP_LOSS_PERCENT cfg) (TAKE_PROFIT_PERCENT cfg)) as [sl tp].
    apply (adds_bind_then_quiet is_deal 1 anything); [apply send_adds|].
    intros [r|] _; [|apply adds_raise].
    destruct (negb (retcode r =? TRADE_RETCODE_DONE)%Z);
      (apply (adds_bind_quiet is_deal 0 anything);
       [apply log_quiet | intros _ _; now apply adds_ret]).
  - intros e. apply (adds_bind_quiet is_deal 0 anything);
      [apply log_quiet | intros _ _; now apply adds_ret].
Qed.

(** [max_open_positions] adds nothing; [Q] is what is known of its answer. *)
Lemma max_open_positions_quiet (symbols : list string) (max_trades : Z)
      (Q : bool -> Prop) :
  (forall w ps, snd (positions_get (BySymbols symbols) w) = Some ps ->
                Q (Z.of_nat (length ps) <? max_trades)%Z) ->
  adds is_deal 0 Q (max_open_positions symbols max_trades).
Proof.
  intros HQ. unfold max_open_positions.
  apply (adds_bind_quiet is_deal 0
           (fun r => forall ps, r = Some ps -> Q (Z.of_nat (length ps) <? max_trades)%Z)).
  - apply adds_call. intros w ps Hps. now apply (HQ w).
  - intros [ps|] Hr; [apply adds_ret; now apply Hr | apply adds_raise].
Qed.

Lemma get_rates_quiet (symbol : string) (timeframe : Z) (count : nat) :
  adds is_deal 0 anything (get_rates symbol timeframe count).
Proof.
  unfold get_rates. apply (adds_bind_quiet is_deal 0 anything); [now apply adds_call|].
  intros [[|b r]|] _;
    try (apply (adds_bind_quiet is_deal 0 anything);
         [apply log_quiet | intros _ _; now apply adds_ret]).
  now apply adds_ret.
Qed.

Lemma check_major_news_events_quiet :
  adds (W := W) is_deal 0 anything check_major_news_events.
Proof.
  unfold check_major_news_events.
  apply (adds_bind_quiet is_deal 0 anything);
    [apply log_quiet | intros _ _; now apply adds_ret].
Qed.

Lemma is_within_trading_hours_quiet :
  adds is_deal 0 anything is_within_trading_hours.
Proof.
  unfold is_within_trading_hours.
  apply (adds_bind_quiet is_deal 0 anything); [now apply adds_call|].
  intros now _. now apply adds_ret.
Qed.

Lemma adjust_stop_loss_quiet (position : Position) :
  adds is_deal 0 anything (adjust_stop_loss position).
Proof.
  unfold adjust_stop_loss.
  apply (adds_bind_quiet is_deal 0 anything); [now apply adds_lift|].
  intros per_unit _.
  destruct (fleb (fmul (price_open position) (py_float 0.02)) per_unit);
    [|now apply adds_ret].
  apply (adds_bind_quiet is_deal 0 anything); [apply send_stop_loss_quiet|].
  intros [r|] _; [|apply adds_raise].
  destruct (negb (retcode r =? TRADE_RETCODE_DONE)%Z); apply log_quiet.
Qed.

(** The stop-loss sweep that ends the trading block. *)
Lemma sweep_quiet :
  adds is_deal 0 anything
    (positions <- call (positions_get (BySymbol (SYMBOL cfg))) ;;
     match positions with
     | None => raise TypeError
     | Some ps => for_each adjust_stop_loss ps
     end ;;;
     ret FallThrough)%py.
Proof.
  apply (adds_bind_quiet is_deal 0 anything); [now apply adds_call|].
  intros positions _.
  apply (adds_bind_quiet is_deal 0 anything); [|intros _ _; now apply adds_ret].
  destruct positions as [ps|]; [|apply adds_raise].
  apply adds_for_each. intros x. apply adjust_stop_loss_quiet.
Qed.

(** [k] bounds the orders of the trading block when [Q] is known of the
    answer of [max_open_positions] and [Q] allows a trade only if [k] is 1. *)
Lemma trading_block_adds (k : nat) (Q : bool -> Prop) :
  (forall w ps, snd (positions_get (BySymbols [SYMBOL cfg]) w) = Some ps ->
                Q (Z.of_nat (length ps) <? MAX_POSITIONS cfg)%Z) ->
  (Q true -> k = 1%nat) ->
  adds is_deal k anything (trading_block cfg).
Proof.
  intros HQ Hk. unfold trading_block.
  apply (adds_bind_quiet is_deal k anything); [now apply adds_call|].
  intros [info|] _.
  2:{ apply (adds_conseq is_deal 0 k anything anything); [|lia|trivial].
      apply (adds_bind_quiet is_deal 0 anything);
        [apply log_quiet | intros _ _; now apply adds_ret]. }
  cbv zeta.
  apply (adds_bind_quiet is_deal k anything); [apply check_major_news_events_quiet|].
  intros news _.
  apply (adds_bind_then_quiet is_deal k anything); [|intros _ _; apply sweep_quiet].
  assert (Hnone : adds (W := W) is_deal k anything (ret tt)).
  { apply (adds_conseq is_deal 0 k anything anything); [now apply adds_ret|lia|trivial]. }
  destruct news; [|exact Hnone].
  apply (adds_bind_quiet is_deal k anything); [apply get_rates_quiet|].
  intros [df|] _; [|exact Hnone].
  apply (adds_bind_quiet is_deal k anything); [now apply adds_on_frame|].
  intros signal _. destruct (truthy signal); [|exact Hnone].
  apply (adds_bind_quiet is_deal k Q); [now apply max_open_positions_quiet|].
  intros [|] Hfree; [|exact Hnone].
  rewrite (Hk Hfree).
  apply (adds_bind_then_quiet is_deal 1 anything); [apply trade_adds|].
  intros _ _. now apply adds_ret.
Qed.

Lemma cycle_adds (k : nat) (Q : bool -> Prop) :
  (forall w ps, snd (positions_get (BySymbols [SYMBOL cfg]) w) = Some ps ->
                Q (Z.of_nat (length ps) <? MAX_POSITIONS cfg)%Z) ->
  (Q true -> k = 1%nat) ->
  adds is_deal k anything (cycle cfg).
Proof.
  intros HQ Hk. unfold cycle. apply adds_try_except.
  - unfold try_block.
    apply (adds_bind_quiet is_deal k anything); [apply is_within_trading_hours_quiet|].
    intros within _.
    apply (adds_bind_then_quiet is_deal k anything).
    + destruct within; [now apply (trading_block_adds k Q)|].
      apply (adds_conseq is_deal 0 k anything anything); [now apply adds_ret|lia|trivial].
    + intros [|] _; [apply sleep_quiet | now apply adds_ret].
  - intros e. apply (adds_bind_quiet is_deal 0 anything);
      [apply log_quiet | intros _ _; apply sleep_quiet].
Qed.

End DealCount.

(** * Placing an order *)

Section Trade.

Context {W : Type} {T : Terminal W}.
Variable cfg : Config.

(** [trade], case by case on what the terminal answers. *)
Lemma trade_eval (symbol direction : string) (account_balance : float) (s : St W) :
  trade cfg symbol direction account_balance s =
  let (w1, tick) := symbol_info_tick symbol (world s) in
  match tick with
  | None =>
      (mk_st w1 (trace s ++ [Log ERROR (MsgTradeError AttributeError)]), Ok None)
  | Some t =>
      let request := deal_request cfg symbol direction account_balance t in
      let (w2, result) := order_send request w1 in
      match result with
      | None =>
          (mk_st w2 (trace s ++ [Sent request;
                                 Log ERROR (MsgTradeError AttributeError)]),
           Ok None)
      | Some r =>
          if negb (retcode r =? TRADE_RETCODE_DONE)%Z then
            (mk_st w2 (trace s ++ [Sent request;
                                   Log ERROR (MsgTradeFailed (retcode r))]),
             Ok None)
          else
            (mk_st w2 (trace s ++ [Sent request;
                                   Log INFO (MsgTradeExecuted (comment r))]),
             Ok (Some r))
      end
  end.
Proof.
  unfold trade, try_except, deal_request. cbv zeta.
  unfold bind at 1. unfold call at 1.
  destruct (symbol_info_tick symbol (world s)) as [w1 [t|]]; [|reflexivity].
  unfold bind at 1. unfold ret at 1.
  destruct (set_stop_loss_and_take_profit
              (if String.eqb direction "buy" then ask t else bid t) direction
              (STOP_LOSS_PERCENT cfg) (TAKE_PROFIT_PERCENT cfg)) as [sl tp].
  cbn [fst snd].
  unfold bind at 1. unfold send, emit, modify, call, bind. cbn [world trace].
  match goal with |- context [order_send ?r w1] =>
    destruct (order_send r w1) as [w2 [res|]] end.
  - destruct (negb (retcode res =? TRADE_RETCODE_DONE)%Z);
      unfold log, emit, modify, ret; cbn [fst trace world];
      rewrite <- app_assoc; reflexivity.
  - unfold raise, log, emit, modify, ret. cbn [fst trace world].
    rewrite <- app_assoc. reflexivity.
Qed.

(** With a quote the terminal receives the order and one record is
    logged. *)
Lemma trade_quoted (symbol direction : string) (account_balance : float)
      (s : St W) (t : Tick) :
  snd (symbol_info_tick symbol (world s)) = Some t ->
  let request := deal_request cfg symbol direction account_balance t in
  exists level msg,
    fst (trade cfg symbol direction account_balance s)
    = mk_st (fst (order_send request (fst (symbol_info_tick symbol (world s)))))
            (trace s ++ [Sent request; Log level msg]).
Proof.
  intros Ht. cbv zeta. rewrite trade_eval.
  destruct (symbol_info_tick symbol (world s)) as [w1 tick]. cbn [fst snd] in *.
  subst tick. cbv zeta.
  destruct (order_send (deal_request cfg symbol direction account_balance t) w1)
    as [w2 [res|]]; cbn [fst].
  - destruct (negb (retcode res =? TRADE_RETCODE_DONE)%Z); cbn [fst];
      eexists _, _; reflexivity.
  - eexists _, _. reflexivity.
Qed.

End Trade.

Lemma trade_result
    {W : Type} {T : Terminal W} (cfg : Config)
    (symbol direction : string) (account_balance : float) (s : St W) :
  exists r : option OrderResult,
    snd (trade cfg symbol direction account_balance s) = Ok r
    /\ forall res, r = Some res -> retcode res = TRADE_RETCODE_DONE.
Proof.
  rewrite trade_eval.
  destruct (symbol_info_tick symbol (world s)) as [w1 [t|]].
  2:{ exists None. split; [reflexivity | discriminate]. }
  cbv zeta.
  destruct (order_send (deal_request cfg symbol direction account_balance t) w1)
    as [w2 [res|]].
  - destruct (retcode res =? TRADE_RETCODE_DONE)%Z eqn:E; cbn [negb snd].
    + exists (Some res). split; [reflexivity|].
      intros res' [= <-]. now apply Z.eqb_eq.
    + exists None. split; [reflexivity | discriminate].
  - exists None. split; [reflexivity | discriminate].
Qed.

(** X8.  [trade] never lets an exception out, and it hands back a result
    only when the terminal answered with the return code for a completed
    order; in every other case it returns [None]. *)
Theorem trade_never_raises
    {W : Type} {T : Terminal W} (cfg : Config)
    (symbol direction : string) (account_balance : float) (s : St W) :
  exists r : option OrderResult,
    snd (trade cfg symbol direction account_balance s) = Ok r
    /\ forall res, r = Some res -> retcode res = TRADE_RETCODE_DONE.
Proof. apply trade_result. Qed.

(** X9.  When the terminal quotes a price, [trade] hands the terminal
    exactly one order and logs one record: a buy at the ask, a sell at the
    bid, with the volume of [calculate_position_size] for the balance and
    [RISK_PERCENT], the stop-loss and take-profit of
    [set_stop_loss_and_take_profit] for that price, deviation 10, magic
    123456 and the comment "EMA Buy" or "EMA Sell". *)
Theorem trade_order
    {W : Type} {T : Terminal W} (cfg : Config)
    (symbol : string) (account_balance : float) (s : St W) (t : Tick) :
  snd (symbol_info_tick symbol (world s)) = Some t ->
  let w1 := fst (symbol_info_tick symbol (world s)) in
  let lot_size := calculate_position_size account_balance (RISK_PERCENT cfg) in
  let buy :=
    TRADE_ACTION_DEAL symbol lot_size ORDER_TYPE_BUY (ask t)
      (fst (set_stop_loss_and_take_profit (ask t) "buy"
              (STOP_LOSS_PERCENT cfg) (TAKE_PROFIT_PERCENT cfg)))
      (snd (set_stop_loss_and_take_profit (ask t) "buy"
              (STOP_LOSS_PERCENT cfg) (TAKE_PROFIT_PERCENT cfg)))
      10 123456 "EMA Buy" in
  let sell :=
    TRADE_ACTION_DEAL symbol lot_size ORDER_TYPE_SELL (bid t)
      (fst (set_stop_loss_and_take_profit (bid t) "sell"
              (STOP_LOSS_PERCENT cfg) (TAKE_PROFIT_PERCENT cfg)))
      (snd (set_stop_loss_and_take_profit (bid t) "sell"
              (STOP_LOSS_PERCENT cfg) (TAKE_PROFIT_PERCENT cfg)))
      10 123456 "EMA Sell" in
  (exists level msg,
      fst (trade cfg symbol "buy" account_balance s)
      = mk_st (fst (order_send buy w1)) (trace s ++ [Sent buy; Log level msg]))
  /\ (exists level msg,
         fst (trade cfg symbol "sell" account_balance s)
         = mk_st (fst (order_send sell w1)) (trace s ++ [Sent sell; Log level msg])).
Proof.
  intros Ht. cbv zeta. split.
  - exact (trade_quoted cfg symbol "buy" account_balance s t Ht).
  - exact (trade_quoted cfg symbol "sell" account_balance s t Ht).
Qed.

Lemma trade_order_witness :
  fst (trade default_config "EURUSD" "buy" (py_float 10000) Desk.start)
  = mk_st tt
      [Sent (TRADE_ACTION_DEAL "EURUSD" (py_float 100) ORDER_TYPE_BUY
               (py_float 1.1) (fmul (py_float 1.1) (py_float 0.98))
               (fmul (py_float 1.1) (py_float 1.04)) 10 123456 "EMA Buy");
       Log INFO (MsgTradeExecuted "done")]
  /\ fst (trade default_config "EURUSD" "sell" (py_float 10000) Desk.start)
     = mk_st tt
         [Sent (TRADE_ACTION_DEAL "EURUSD" (py_float 100) ORDER_TYPE_SELL
                  (py_float 1) (py_float 1.02) (py_float 0.96) 10 123456
                  "EMA Sell");
          Log INFO (MsgTradeExecuted "done")].
Proof.
  destruct (trade_order (T := Desk.terminal) default_config "EURUSD"
              (py_float 10000) Desk.start Desk.quote eq_refl)
    as [(l1 & m1 & H1) (l2 & m2 & H2)].
  split; [clear H2; vm_compute in H1 |- * | clear H1; vm_compute in H2 |- *];
    reflexivity.
Defined.

(** X10.  Without a quote nothing is sent: [trade] logs the error and
    returns [None]. *)
Theorem trade_without_quote
    {W : Type} {T : Terminal W} (cfg : Config)
    (symbol direction : string) (account_balance : float) (s : St W) :
  snd (symbol_info_tick symbol (world s)) = None ->
  trade cfg symbol direction account_balance s
  = (mk_st (fst (symbol_info_tick symbol (world s)))
           (trace s ++ [Log ERROR (MsgTradeError AttributeError)]),
     Ok None).
Proof.
  intros Ht. rewrite trade_eval.
  destruct (symbol_info_tick symbol (world s)) as [w1 tick]. cbn [fst snd] in *.
  now subst tick.
Qed.

Lemma trade_without_quote_witness :
  trade default_config "EURUSD" "buy" (py_float 10000) (sim_state (flat_history 3))
  = (mk_st (flat_history 3) [Log ERROR (MsgTradeError AttributeError)], Ok None).
Proof.
  exact (trade_without_quote (T := Sim.terminal) default_config "EURUSD" "buy"
           (py_float 10000) (sim_state (flat_history 3)) eq_refl).
Defined.

(** * Fetching bars *)

Lemma frame_of_bars_columns (rates : list Bar) (col : string) (x : Series) :
  frame_of_bars rates !! col = Some x ->
  length x = length rates
  /\ In col ["time"; "open"; "high"; "low"; "close"; "tick_volume"; "spread";
             "real_volume"].
Proof.
  unfold frame_of_bars. rewrite !(lookup_insert (M := gmap string)).
  repeat case_decide; subst;
    try (intros [= <-]; split; [apply length_map | cbn; tauto]).
  rewrite lookup_empty. discriminate.
Qed.

(** X11.  [get_rates] never raises, and a frame it returns is rectangular:
    its columns are among the eight fields of a bar and all have the same
    number of rows, at least one and at most the number of bars asked
    for. *)
Theorem get_rates_rectangular
    {W : Type} {T : Terminal W}
    (symbol : string) (timeframe : Z) (number_of_data : nat) (s : St W) :
  (exists r, snd (get_rates symbol timeframe number_of_data s) = Ok r)
  /\ forall df,
       snd (get_rates symbol timeframe number_of_data s) = Ok (Some df) ->
       exists n : nat,
         (1 <= n <= number_of_data)%nat
         /\ forall col x, df !! col = Some x ->
              length x = n
              /\ In col ["time"; "open"; "high"; "low"; "close"; "tick_volume";
                         "spread"; "real_volume"].
Proof.
  split.
  - unfold get_rates, bind, call, log, emit, modify, ret.
    destruct (copy_rates_from_pos symbol timeframe 0 number_of_data (world s))
      as [w [[|b r]|]]; cbn; eauto.
  - intros df Hdf.
    destruct (get_rates_frame s symbol timeframe number_of_data df Hdf)
      as (bars & -> & Hlen).
    exists (length bars). split; [exact Hlen|].
    intros col x. apply frame_of_bars_columns.
Qed.

Lemma get_rates_rectangular_witness :
  exists n : nat,
    (1 <= n <= 200)%nat
    /\ forall col x, frame_of_bars [Sim.bar 1; Sim.bar 2] !! col = Some x ->
         length x = n
         /\ In col ["time"; "open"; "high"; "low"; "close"; "tick_volume";
                    "spread"; "real_volume"].
Proof.
  exact (proj2 (get_rates_rectangular (T := Desk.terminal) "EURUSD" TIMEFRAME_D1 200
                  Desk.start)
           (frame_of_bars [Sim.bar 1; Sim.bar 2]) eq_refl).
Defined.

(** * The stop-loss sweep *)

Section Sweep.

Context {W : Type} {T : Terminal W}.

Lemma adjust_stop_loss_zero_volume (p : Position) (s : St W) :
  feqb (volume p) (py_float 0) = true ->
  adjust_stop_loss p s = (s, Raise ZeroDivisionError).
Proof.
  intros Hv. unfold adjust_stop_loss, py_div. rewrite Hv. reflexivity.
Qed.

(** One position, on a terminal that answers the order. *)
Lemma adjust_stop_loss_answered (p : Position) (s : St W) :
  feqb (volume p) (py_float 0) = false ->
  (forall req w, snd (order_send req w) <> None) ->
  let reqs := if break_even_due p then [break_even_request p] else [] in
  snd (adjust_stop_loss p s) = Ok tt
  /\ requests_of (trace (fst (adjust_stop_loss p s)))
     = requests_of (trace s) ++ reqs
  /\ world (fst (adjust_stop_loss p s)) = after_orders reqs (world s).
Proof.
  intros Hv Hans. cbv zeta.
  rewrite (adjust_stop_loss_eval p s Hv).
  unfold break_even_due, break_even_request.
  destruct (fleb (fmul (price_open p) (py_float 0.02))
                 (fdiv (profit p) (volume p))).
  - cbv zeta. unfold after_orders. cbn [fold_left].
    specialize (Hans (TRADE_ACTION_SLTP (ticket p) (price_open p)) (world s)).
    destruct (order_send (TRADE_ACTION_SLTP (ticket p) (price_open p)) (world s))
      as [w [r|]]; cbn [fst snd world trace] in *; [|congruence].
    split; [reflexivity|]. split; [|reflexivity].
    rewrite requests_of_app.
    destruct (retcode r =? TRADE_RETCODE_DONE)%Z; reflexivity.
  - cbn. now rewrite app_nil_r.
Qed.

End Sweep.

(** X12.  A position with zero volume stops the sweep: dividing its profit
    by its volume raises [ZeroDivisionError] before anything is sent, and
    the positions after it are not looked at. *)
Theorem sweep_stops_at_zero_volume
    {W : Type} {T : Terminal W} (p : Position) (rest : list Position) (s : St W) :
  feqb (volume p) (py_float 0) = true ->
  adjust_stop_loss p s = (s, Raise ZeroDivisionError)
  /\ for_each adjust_stop_loss (p :: rest) s = (s, Raise ZeroDivisionError).
Proof.
  intros Hv. split; [now apply adjust_stop_loss_zero_volume|].
  cbn [for_each]. unfold bind.
  now rewrite (adjust_stop_loss_zero_volume p s Hv).
Qed.

Lemma sweep_stops_at_zero_volume_witness :
  for_each adjust_stop_loss
    ({| ticket := 1; volume := py_float 0; price_open := py_float 100;
        profit := py_float 5 |} :: Desk.book)
    Desk.start
  = (Desk.start, Raise ZeroDivisionError).
Proof.
  exact (proj2 (sweep_stops_at_zero_volume (T := Desk.terminal)
                  {| ticket := 1; volume := py_float 0;
                     price_open := py_float 100; profit := py_float 5 |}
                  Desk.book Desk.start eq_refl)).
Defined.

Lemma for_each_adjust_stop_loss_answered
    {W : Type} {T : Terminal W} (ps : list Position) (s : St W) :
  Forall (fun p => feqb (volume p) (py_float 0) = false) ps ->
  (forall req w, snd (order_send req w) <> None) ->
  let reqs := map break_even_request (List.filter break_even_due ps) in
  snd (for_each adjust_stop_loss ps s) = Ok tt
  /\ requests_of (trace (fst (for_each adjust_stop_loss ps s)))
     = requests_of (trace s) ++ reqs
  /\ world (fst (for_each adjust_stop_loss ps s)) = after_orders reqs (world s).
Proof.
  intros Hvol Hans. cbv zeta. revert s.
  induction Hvol as [|p r Hp Hr IH]; intros s.
  - cbn. now rewrite app_nil_r.
  - cbn [for_each]. unfold bind.
    destruct (adjust_stop_loss_answered p s Hp Hans) as (Hok & Hreq & Hw).
    destruct (adjust_stop_loss p s) as [s1 [[]|e]]; cbn [fst snd] in *;
      [|discriminate].
    destruct (IH s1) as (Hok' & Hreq' & Hw'). split; [exact Hok'|].
    cbn [List.filter].
    split.
    + rewrite Hreq', Hreq, <- app_assoc. f_equal.
      destruct (break_even_due p); reflexivity.
    + rewrite Hw', Hw. unfold after_orders.
      destruct (break_even_due p); reflexivity.
Qed.

(** X13.  On a terminal that answers every order, sweeping positions of
    non-zero volume succeeds and hands the terminal, in the order of the
    positions, one stop-loss change to the entry price for each position
    that passes the break-even test of [adjust_stop_loss] (rounded quotient
    of profit by volume at least the rounded product of entry price and
    0.02), and nothing else. *)
Theorem sweep_requests
    {W : Type} {T : Terminal W} (ps : list Position) (s : St W) :
  Forall (fun p => feqb (volume p) (py_float 0) = false) ps ->
  (forall req w, snd (order_send req w) <> None) ->
  let reqs := map break_even_request (List.filter break_even_due ps) in
  snd (for_each adjust_stop_loss ps s) = Ok tt
  /\ requests_of (trace (fst (for_each adjust_stop_loss ps s)))
     = requests_of (trace s) ++ reqs
  /\ world (fst (for_each adjust_stop_loss ps s)) = after_orders reqs (world s).
Proof. apply for_each_adjust_stop_loss_answered. Qed.

Lemma sweep_requests_witness :
  snd (for_each adjust_stop_loss Desk.book Desk.start) = Ok tt
  /\ requests_of (trace (fst (for_each adjust_stop_loss Desk.book Desk.start)))
     = [TRADE_ACTION_SLTP 1 (py_float 100); TRADE_ACTION_SLTP 3 (py_float 50)]
  /\ world (fst (for_each adjust_stop_loss Desk.book Desk.start)) = tt.
Proof.
  assert (Hvol : Forall (fun p => feqb (volume p) (py_float 0) = false) Desk.book)
    by (repeat constructor).
  assert (Hans : forall (req : Request) (w : unit),
             snd (order_send (Terminal := Desk.terminal) req w) <> None)
    by (intros req w; cbn; discriminate).
  exact (sweep_requests (T := Desk.terminal) Desk.book Desk.start Hvol Hans).
Defined.

(** * One pass of the loop, and many *)

Section Passes.

Context {W : Type} {T : Terminal W}.
Variable cfg : Config.

Lemma is_within_trading_hours_total (s : St W) :
  exists b, is_within_trading_hours s
            = (mk_st (fst (clock_now (world s))) (trace s), Ok b).
Proof.
  unfold is_within_trading_hours, bind, call, ret.
  destruct (clock_now (world s)) as [w now]. eexists. reflexivity.
Qed.


Lemma backoff_eval (e : exn) (s : St W) :
  (log ERROR (MsgMainLoopError e) ;;; sleep 60)%py s
  = (mk_st (time_sleep 60 (world s))
           (trace s ++ [Log ERROR (MsgMainLoopError e); Slept 60]),
     Ok tt).
Proof.
  unfold bind, log, emit, modify, sleep, bind, call, emit, modify.
  cbn [world trace]. now rewrite <- app_assoc.
Qed.

Lemma cycle_ok (s : St W) : snd (cycle cfg s) = Ok tt.
Proof.
  unfold cycle, try_except.
  destruct (try_block cfg s) as [s1 [[]|e]]; [reflexivity|].
  now rewrite backoff_eval.
Qed.

Lemma main_loop_ok (n : nat) : forall s : St W, snd (main_loop cfg n s) = Ok tt.
Proof.
  induction n as [|n IH]; intros s; [reflexivity|].
  cbn [main_loop]. unfold bind.
  pose proof (cycle_ok s) as Hc.
  destruct (cycle cfg s) as [s1 r]. cbn [snd] in Hc. subst r. apply IH.
Qed.

Lemma initialize_mt5_eval (s : St W) :
  initialize_mt5 cfg s =
  let (w1, ok) := mt5_initialize None (world s) in
  if ok then (mk_st w1 (trace s ++ [Log INFO MsgInitOk]), Ok true)
  else match MT5_ACCOUNT cfg with
       | None =>
           (mk_st w1 (trace s ++ [Log WARNING MsgInitRetry;
                                  Log ERROR MsgInitNoConfig]),
            Ok false)
       | Some acct =>
           let (w2, ok') := mt5_initialize (Some acct) w1 in
           if ok' then
             (mk_st w2 (trace s ++ [Log WARNING MsgInitRetry;
                                    Log INFO MsgInitAccountOk]),
              Ok true)
           else
             (mk_st w2 (trace s ++ [Log WARNING MsgInitRetry;
                                    Log ERROR MsgInitAccountFailed]),
              Ok false)
       end.
Proof.
  unfold initialize_mt5. unfold bind at 1. unfold call at 1.
  destruct (mt5_initialize None (world s)) as [w1 [|]]; cbn [negb];
    [reflexivity|].
  unfold bind at 1. unfold log at 1, emit, modify. cbn [world trace].
  destruct (MT5_ACCOUNT cfg) as [acct|].
  - unfold bind at 1. unfold call at 1. cbn [world trace].
    destruct (mt5_initialize (Some acct) w1) as [w2 [|]]; cbn [negb];
      unfold bind, log, emit, modify, ret; cbn [world trace];
      now rewrite <- app_assoc.
  - unfold bind, log, emit, modify, ret. cbn [world trace].
    now rewrite <- app_assoc.
Qed.


End Passes.

(** X14.  No exception leaves the loop: a pass always ends normally, and
    so do any number of passes and [main] itself. *)
Theorem loop_never_raises
    {W : Type} {T : Terminal W} (cfg : Config) (n : nat) (s : St W) :
  snd (cycle cfg s) = Ok tt
  /\ snd (main_loop cfg n s) = Ok tt
  /\ snd (main cfg n s) = Ok tt.
Proof.
  split; [apply cycle_ok|]. split; [apply main_loop_ok|].
  unfold main. unfold bind. rewrite initialize_mt5_eval.
  destruct (mt5_initialize None (world s)) as [w1 [|]]; cbn [negb].
  - apply main_loop_ok.
  - destruct (MT5_ACCOUNT cfg) as [acct|]; [|reflexivity].
    destruct (mt5_initialize (Some acct) w1) as [w2 [|]]; cbn [negb];
      [apply main_loop_ok | reflexivity].
Qed.

(** X15.  Outside trading hours a pass reads the clock, sleeps four hours
    and does nothing else: no other call reaches the terminal and nothing
    is logged or sent. *)
Theorem cycle_outside_trading_hours
    {W : Type} {T : Terminal W} (cfg : Config) (s : St W) :
  snd (is_within_trading_hours s) = Ok false ->
  cycle cfg s
  = (mk_st (time_sleep (60 * 60 * 4) (fst (clock_now (world s))))
           (trace s ++ [Slept (60 * 60 * 4)]),
     Ok tt).
Proof.
  intros Hout. unfold cycle, try_except, try_block. unfold bind at 1.
  destruct (is_within_trading_hours_total s) as [b Hb]. rewrite Hb in *.
  cbn [snd] in Hout. injection Hout as ->. reflexivity.
Qed.

Lemma cycle_outside_trading_hours_witness :
  cycle default_config (sim_state (Sim.quiet (mk_time 13 30 0 0)))
  = (mk_st (Sim.quiet (mk_time 13 30 0 0)) [Slept 14400], Ok tt).
Proof.
  exact (cycle_outside_trading_hours (T := Sim.terminal) default_config
           (sim_state (Sim.quiet (mk_time 13 30 0 0))) eq_refl).
Defined.


(** X17.  [n] passes of the loop only add to what has been logged and sent,
    and they place at most [n] orders: a pass never opens more than one
    position. *)
Theorem main_loop_orders
    {W : Type} {T : Terminal W} (cfg : Config) (n : nat) (s : St W) :
  exists evs,
    trace (fst (main_loop cfg n s)) = trace s ++ evs
    /\ (length (List.filter is_deal evs) <= n)%nat.
Proof.
  assert (H : adds is_deal n (fun _ : unit => True) (main_loop cfg n)).
  { induction n as [|n IH]; cbn [main_loop].
    - now apply adds_ret.
    - apply (adds_bind is_deal 1 n (fun _ => True)); [|intros _ _; exact IH].
      now apply (cycle_adds cfg 1 (fun _ => True)). }
  destruct (H s) as (evs & Htr & Hn & _). exists evs. split; assumption.
Qed.

(** X18.  The cap on open positions holds orders back: on a terminal that
    never reports fewer positions than [MAX_POSITIONS], no number of passes
    places an order. *)
Theorem main_loop_respects_cap
    {W : Type} {T : Terminal W} (cfg : Config) (n : nat) (s : St W) :
  (forall w ps, snd (positions_get (BySymbols [SYMBOL cfg]) w) = Some ps ->
                (MAX_POSITIONS cfg <= Z.of_nat (length ps))%Z) ->
  exists evs,
    trace (fst (main_loop cfg n s)) = trace s ++ evs
    /\ List.filter is_deal evs = [].
Proof.
  intros Hcap.
  assert (Hc : adds is_deal 0 (fun _ : unit => True) (cycle cfg)).
  { apply (cycle_adds cfg 0 (fun free => free = false)).
    - intros w ps Hps. apply Z.ltb_ge. now apply (Hcap w).
    - discriminate. }
  assert (H : adds is_deal 0 (fun _ : unit => True) (main_loop cfg n)).
  { induction n as [|n IH]; cbn [main_loop].
    - now apply adds_ret.
    - apply (adds_bind_quiet is_deal 0 (fun _ => True)); [exact Hc|].
      intros _ _. exact IH. }
  destruct (H s) as (evs & Htr & Hn & _). exists evs. split; [exact Htr|].
  destruct (List.filter is_deal evs); [reflexivity | cbn in Hn; lia].
Qed.

Lemma main_loop_respects_cap_witness :
  exists evs,
    trace (fst (main_loop default_config 2 Desk.start)) = trace Desk.start ++ evs
    /\ List.filter is_deal evs = [].
Proof.
  apply (main_loop_respects_cap (T := Desk.terminal) default_config 2 Desk.start).
  intros w ps. cbn. intros [= <-]. cbn. lia.
Defined.

Example desk_has_a_signal :
  snd (get_signals (frame_of_bars [Sim.bar 1; Sim.bar 2])) = Ok (Some "buy").
Proof. vm_compute. reflexivity. Qed.

(** X19.  [initialize_mt5] answers true exactly when the plain attempt
    succeeds, or when it fails, account details are configured and the
    attempt with them succeeds; after a successful plain attempt no second
    call is made. *)
Theorem initialize_mt5_outcome
    {W : Type} {T : Terminal W} (cfg : Config) (s : St W) :
  let first := mt5_initialize None (world s) in
  exists b : bool,
    snd (initialize_mt5 cfg s) = Ok b
    /\ (b = true <->
        snd first = true
        \/ exists acct, MT5_ACCOUNT cfg = Some acct
                        /\ snd (mt5_initialize (Some acct) (fst first)) = true)
    /\ (snd first = true -> world (fst (initialize_mt5 cfg s)) = fst first).
Proof.
  cbv zeta. rewrite initialize_mt5_eval.
  destruct (mt5_initialize None (world s)) as [w1 [|]]; cbn [fst snd].
  - exists true. split; [reflexivity|]. split; [|reflexivity].
    split; [intros _; left; reflexivity | reflexivity].
  - destruct (MT5_ACCOUNT cfg) as [acct|].
    + destruct (mt5_initialize (Some acct) w1) as [w2 ok'] eqn:E2.
      destruct ok'; cbn [fst snd].
      * exists true. split; [reflexivity|]. split; [|discriminate].
        split; [|reflexivity].
        intros _. right. exists acct. now rewrite E2.
      * exists false. split; [reflexivity|]. split; [|discriminate].
        split; [discriminate|].
        intros [H|(a & [= <-] & H)]; [discriminate|].
        rewrite E2 in H. discriminate.
    + exists false. split; [reflexivity|]. split; [|discriminate].
      split; [discriminate|].
      intros [H|(a & Ha & _)]; discriminate.
Qed.

(** X20.  When initialisation fails [main] stops there: whatever the number
    of passes allowed, it returns after the warning and the error record of
    [initialize_mt5], without a pass of the loop, an order or a sleep. *)
Theorem main_stops_without_connection
    {W : Type} {T : Terminal W} (cfg : Config) (n : nat) (s : St W) :
  snd (initialize_mt5 cfg s) = Ok false ->
  main cfg n s = (fst (initialize_mt5 cfg s), Ok tt)
  /\ exists msg,
       trace (fst (main cfg n s))
       = trace s ++ [Log WARNING MsgInitRetry; Log ERROR msg].
Proof.
  intros Hfail. unfold main. unfold bind.
  revert Hfail. rewrite initialize_mt5_eval.
  destruct (mt5_initialize None (world s)) as [w1 [|]]; cbn [fst snd negb];
    [discriminate|].
  destruct (MT5_ACCOUNT cfg) as [acct|].
  - destruct (mt5_initialize (Some acct) w1) as [w2 [|]]; cbn [fst snd negb];
      [discriminate|].
    intros _. split; [reflexivity | eexists; reflexivity].
  - intros _. cbn [fst snd negb]. split; [reflexivity | eexists; reflexivity].
Qed.

Lemma main_stops_without_connection_witness :
  let offline :=
    {| Sim.sim_init := false; Sim.sim_account := None; Sim.sim_tick := None;
       Sim.sim_positions := None; Sim.sim_history := None;
       Sim.sim_answer := None; Sim.sim_now := mk_time 9 0 0 0 |} in
  main default_config 5 (sim_state offline)
  = (mk_st offline [Log WARNING MsgInitRetry; Log ERROR MsgInitNoConfig], Ok tt).
Proof.
  cbv zeta.
  exact (proj1 (main_stops_without_connection (T := Sim.terminal) default_config 5
                  (sim_state
                     {| Sim.sim_init := false; Sim.sim_account := None;
                        Sim.sim_tick := None; Sim.sim_positions := None;
                        Sim.sim_history := None; Sim.sim_answer := None;
                        Sim.sim_now := mk_time 9 0 0 0 |})
                  eq_refl)).
Defined.

(** * The loop without account information *)

Section Spin.

Context {W : Type} {T : Terminal W}.
Variable cfg : Config.

Lemma is_within_trading_hours_answer (s s' : St W) :
  world s' = world s ->
  snd (is_within_trading_hours s') = snd (is_within_trading_hours s).
Proof.
  intros Hw. unfold is_within_trading_hours, bind, call, ret. rewrite Hw.
  destruct (clock_now (world s)) as [w now]. reflexivity.
Qed.

Lemma main_loop_spins (n : nat) :
  forall s : St W,
    fst (clock_now (world s)) = world s ->
    fst (account_info (world s)) = world s ->
    snd (is_within_trading_hours s) = Ok true ->
    snd (account_info (world s)) = None ->
    main_loop cfg n s
    = (mk_st (world s) (trace s ++ repeat (Log ERROR MsgAccountInfoFailed) n), Ok tt).
Proof.
  induction n as [|n IH]; intros s Hclock Hread Hin Hacc.
  - cbn. rewrite app_nil_r. now destruct s.
  - cbn [main_loop]. unfold bind at 1. unfold cycle, try_except.
    rewrite (try_block_account_info_failure cfg s Hin)
      by (rewrite Hclock; exact Hacc).
    rewrite Hclock, Hread.
    set (s' := mk_st (world s) (trace s ++ [Log ERROR MsgAccountInfoFailed])).
    rewrite (IH s'); unfold s'; cbn [world trace]; try assumption.
    + rewrite <- app_assoc. reflexivity.
    + now rewrite (is_within_trading_hours_answer s).
Qed.

End Spin.

(** X22.  While the account information stays unavailable during trading
    hours the loop spins: on a terminal whose clock and account reads leave
    the world as it is, [n] passes do nothing but log the same error [n]
    times, without a single sleep between them. *)
Theorem account_info_failure_spins
    {W : Type} {T : Terminal W} (cfg : Config) (n : nat) (s : St W) :
  fst (clock_now (world s)) = world s ->
  fst (account_info (world s)) = world s ->
  snd (is_within_trading_hours s) = Ok true ->
  snd (account_info (world s)) = None ->
  main_loop cfg n s
  = (mk_st (world s) (trace s ++ repeat (Log ERROR MsgAccountInfoFailed) n), Ok tt).
Proof. apply main_loop_spins. Qed.

Lemma account_info_failure_spins_witness :
  main_loop default_config 4 (sim_state (flat_history 3))
  = (mk_st (flat_history 3) (repeat (Log ERROR MsgAccountInfoFailed) 4), Ok tt).
Proof.
  exact (account_info_failure_spins (T := Sim.terminal) default_config 4
           (sim_state (flat_history 3)) eq_refl eq_refl eq_refl eq_refl).
Defined.
